(** * Ideal-gas MHD state conversion (src/eos/ideal_mhd.hpp)

    A shallow embedding of the single-state conversion kernels of
    [ideal_mhd.hpp]: the non-relativistic conserved/primitive maps, the two
    master functions of Kastaun et al., the two-phase false-position
    solver of the special-relativistic conserved-to-primitive map and the
    special- and general-relativistic primitive-to-conserved maps.

    The C++ type [Real] is a build-time typedef (float or double) declared in
    athena.hpp.  The kernels are therefore written once over an arithmetic
    interface [RealArith]; every property that only depends on the control
    flow of the kernels is proved for an arbitrary interpretation of that
    interface, and the algebraic properties are proved for the
    interpretation by the real numbers [R].  That reading idealises
    rounding away; in [R] a division by zero is 0 and the square root of a
    negative number is 0, where the C++ yields an infinity or a NaN.  The
    evaluations at concrete states over [R] meet neither, and the general
    theorems over [R] are statements about this exact-arithmetic reading.
    A second interpretation, by IEEE 754 binary64 numbers ([Real = double],
    the default build), runs the kernels on concrete states.

    The development then covers the rest of the sources at hand: the time
    step of the hydrodynamics module (src/hydro/hydro_newdt.cpp), the
    selection of physics and methods in its constructor
    (src/hydro/hydro.cpp), and the slice check, the file name and the
    counters of the formatted-table output
    (src/outputs/formatted_table.cpp). *)

From Stdlib Require Import ZArith QArith Qreals Reals Lra Lia Bool.
From Stdlib Require Floats.
From Stdlib Require String Ascii List.
From Equations Require Import Equations.

Set Implicit Arguments.

(** ** The arithmetic interface *)

(** The operations the kernels use on [Real]: decimal literals, the four
    field operations, unary minus, [sqrt], [fabs], [fmax] and the two
    comparisons. *)
Class RealArith (Real : Type) := {
  lit : Q -> Real;
  add : Real -> Real -> Real;
  sub : Real -> Real -> Real;
  neg : Real -> Real;
  mul : Real -> Real -> Real;
  div : Real -> Real -> Real;
  sqrt : Real -> Real;
  fabs : Real -> Real;
  fmax : Real -> Real -> Real;
  ltb : Real -> Real -> bool;
  leb : Real -> Real -> bool
}.

Declare Scope real_scope.
Delimit Scope real_scope with real.
Infix "+" := add : real_scope.
Infix "-" := sub : real_scope.
Notation "- x" := (neg x) : real_scope.
Infix "*" := mul : real_scope.
Infix "/" := div : real_scope.
Infix "<?" := ltb : real_scope.
Infix "<=?" := leb : real_scope.

(** ** Data model *)

(** The structs are declared in athena.hpp; their fields are the ones the
    kernels read and write ([by_] stands for the field [by], a keyword
    here). *)

(** Modelled from the spec: [EOS_Data], the per-run parameters (adiabatic
    index, density floor, pressure floor). *)
Module EOS_Data.
Record t (Real : Type) := mk { gamma : Real; dfloor : Real; pfloor : Real }.
End EOS_Data.

(** Modelled from the spec: [MHDCons1D], a conserved state with the
    cell-centered magnetic field. *)
Module MHDCons1D.
Record t (Real : Type) := mk {
  d : Real; mx : Real; my : Real; mz : Real; e : Real;
  bx : Real; by_ : Real; bz : Real }.
Definition set_d {Real} (u : t Real) (v : Real) : t Real :=
  mk v (mx u) (my u) (mz u) (e u) (bx u) (by_ u) (bz u).
Definition set_e {Real} (u : t Real) (v : Real) : t Real :=
  mk (d u) (mx u) (my u) (mz u) v (bx u) (by_ u) (bz u).
End MHDCons1D.

(** Modelled from the spec: [HydCons1D], a conserved state without field. *)
Module HydCons1D.
Record t (Real : Type) := mk {
  d : Real; mx : Real; my : Real; mz : Real; e : Real }.
End HydCons1D.

(** Modelled from the spec: [HydPrim1D], a primitive state without field. *)
Module HydPrim1D.
Record t (Real : Type) := mk {
  d : Real; vx : Real; vy : Real; vz : Real; e : Real }.
End HydPrim1D.

(** Modelled from the spec: [MHDPrim1D], a primitive state with the
    cell-centered magnetic field. *)
Module MHDPrim1D.
Record t (Real : Type) := mk {
  d : Real; vx : Real; vy : Real; vz : Real; e : Real;
  bx : Real; by_ : Real; bz : Real }.
End MHDPrim1D.

(** What a conserved-to-primitive call leaves behind: the conserved state it
    was handed by reference, the primitive state, and the two floor flags. *)
Record C2P (Real : Type) := mkC2P {
  c2p_u : MHDCons1D.t Real;
  c2p_w : HydPrim1D.t Real;
  c2p_dfloor_used : bool;
  c2p_efloor_used : bool }.

(** The decimal literals the kernels use. *)
Notation "'0.0'" := (lit 0) : real_scope.
Notation "'1.0'" := (lit 1) : real_scope.
Notation "'0.5'" := (lit (1 # 2)) : real_scope.
Notation "'2.0'" := (lit 2) : real_scope.

Section Kernels.

Context {Real : Type} {RA : RealArith Real}.

Local Open Scope real_scope.

(** Modelled from the spec: the macro [SQR] of athena.hpp, the square. *)
Definition SQR (x : Real) : Real := x * x.

(** ** Non-relativistic converter *)

(** Kinetic and magnetic energy density of a conserved state, as lines 40-41
    of the source compute them. *)
Definition e_kinetic (u : MHDCons1D.t Real) : Real :=
  let di := 1.0 / MHDCons1D.d u in
  0.5 * di * (SQR (MHDCons1D.mx u) + SQR (MHDCons1D.my u) + SQR (MHDCons1D.mz u)).

Definition e_magnetic (u : MHDCons1D.t Real) : Real :=
  0.5 * (SQR (MHDCons1D.bx u) + SQR (MHDCons1D.by_ u) + SQR (MHDCons1D.bz u)).

(** The density floor both converters start with: [u.d] is overwritten and
    the flag raised when [u.d < dfloor]. *)
Definition apply_dfloor (u : MHDCons1D.t Real) (dfloor_ : Real)
    (dfloor_used : bool) : MHDCons1D.t Real * bool :=
  if MHDCons1D.d u <? dfloor_ then (MHDCons1D.set_d u dfloor_, true)
  else (u, dfloor_used).

Definition SingleC2P_IdealMHD (u : MHDCons1D.t Real) (eos : EOS_Data.t Real)
    (dfloor_used efloor_used : bool) : C2P Real :=
  let dfloor_ := EOS_Data.dfloor eos in
  let efloor := EOS_Data.pfloor eos / (EOS_Data.gamma eos - 1.0) in
  (* apply density floor, without changing momentum or energy *)
  let '(u, dfloor_used) := apply_dfloor u dfloor_ dfloor_used in
  let w_d := MHDCons1D.d u in
  (* compute velocities *)
  let di := 1.0 / MHDCons1D.d u in
  let w_vx := di * MHDCons1D.mx u in
  let w_vy := di * MHDCons1D.my u in
  let w_vz := di * MHDCons1D.mz u in
  (* set internal energy, apply floor, correcting total energy *)
  let e_k := 0.5 * di *
    (SQR (MHDCons1D.mx u) + SQR (MHDCons1D.my u) + SQR (MHDCons1D.mz u)) in
  let e_m := 0.5 *
    (SQR (MHDCons1D.bx u) + SQR (MHDCons1D.by_ u) + SQR (MHDCons1D.bz u)) in
  let w_e := MHDCons1D.e u - e_k - e_m in
  if w_e <? efloor then
    mkC2P (MHDCons1D.set_e u (efloor + e_k + e_m))
          (HydPrim1D.mk w_d w_vx w_vy w_vz efloor) dfloor_used true
  else
    mkC2P u (HydPrim1D.mk w_d w_vx w_vy w_vz w_e) dfloor_used efloor_used.

Definition SingleP2C_IdealMHD (w : MHDPrim1D.t Real) : HydCons1D.t Real :=
  HydCons1D.mk
    (MHDPrim1D.d w)
    (MHDPrim1D.d w * MHDPrim1D.vx w)
    (MHDPrim1D.d w * MHDPrim1D.vy w)
    (MHDPrim1D.d w * MHDPrim1D.vz w)
    (MHDPrim1D.e w +
     0.5 * (MHDPrim1D.d w *
              (SQR (MHDPrim1D.vx w) + SQR (MHDPrim1D.vy w) + SQR (MHDPrim1D.vz w)) +
            (SQR (MHDPrim1D.bx w) + SQR (MHDPrim1D.by_ w) + SQR (MHDPrim1D.bz w)))).

(** ** Master root functions (relativistic case) *)

(** [fa(mu)] of eq. 49 of Kastaun et al.; its root is the upper bracket for
    [Equation44].  The argument [q] is unused, as in the source. *)
Definition Equation49 (mu b2 rp r q : Real) : Real :=
  let x := 1.0 / (1.0 + mu * b2) in                           (* (26) *)
  let rbar := x * x * r * r + mu * x * (1.0 + x) * rp * rp in (* (38) *)
  mu * sqrt (1.0 + rbar) - 1.0.

(** [f(mu)] of eq. 44 of Kastaun et al. *)
Definition Equation44 (mu b2 rpar r q u_d : Real) (eos : EOS_Data.t Real) : Real :=
  let x := 1.0 / (1.0 + mu * b2) in                               (* (26) *)
  let rbar := x * x * r * r + mu * x * (1.0 + x) * rpar * rpar in (* (38) *)
  let qbar := q - 0.5 * b2 - 0.5 * (mu * mu * (b2 * rbar - rpar * rpar)) in (* (31) *)
  let z2 := mu * mu * rbar / fabs (1.0 - SQR mu * rbar) in        (* (32) *)
  let w := sqrt (1.0 + z2) in
  let wd := u_d / w in                                            (* (34) *)
  let eps := w * (qbar - mu * rbar) + z2 / (w + 1.0) in
  let gm1 := EOS_Data.gamma eos - 1.0 in
  let eps := fmax (EOS_Data.pfloor eos / (wd * gm1)) eps in
  let h := 1.0 + EOS_Data.gamma eos * eps in                      (* (43) *)
  mu - 1.0 / (h / w + rbar * mu).                                 (* (45) *)

(** ** The bounded false-position solver *)

Definition max_iterations : Z := 25.
Definition tol : Real := lit (1 # 1000000000000).

(** The variables the two solver loops of [SingleC2P_IdealSRMHD] work on.
    [nbody] is not a variable of the source: it counts how often the loop
    body has been entered, so that the trip count can be stated. *)
Record FPState := mkFP {
  zm : Real; zp : Real; fm : Real; fp : Real; z : Real;
  iter : Z;
  nbody : nat }.

(** [for (...; iter < iterations; ++iter) { ... }] of lines 164-183 and
    201-220, from the current value of [iter] on.  The two loops of the
    source are the same text up to the master function [f] they call. *)
Equations? fp_loop (f : Real -> Real) (iterations : Z) (st : FPState) : FPState
  by wf (Z.to_nat (iterations - iter st)) lt :=
fp_loop f iterations st with Z_lt_dec (iter st) iterations := {
  | right _ := st
  | left _ :=
    (* linear interpolation to point f(z)=0 *)
    let z' := (zm st * fp st - zp st * fm st) / (fp st - fm st) in
    let f' := f z' in
    (* Quit if convergence reached *)
    if (fabs (zm st - zp st) <? tol) || (fabs f' <? tol) then
      mkFP (zm st) (zp st) (fm st) (fp st) z' (iter st) (S (nbody st))
    else if f' * fp st <? 0.0 then
      (* assign zm-->zp if root bracketed by [z,zp] *)
      fp_loop f iterations
        (mkFP (zp st) z' (fp st) f' z' (iter st + 1) (S (nbody st)))
    else
      (* assign zp-->z if root bracketed by [zm,z]; Illinois halving of fm *)
      fp_loop f iterations
        (mkFP (zm st) z' (0.5 * fm st) f' z' (iter st + 1) (S (nbody st))) }.
Proof. all: simpl; lia. Qed.

(** One solver phase: evaluate [f] at the bracket, pick the iteration cap
    ([-1] when the bracket is already within tolerance), start from the
    midpoint and run the loop from [iter = 0]. *)
Definition false_position (f : Real -> Real) (zm0 zp0 : Real) : FPState :=
  let fm0 := f zm0 in
  let fp0 := f zp0 in
  let iterations :=
    if (fabs (zm0 - zp0) <? tol) || (fabs fm0 + fabs fp0 <? 2.0 * tol)
    then (-1)%Z else max_iterations in
  let z0 := 0.5 * (zm0 + zp0) in
  fp_loop f iterations (mkFP zm0 zp0 fm0 fp0 z0 0%Z 0%nat).

(** [max_iter = (iter > max_iter) ? iter : max_iter] *)
Definition update_max_iter (it max_iter : Z) : Z :=
  if (it >? max_iter)%Z then it else max_iter.

(** ** Relativistic converter (conserved to primitive) *)

(** Lines 128-132: the energy floor applied on entry, which accounts for the
    magnetic energy through the caller's [b2]. *)
Definition apply_efloor_sr (u : MHDCons1D.t Real) (eos : EOS_Data.t Real)
    (b2 : Real) (efloor_used : bool) : MHDCons1D.t Real * bool :=
  let gm1 := EOS_Data.gamma eos - 1.0 in
  if MHDCons1D.e u <? EOS_Data.pfloor eos / gm1 + 0.5 * b2
  then (MHDCons1D.set_e u (EOS_Data.pfloor eos / gm1 + 0.5 * b2), true)
  else (u, efloor_used).

(** Lines 134-145: the variables recast by density (eq. 22-24). *)
Record Recast := mkRecast {
  rc_q : Real; rc_r : Real;
  rc_bx : Real; rc_by : Real; rc_bz : Real;
  rc_b2 : Real; rc_rpar : Real }.

Definition recast (u : MHDCons1D.t Real) (s2 b2 rpar : Real) : Recast :=
  let q := MHDCons1D.e u / MHDCons1D.d u in
  let r := sqrt s2 / MHDCons1D.d u in
  let isqrtd := 1.0 / sqrt (MHDCons1D.d u) in
  let bx := MHDCons1D.bx u * isqrtd in
  let by_ := MHDCons1D.by_ u * isqrtd in
  let bz := MHDCons1D.bz u * isqrtd in
  (* normalize b2 and rpar as well since they contain b *)
  let b2 := b2 / MHDCons1D.d u in
  let rpar := rpar * isqrtd in
  mkRecast q r bx by_ bz b2 rpar.

(** Lines 147-183: the bracket search, on [Equation49] over [0, 1]. *)
Definition bracket_phase (rc : Recast) : FPState :=
  false_position
    (fun mu => Equation49 mu (rc_b2 rc) (rc_rpar rc) (rc_r rc) (rc_q rc))
    0.0 1.0.

(** Lines 186-220: the root refinement, on [Equation44] over [0, z]. *)
Definition root_phase (rc : Recast) (u_d : Real) (eos : EOS_Data.t Real)
    (z1 : Real) : FPState :=
  false_position
    (fun mu => Equation44 mu (rc_b2 rc) (rc_rpar rc) (rc_r rc) (rc_q rc) u_d eos)
    0.0 z1.

(** Lines 223-248: the primitives computed from the final value [mu] of [z].
    Returns the primitive state and the energy-floor flag. *)
Definition primitives_from_mu (u : MHDCons1D.t Real) (eos : EOS_Data.t Real)
    (rc : Recast) (mu : Real) (efloor_used : bool) : HydPrim1D.t Real * bool :=
  let gm1 := EOS_Data.gamma eos - 1.0 in
  let b2 := rc_b2 rc in
  let rpar := rc_rpar rc in
  let r := rc_r rc in
  let q := rc_q rc in
  let x := 1.0 / (1.0 + mu * b2) in                               (* (26) *)
  let rbar := x * x * r * r + mu * x * (1.0 + x) * rpar * rpar in (* (38) *)
  let qbar := q - 0.5 * b2 - 0.5 * (mu * mu * (b2 * rbar - rpar * rpar)) in (* (31) *)
  let z2 := mu * mu * rbar / fabs (1.0 - SQR mu * rbar) in        (* (32) *)
  let lor := sqrt (1.0 + z2) in
  let w_d := MHDCons1D.d u / lor in                               (* (34) *)
  let eps := lor * (qbar - mu * rbar) + z2 / (lor + 1.0) in
  let epsmin := EOS_Data.pfloor eos / (w_d * gm1) in
  let '(eps, efloor_used) :=
    if eps <=? epsmin then (epsmin, true) else (eps, efloor_used) in
  let h := 1.0 + EOS_Data.gamma eos * eps in                      (* (43) *)
  let conv := lor / (h * lor + b2) in                             (* (C26) *)
  let w_vx := conv * (MHDCons1D.mx u / MHDCons1D.d u + rc_bx rc * rpar / (h * lor)) in
  let w_vy := conv * (MHDCons1D.my u / MHDCons1D.d u + rc_by rc * rpar / (h * lor)) in
  let w_vz := conv * (MHDCons1D.mz u / MHDCons1D.d u + rc_bz rc * rpar / (h * lor)) in
  let w_e := w_d * eps in
  (HydPrim1D.mk w_d w_vx w_vy w_vz w_e, efloor_used).

(** What [SingleC2P_IdealSRMHD] leaves behind: as [C2P], and the running
    maximum [max_iter] of the iteration counts. *)
Record SRC2P := mkSRC2P {
  sr_u : MHDCons1D.t Real;
  sr_w : HydPrim1D.t Real;
  sr_dfloor_used : bool;
  sr_efloor_used : bool;
  sr_max_iter : Z }.

Definition SingleC2P_IdealSRMHD (u : MHDCons1D.t Real) (eos : EOS_Data.t Real)
    (s2 b2 rpar : Real) (dfloor_used efloor_used : bool) (max_iter : Z) : SRC2P :=
  (* apply density floor, without changing momentum or energy *)
  let '(u, dfloor_used) := apply_dfloor u (EOS_Data.dfloor eos) dfloor_used in
  (* apply energy floor *)
  let '(u, efloor_used) := apply_efloor_sr u eos b2 efloor_used in
  (* Recast all variables (eq 22-24) *)
  let rc := recast u s2 b2 rpar in
  (* Need to find initial bracket. Requires separate solve *)
  let p1 := bracket_phase rc in
  let max_iter := update_max_iter (iter p1) max_iter in
  (* Found brackets. Now find solution in bounded interval *)
  let p2 := root_phase rc (MHDCons1D.d u) eos (z p1) in
  let max_iter := update_max_iter (iter p2) max_iter in
  (* iterations ended, compute primitives from resulting value of z *)
  let '(w, efloor_used) := primitives_from_mu u eos rc (z p2) efloor_used in
  mkSRC2P u w dfloor_used efloor_used max_iter.

(** ** Relativistic converter (primitive to conserved) *)

(** Line 260: the Lorentz factor of a primitive state, whose velocity
    components are the spatial components of the 4-velocity. *)
Definition lorentz_u0 (vx vy vz : Real) : Real :=
  sqrt (1.0 + SQR vx + SQR vy + SQR vz).

Definition SingleP2C_IdealSRMHD (w : MHDPrim1D.t Real) (gam : Real) : HydCons1D.t Real :=
  (* Calculate Lorentz factor *)
  let u0 := lorentz_u0 (MHDPrim1D.vx w) (MHDPrim1D.vy w) (MHDPrim1D.vz w) in
  (* Calculate 4-magnetic field *)
  let b0 := MHDPrim1D.bx w * MHDPrim1D.vx w + MHDPrim1D.by_ w * MHDPrim1D.vy w
            + MHDPrim1D.bz w * MHDPrim1D.vz w in
  let b1 := (MHDPrim1D.bx w + b0 * MHDPrim1D.vx w) / u0 in
  let b2 := (MHDPrim1D.by_ w + b0 * MHDPrim1D.vy w) / u0 in
  let b3 := (MHDPrim1D.bz w + b0 * MHDPrim1D.vz w) / u0 in
  let b_sq := - SQR b0 + SQR b1 + SQR b2 + SQR b3 in
  (* Set conserved quantities *)
  let wtot_u02 := (MHDPrim1D.d w + gam * MHDPrim1D.e w + b_sq) * u0 * u0 in
  let u_d := MHDPrim1D.d w * u0 in
  let u_e := wtot_u02 - b0 * b0 - ((gam - 1.0) * MHDPrim1D.e w + 0.5 * b_sq) - u_d in
  let u_mx := wtot_u02 * MHDPrim1D.vx w / u0 - b0 * b1 in
  let u_my := wtot_u02 * MHDPrim1D.vy w / u0 - b0 * b2 in
  let u_mz := wtot_u02 * MHDPrim1D.vz w / u0 - b0 * b3 in
  HydCons1D.mk u_d u_mx u_my u_mz u_e.

(** ** Quantities the properties are stated with *)

(** The floor tests of the converters, as conditions on the caller's input. *)
Definition dfloor_triggers (u : MHDCons1D.t Real) (eos : EOS_Data.t Real) : bool :=
  MHDCons1D.d u <? EOS_Data.dfloor eos.

(** Line 43, on the state the density floor leaves. *)
Definition efloor_triggers_mhd (u : MHDCons1D.t Real) (eos : EOS_Data.t Real) : bool :=
  let u1 := fst (apply_dfloor u (EOS_Data.dfloor eos) false) in
  MHDCons1D.e u1 - e_kinetic u1 - e_magnetic u1
    <? EOS_Data.pfloor eos / (EOS_Data.gamma eos - 1.0).

(** Line 129, the entry-time energy floor of the relativistic converter. *)
Definition efloor_triggers_sr (u : MHDCons1D.t Real) (eos : EOS_Data.t Real)
    (b2 : Real) : bool :=
  MHDCons1D.e u <? EOS_Data.pfloor eos / (EOS_Data.gamma eos - 1.0) + 0.5 * b2.

(** The conserved state after both entry floors of the relativistic
    converter, and the recast variables the solver runs on. *)
Definition sr_floored (u : MHDCons1D.t Real) (eos : EOS_Data.t Real)
    (b2 : Real) : MHDCons1D.t Real :=
  fst (apply_efloor_sr (fst (apply_dfloor u (EOS_Data.dfloor eos) false)) eos b2 false).

Definition sr_recast (u : MHDCons1D.t Real) (eos : EOS_Data.t Real)
    (s2 b2 rpar : Real) : Recast :=
  recast (sr_floored u eos b2) s2 b2 rpar.

(** The final value of the root variable [mu] (the [z] line 224 aliases). *)
Definition sr_mu (u : MHDCons1D.t Real) (eos : EOS_Data.t Real)
    (s2 b2 rpar : Real) : Real :=
  let rc := sr_recast u eos s2 b2 rpar in
  z (root_phase rc (MHDCons1D.d (sr_floored u eos b2)) eos (z (bracket_phase rc))).

(** Intermediate quantities of eq. 26, 38, 31, 32 as all three places of the
    source (both master functions and the final step) compute them. *)
Definition kastaun_x (mu b2 : Real) : Real := 1.0 / (1.0 + mu * b2).

Definition kastaun_rbar (mu b2 rpar r : Real) : Real :=
  let x := kastaun_x mu b2 in
  x * x * r * r + mu * x * (1.0 + x) * rpar * rpar.

Definition kastaun_qbar (mu b2 rpar r q : Real) : Real :=
  q - 0.5 * b2 - 0.5 * (mu * mu * (b2 * kastaun_rbar mu b2 rpar r - rpar * rpar)).

Definition kastaun_z2 (mu b2 rpar r : Real) : Real :=
  mu * mu * kastaun_rbar mu b2 rpar r
    / fabs (1.0 - SQR mu * kastaun_rbar mu b2 rpar r).

Definition kastaun_lorentz (mu b2 rpar r : Real) : Real :=
  sqrt (1.0 + kastaun_z2 mu b2 rpar r).

(** The specific internal energy before any floor. *)
Definition kastaun_eps (mu b2 rpar r q : Real) : Real :=
  let w := kastaun_lorentz mu b2 rpar r in
  w * (kastaun_qbar mu b2 rpar r q - mu * kastaun_rbar mu b2 rpar r)
    + kastaun_z2 mu b2 rpar r / (w + 1.0).

(** The floor on the specific internal energy at the rest-frame density
    [u_d / w] implied at [mu]. *)
Definition eps_floor_at (mu b2 rpar r u_d : Real) (eos : EOS_Data.t Real) : Real :=
  EOS_Data.pfloor eos
    / (u_d / kastaun_lorentz mu b2 rpar r * (EOS_Data.gamma eos - 1.0)).

(** Line 235, the floor on [eps] of the final step: the test [eps <=
    epsmin] at the final value of the root variable. *)
Definition eps_floor_triggers_sr (u : MHDCons1D.t Real) (eos : EOS_Data.t Real)
    (s2 b2 rpar : Real) : bool :=
  let rc := sr_recast u eos s2 b2 rpar in
  let mu := sr_mu u eos s2 b2 rpar in
  kastaun_eps mu (rc_b2 rc) (rc_rpar rc) (rc_r rc) (rc_q rc)
    <=? eps_floor_at mu (rc_b2 rc) (rc_rpar rc) (rc_r rc)
          (MHDCons1D.d (sr_floored u eos b2)) eos.

(** Eq. 43 and 45 for a given specific internal energy [eps]. *)
Definition master_of_eps (mu b2 rpar r : Real) (eos : EOS_Data.t Real)
    (eps : Real) : Real :=
  let h := 1.0 + EOS_Data.gamma eos * eps in
  mu - 1.0 / (h / kastaun_lorentz mu b2 rpar r + kastaun_rbar mu b2 rpar r * mu).

(** The primary master function as the specification words it: the specific
    internal energy is floored at the locally implied rest density before it
    enters the enthalpy. *)
Definition Equation44_spec (mu b2 rpar r q u_d : Real) (eos : EOS_Data.t Real) : Real :=
  master_of_eps mu b2 rpar r eos
    (fmax (kastaun_eps mu b2 rpar r q) (eps_floor_at mu b2 rpar r u_d eos)).

(** The master function with the floor left to the final step only. *)
Definition Equation44_unfloored (mu b2 rpar r q : Real) (eos : EOS_Data.t Real) : Real :=
  master_of_eps mu b2 rpar r eos (kastaun_eps mu b2 rpar r q).

(** Attach the cell-centered field of a conserved state to a primitive
    state, and drop it from a conserved state. *)
Definition with_field (w : HydPrim1D.t Real) (u : MHDCons1D.t Real) : MHDPrim1D.t Real :=
  MHDPrim1D.mk (HydPrim1D.d w) (HydPrim1D.vx w) (HydPrim1D.vy w) (HydPrim1D.vz w)
    (HydPrim1D.e w) (MHDCons1D.bx u) (MHDCons1D.by_ u) (MHDCons1D.bz u).

Definition drop_field (u : MHDCons1D.t Real) : HydCons1D.t Real :=
  HydCons1D.mk (MHDCons1D.d u) (MHDCons1D.mx u) (MHDCons1D.my u) (MHDCons1D.mz u)
    (MHDCons1D.e u).

End Kernels.

(** ** Interpretation over the real numbers *)

Definition Rltb (a b : R) : bool := if Rlt_dec a b then true else false.
Definition Rleb (a b : R) : bool := if Rle_dec a b then true else false.

(** The exact-arithmetic reading of [Real]: literals denote their rational
    value, [fmax] is the maximum, comparisons are the order of [R]. *)
#[export] Instance R_arith : RealArith R := {|
  lit := Q2R;
  add := Rplus; sub := Rminus; neg := Ropp; mul := Rmult; div := Rdiv;
  sqrt := R_sqrt.sqrt; fabs := Rabs; fmax := Rmax;
  ltb := Rltb; leb := Rleb |}.

(** ** Interpretation by binary64 floating-point numbers *)

Definition float_of_Z (n : Z) : PrimFloat.float :=
  match n with
  | Z0 => PrimFloat.of_uint63 (Uint63.of_Z 0%Z)
  | Zpos p => PrimFloat.of_uint63 (Uint63.of_Z (Zpos p))
  | Zneg p => PrimFloat.opp (PrimFloat.of_uint63 (Uint63.of_Z (Zpos p)))
  end.

(** A decimal literal denotes the binary64 number nearest to its rational
    value: numerator and denominator of the literals used here are exactly
    representable, and the division is correctly rounded. *)
Definition float_lit (q : Q) : PrimFloat.float :=
  PrimFloat.div (float_of_Z (Qnum q)) (float_of_Z (Zpos (Qden q))).

(** [fmax] of the C library: a NaN argument is ignored. *)
Definition float_fmax (a b : PrimFloat.float) : PrimFloat.float :=
  if PrimFloat.is_nan a then b
  else if PrimFloat.is_nan b then a
  else if PrimFloat.ltb a b then b else a.

(** The double-precision reading of [Real]: round-to-nearest operations,
    comparisons that are false on a NaN. *)
#[export] Instance float_arith : RealArith PrimFloat.float :=
  Build_RealArith float_lit PrimFloat.add PrimFloat.sub PrimFloat.opp
    PrimFloat.mul PrimFloat.div PrimFloat.sqrt PrimFloat.abs float_fmax
    PrimFloat.ltb PrimFloat.leb.

(** An ideal gas with [gamma = 5/3] and both floors at [1e-8], in binary64. *)
Definition eos_small_floors_b64 : EOS_Data.t PrimFloat.float :=
  EOS_Data.mk (float_lit (5 # 3)) (float_lit (1 # 100000000))
    (float_lit (1 # 100000000)).

(** An unmagnetized, hot, ultra-relativistic state: [D = 1],
    [S = (2^27, 0, 0)], [u.e = 2^27] (so that [(u.e + D)^2 > D^2 + S^2]:
    the state is physically admissible and above both floors); the invariants
    the caller passes for it are [s2 = 2^54], [b2 = 0], [rpar = 0].  Every
    component is a power of two, exact in binary64. *)
Definition ultra_u : MHDCons1D.t PrimFloat.float :=
  MHDCons1D.mk (float_lit 1) (float_lit 134217728) (float_lit 0) (float_lit 0)
    (float_lit 134217728) (float_lit 0) (float_lit 0) (float_lit 0).

Definition ultra_s2 : PrimFloat.float := float_lit 18014398509481984.

(** A creeping flow: unit density and energy, momentum [2^-27], no field; its
    [s2 = 2^-54] is exact in binary64. *)
Definition creeping_b64 : MHDCons1D.t PrimFloat.float :=
  MHDCons1D.mk (float_lit 1) (float_lit (1 # 134217728)) (float_lit 0) (float_lit 0)
    (float_lit 1) (float_lit 0) (float_lit 0) (float_lit 0).

Definition creeping_s2 : PrimFloat.float := float_lit (1 # 18014398509481984).

(** The state of density [-1] of the sub-floor scenario, the cold moving
    state, and a slow state of density 49, in binary64. *)
Definition negative_density_b64 : MHDCons1D.t PrimFloat.float :=
  MHDCons1D.mk (float_lit (-1)) (float_lit 0) (float_lit 0) (float_lit 0)
    (float_lit 1) (float_lit 0) (float_lit 0) (float_lit 0).

Definition cold_eos_b64 : EOS_Data.t PrimFloat.float :=
  EOS_Data.mk (float_lit (5 # 3)) (float_lit 1) (float_lit 0).

Definition cold_b64 : MHDCons1D.t PrimFloat.float :=
  MHDCons1D.mk (float_lit 1) (float_lit (3 # 4)) (float_lit 0) (float_lit 0)
    (float_lit 0) (float_lit 0) (float_lit 0) (float_lit 0).

Definition slow_b64 : MHDCons1D.t PrimFloat.float :=
  MHDCons1D.mk (float_lit 49) (float_lit 1) (float_lit 0) (float_lit 0)
    (float_lit 1) (float_lit 0) (float_lit 0) (float_lit 0).

(** A cold, unmagnetized, moving state: [D = 1], [S = (3/4, 0, 0)], energy
    [e], with [gamma = 5/3], [dfloor = 1] and [pfloor = 0]; the invariants
    the caller passes for it are [s2 = 9/16], [b2 = 0], [rpar = 0]. *)
Definition cold_eos : EOS_Data.t R := EOS_Data.mk (5 / 3)%R 1%R 0%R.

Definition cold_u (e : R) : MHDCons1D.t R :=
  MHDCons1D.mk 1%R (3 / 4)%R 0%R 0%R e 0%R 0%R 0%R.

Definition cold_rc : Recast (Real := R) :=
  mkRecast 0%R (3 / 4)%R 0%R 0%R 0%R 0%R 0%R.

(** An ideal gas with [gamma = 5/3], and the same with both floors at
    [1e-8]. *)
Definition eos_5_3 (dfloor pfloor : R) : EOS_Data.t R :=
  EOS_Data.mk (5 / 3)%R dfloor pfloor.

Definition eos_small_floors : EOS_Data.t R :=
  eos_5_3 (/ 100000000)%R (/ 100000000)%R.

(** A static fluid of unit density and pressure [p]: no momentum, no field. *)

Definition static_u (p : R) : MHDCons1D.t R :=
  MHDCons1D.mk 1%R 0%R 0%R 0%R (p / (5 / 3 - 1))%R 0%R 0%R 0%R.

(** Three non-relativistic states: one well above both floors, one whose
    internal energy is below the floor, one of negative density. *)
Definition warm_u : MHDCons1D.t R :=
  MHDCons1D.mk 2%R 1%R 0%R 0%R 3%R 1%R 0%R 0%R.

Definition drained_u : MHDCons1D.t R :=
  MHDCons1D.mk 1%R 1%R 0%R 0%R 0%R 1%R 0%R 0%R.

Definition negative_density_u : MHDCons1D.t R :=
  MHDCons1D.mk (-1)%R 0%R 0%R 0%R 1%R 0%R 0%R 0%R.

Definition static_rc (p : R) : Recast (Real := R) :=
  mkRecast (p / (5 / 3 - 1))%R 0%R 0%R 0%R 0%R 0%R 0%R.

(** The constraints the specification puts on the EOS parameters. *)
Definition eos_valid (eos : EOS_Data.t R) : Prop :=
  (1 < EOS_Data.gamma eos)%R /\ (0 < EOS_Data.dfloor eos)%R /\
  (0 <= EOS_Data.pfloor eos)%R.

(** A relativistic conserved state the entry floors leave alone, with the
    caller's [s2] and [b2] sums of squares. *)
Definition sr_admissible (u : MHDCons1D.t R) (eos : EOS_Data.t R) (s2 b2 : R) : Prop :=
  (0 < EOS_Data.dfloor eos)%R /\
  (EOS_Data.dfloor eos <= MHDCons1D.d u)%R /\
  (EOS_Data.pfloor eos / (EOS_Data.gamma eos - 1) + / 2 * b2 <= MHDCons1D.e u)%R /\
  (0 <= s2)%R /\ (0 <= b2)%R.

(** Validity of the initial bracket [0, 1] of the bracket search as the
    specification words it: the bracket function has opposite signs at its
    ends, or one of the two early-exit tests of line 158 holds. *)
Definition initial_bracket_ok (rc : Recast (Real := R)) : Prop :=
  let f0 := Equation49 0%R (rc_b2 rc) (rc_rpar rc) (rc_r rc) (rc_q rc) in
  let f1 := Equation49 1%R (rc_b2 rc) (rc_rpar rc) (rc_r rc) (rc_q rc) in
  (f0 * f1 < 0)%R \/ (Rabs (0 - 1) < tol)%R \/ (Rabs f0 + Rabs f1 < 2 * tol)%R.

(** * The rest of ideal_mhd.hpp *)

Section MoreKernels.

Context {Real : Type} {RA : RealArith Real}.

Local Open Scope real_scope.

(** ** General-relativistic converter (primitive to conserved) *)

(** A [const Real g[][4]] argument: the components of a metric, by row and
    column. *)
Definition Metric : Type := nat -> nat -> Real.

Definition SingleP2C_IdealGRMHD (glower gupper : Metric) (w : MHDPrim1D.t Real)
    (gam : Real) : HydCons1D.t Real :=
  let w_vx := MHDPrim1D.vx w in
  let w_vy := MHDPrim1D.vy w in
  let w_vz := MHDPrim1D.vz w in
  let w_bx := MHDPrim1D.bx w in
  let w_by := MHDPrim1D.by_ w in
  let w_bz := MHDPrim1D.bz w in
  (* Calculate 4-velocity (exploiting symmetry of metric) *)
  let q := glower 1%nat 1%nat * w_vx * w_vx + 2.0 * glower 1%nat 2%nat * w_vx * w_vy
           + 2.0 * glower 1%nat 3%nat * w_vx * w_vz
           + glower 2%nat 2%nat * w_vy * w_vy + 2.0 * glower 2%nat 3%nat * w_vy * w_vz
           + glower 3%nat 3%nat * w_vz * w_vz in
  let alpha := sqrt (- (1.0) / gupper 0%nat 0%nat) in
  let gamma := sqrt (1.0 + q) in
  let u0 := gamma / alpha in
  let u1 := w_vx - alpha * gamma * gupper 0%nat 1%nat in
  let u2 := w_vy - alpha * gamma * gupper 0%nat 2%nat in
  let u3 := w_vz - alpha * gamma * gupper 0%nat 3%nat in
  (* lower vector indices *)
  let lower (a0 a1 a2 a3 : Real) (i : nat) :=
    glower i 0%nat * a0 + glower i 1%nat * a1 + glower i 2%nat * a2
    + glower i 3%nat * a3 in
  let u_0 := lower u0 u1 u2 u3 0%nat in
  let u_1 := lower u0 u1 u2 u3 1%nat in
  let u_2 := lower u0 u1 u2 u3 2%nat in
  let u_3 := lower u0 u1 u2 u3 3%nat in
  (* Calculate 4-magnetic field *)
  let b0 := u_1 * w_bx + u_2 * w_by + u_3 * w_bz in
  let b1 := (w_bx + b0 * u1) / u0 in
  let b2 := (w_by + b0 * u2) / u0 in
  let b3 := (w_bz + b0 * u3) / u0 in
  (* lower vector indices *)
  let b_0 := lower b0 b1 b2 b3 0%nat in
  let b_1 := lower b0 b1 b2 b3 1%nat in
  let b_2 := lower b0 b1 b2 b3 2%nat in
  let b_3 := lower b0 b1 b2 b3 3%nat in
  let b_sq := b0 * b_0 + b1 * b_1 + b2 * b_2 + b3 * b_3 in
  let wtot := MHDPrim1D.d w + gam * MHDPrim1D.e w + b_sq in
  let ptot := (gam - 1.0) * MHDPrim1D.e w + 0.5 * b_sq in
  let u_d := MHDPrim1D.d w * u0 in
  let u_e := wtot * u0 * u_0 - b0 * b_0 + ptot + u_d in  (* evolve T^t_t + D *)
  let u_mx := wtot * u0 * u_1 - b0 * b_1 in
  let u_my := wtot * u0 * u_2 - b0 * b_2 in
  let u_mz := wtot * u0 * u_3 - b0 * b_3 in
  HydCons1D.mk u_d u_mx u_my u_mz u_e.

(** ** More quantities the properties are stated with *)

(** The metric of flat space, the same with lower and with upper indices. *)
Definition minkowski : Metric :=
  fun i j =>
    if Nat.eqb i j then (if Nat.eqb i 0 then - (1.0) else 1.0) else 0.0.

(** The conserved state with field that belongs to a conserved state without
    field and the cell-centered field of a primitive state, and the
    primitive state without its field. *)
Definition cons_with_field (u : HydCons1D.t Real) (w : MHDPrim1D.t Real)
    : MHDCons1D.t Real :=
  MHDCons1D.mk (HydCons1D.d u) (HydCons1D.mx u) (HydCons1D.my u) (HydCons1D.mz u)
    (HydCons1D.e u) (MHDPrim1D.bx w) (MHDPrim1D.by_ w) (MHDPrim1D.bz w).

Definition prim_drop_field (w : MHDPrim1D.t Real) : HydPrim1D.t Real :=
  HydPrim1D.mk (MHDPrim1D.d w) (MHDPrim1D.vx w) (MHDPrim1D.vy w) (MHDPrim1D.vz w)
    (MHDPrim1D.e w).

(** A primitive state without field, read as one with zero field. *)
Definition unmagnetized (w : HydPrim1D.t Real) : MHDPrim1D.t Real :=
  MHDPrim1D.mk (HydPrim1D.d w) (HydPrim1D.vx w) (HydPrim1D.vy w) (HydPrim1D.vz w)
    (HydPrim1D.e w) 0.0 0.0 0.0.

(** The invariant [s2] the caller of [SingleC2P_IdealSRMHD] passes: the
    square of the momentum. *)
Definition momentum_sq (u : MHDCons1D.t Real) : Real :=
  SQR (MHDCons1D.mx u) + SQR (MHDCons1D.my u) + SQR (MHDCons1D.mz u).

(** The specific enthalpy [h = 1 + gamma*eps] (eq. 43) of a primitive state,
    and the value [1/(W h)] of the root variable that belongs to it. *)
Definition prim_enthalpy (w : HydPrim1D.t Real) (gam : Real) : Real :=
  1.0 + gam * (HydPrim1D.e w / HydPrim1D.d w).

Definition prim_mu (w : HydPrim1D.t Real) (gam : Real) : Real :=
  1.0 / (lorentz_u0 (HydPrim1D.vx w) (HydPrim1D.vy w) (HydPrim1D.vz w)
         * prim_enthalpy w gam).

(** The relativistic conserved state of an unmagnetized primitive state. *)
Definition sr_cons_of_prim (w : HydPrim1D.t Real) (gam : Real) : MHDCons1D.t Real :=
  cons_with_field (SingleP2C_IdealSRMHD (unmagnetized w) gam) (unmagnetized w).

End MoreKernels.

(** * The hydrodynamic time step (src/hydro/hydro_newdt.cpp) *)

(** [fmin] of the C library, the one operation on [Real] the time step
    needs beyond those of [RealArith]. *)
Class MinArith (Real : Type) := { fmin : Real -> Real -> Real }.

(** The enumeration [TimeEvolution] of athena.hpp; [NewTimeStep] only tests
    for [kinematic]. *)
Inductive TimeEvolution : Set := tstatic | kinematic | dynamic.

(** The cell counts and first active indices of a MeshBlock ([mb_cells]):
    the fields [NewTimeStep] and the [Hydro] constructor read.  [is_] stands
    for the field [is], a keyword here. *)
Module RegionCells.
Record t : Set := mk {
  ng : Z; nx1 : Z; nx2 : Z; nx3 : Z; is_ : Z; js : Z; ks : Z }.
End RegionCells.

(** The C++ type [int]: 32 bits, two's complement.  [wrap_int] is the value
    an arithmetic result is stored as; the four operations below are those
    of [int] operands, [/] being the truncating division. *)
Definition INT_MAX : Z := 2147483647.
Definition INT_MIN : Z := (-2147483648)%Z.

Definition wrap_int (z : Z) : Z :=
  ((z + 2147483648) mod 4294967296 - 2147483648)%Z.

Definition int_add (a b : Z) : Z := wrap_int (a + b).
Definition int_sub (a b : Z) : Z := wrap_int (a - b).
Definition int_mul (a b : Z) : Z := wrap_int (a * b).
Definition int_div (a b : Z) : Z := wrap_int (a ÷ b).

(** Lines 50-55 and 68-73: the indices [m,k,j,i] of the cell a thread of the
    flattened loop works on, in [int] arithmetic. *)
Definition cell_of_idx (nkji nji nx1 is_ js ks idx : Z) : Z * Z * Z * Z :=
  let m := int_div idx nkji in
  let k := int_div (int_sub idx (int_mul m nkji)) nji in
  let j := int_div (int_sub (int_sub idx (int_mul m nkji)) (int_mul k nji)) nx1 in
  let i := int_add
             (int_sub (int_sub (int_sub idx (int_mul m nkji)) (int_mul k nji))
                (int_mul j nx1)) is_ in
  let k := int_add k ks in
  let j := int_add j js in
  (m, k, j, i).

(** The same indices in unbounded integer arithmetic. *)
Definition cell_of_idx_exact (nkji nji nx1 is_ js ks idx : Z) : Z * Z * Z * Z :=
  let m := (idx ÷ nkji)%Z in
  let k := ((idx - m * nkji) ÷ nji)%Z in
  let j := ((idx - m * nkji - k * nji) ÷ nx1)%Z in
  let i := ((idx - m * nkji - k * nji - j * nx1) + is_)%Z in
  (m, (k + ks)%Z, (j + js)%Z, i).

(** The flattened index of a cell, the inverse of [cell_of_idx]. *)
Definition idx_of_cell (nx1 nx2 nx3 is_ js ks : Z) (c : Z * Z * Z * Z) : Z :=
  let '(m, k, j, i) := c in
  (((m * nx3 + (k - ks)) * nx2 + (j - js)) * nx1 + (i - is_))%Z.

(** The cells [NewTimeStep] loops over: the active cells of the MeshBlocks
    of the pack. *)
(** A pack whose cell counts are positive and whose loop range and cell
    indices are representable: no [int] operation of the loop wraps. *)
Definition pack_fits_int (nmb : Z) (cells : RegionCells.t) : Prop :=
  (0 < RegionCells.nx1 cells)%Z /\ (0 < RegionCells.nx2 cells)%Z /\
  (0 < RegionCells.nx3 cells)%Z /\ (0 <= nmb)%Z /\
  (RegionCells.nx3 cells * RegionCells.nx2 cells * RegionCells.nx1 cells <= INT_MAX)%Z /\
  (nmb * RegionCells.nx3 cells * RegionCells.nx2 cells * RegionCells.nx1 cells
   <= INT_MAX)%Z /\
  (0 <= RegionCells.is_ cells)%Z /\
  (RegionCells.is_ cells + RegionCells.nx1 cells <= INT_MAX)%Z /\
  (0 <= RegionCells.js cells)%Z /\
  (RegionCells.js cells + RegionCells.nx2 cells <= INT_MAX)%Z /\
  (0 <= RegionCells.ks cells)%Z /\
  (RegionCells.ks cells + RegionCells.nx3 cells <= INT_MAX)%Z.

Definition active_cell (nmb : Z) (cells : RegionCells.t) (c : Z * Z * Z * Z) : Prop :=
  let '(m, k, j, i) := c in
  (0 <= m < nmb)%Z /\
  (RegionCells.ks cells <= k < RegionCells.ks cells + RegionCells.nx3 cells)%Z /\
  (RegionCells.js cells <= j < RegionCells.js cells + RegionCells.nx2 cells)%Z /\
  (RegionCells.is_ cells <= i < RegionCells.is_ cells + RegionCells.nx1 cells)%Z.

Section NewTimeStep.

Context {Real : Type} {RA : RealArith Real} {MA : MinArith Real}.

Local Open Scope real_scope.

(** The variable indices [IDN], [IVX], [IVY], [IVZ], [IPR] of athena.hpp
    and the method [eos.SoundSpeed(p, d)] of the EOS are declared outside
    this file; the time step is defined for any choice of them. *)
Variables (IDN IVX IVY IVZ IPR : Z).
Variable SoundSpeed : Real -> Real -> Real.

(** The value a [Kokkos::Min] reduction starts from. *)
Variable min_identity : Real.

(** [std::min(a, b)]: [b] when [b < a], else [a]. *)
Definition std_min (a b : Real) : Real := if b <? a then b else a.

(** [Kokkos::parallel_reduce] over [0 <= idx < n] with three [Kokkos::Min]
    reducers, read sequentially: the running minima start from the identity
    and the body updates them at every index. *)
Definition parallel_reduce_min3 (n : Z)
    (body : Z -> Real * Real * Real -> Real * Real * Real) : Real * Real * Real :=
  List.fold_left (fun acc idx => body idx acc)
    (List.map Z.of_nat (List.seq 0 (Z.to_nat n)))
    (min_identity, min_identity, min_identity).

(** The cell-centered primitive variables [w0(m,n,k,j,i)] and the MeshBlock
    sizes [size(m,n)] (entries 6, 7, 8: the cell widths). *)
Definition PrimArray : Type := Z -> Z -> Z -> Z -> Z -> Real.
Definition SizeArray : Type := Z -> Z -> Real.

(** Lines 57-59: the crossing times of a cell at the flow speed. *)
Definition kinematic_dt (w0_ : PrimArray) (size : SizeArray) (n d : Z)
    (c : Z * Z * Z * Z) : Real :=
  let '(m, k, j, i) := c in
  size m d / fabs (w0_ m n k j i).

(** Lines 75-78: the crossing times of a cell at the flow speed plus the
    sound speed. *)
Definition dynamic_dt (w0_ : PrimArray) (size : SizeArray) (n d : Z)
    (c : Z * Z * Z * Z) : Real :=
  let '(m, k, j, i) := c in
  let cs := SoundSpeed (w0_ m IPR k j i) (w0_ m IDN k j i) in
  size m d / (fabs (w0_ m n k j i) + cs).

(** [Hydro::NewTimeStep]: the new value of the member [dtnew].  The function
    returns [TaskStatus::complete] on every path.  The three reductions write
    their results over the initial values of [dt1], [dt2], [dt3]; the loop
    range and the strides are [int] products. *)
Definition NewTimeStep (nstages : Z) (time_evolution : TimeEvolution)
    (cells : RegionCells.t) (nmb_thispack : Z) (nx2gt1 nx3gt1 : bool)
    (w0 : PrimArray) (size : SizeArray) (stage : Z) (dtnew : Real) : Real :=
  if negb (stage =? nstages)%Z then dtnew   (* only execute last stage *)
  else
    let is_ := RegionCells.is_ cells in
    let nx1 := RegionCells.nx1 cells in
    let js := RegionCells.js cells in
    let nx2 := RegionCells.nx2 cells in
    let ks := RegionCells.ks cells in
    let nx3 := RegionCells.nx3 cells in
    let nmkji := int_mul (int_mul (int_mul nmb_thispack nx3) nx2) nx1 in
    let nkji := int_mul (int_mul nx3 nx2) nx1 in
    let nji := int_mul nx2 nx1 in
    let '(dt1, dt2, dt3) :=
      match time_evolution with
      | kinematic =>
        (* find smallest (dx/v) in each direction for advection problems *)
        parallel_reduce_min3 nmkji (fun idx '(min_dt1, min_dt2, min_dt3) =>
          let c := cell_of_idx nkji nji nx1 is_ js ks idx in
          (fmin (kinematic_dt w0 size IVX 6 c) min_dt1,
           fmin (kinematic_dt w0 size IVY 7 c) min_dt2,
           fmin (kinematic_dt w0 size IVZ 8 c) min_dt3))
      | _ =>
        (* find smallest dx/(v +/- C) in each direction for hydrodynamic problems *)
        parallel_reduce_min3 nmkji (fun idx '(min_dt1, min_dt2, min_dt3) =>
          let c := cell_of_idx nkji nji nx1 is_ js ks idx in
          (fmin (dynamic_dt w0 size IVX 6 c) min_dt1,
           fmin (dynamic_dt w0 size IVY 7 c) min_dt2,
           fmin (dynamic_dt w0 size IVZ 8 c) min_dt3))
      end in
    (* compute minimum of dt1/dt2/dt3 for 1D/2D/3D problems *)
    let dtnew := dt1 in
    let dtnew := if nx2gt1 then std_min dtnew dt2 else dtnew in
    let dtnew := if nx3gt1 then std_min dtnew dt3 else dtnew in
    dtnew.

(** The crossing time of a cell in the direction of the velocity component
    [n] and of the cell width [d], as the reduction selected by
    [time_evolution] computes it, and its denominator. *)
Definition cell_dt (time_evolution : TimeEvolution) (w0 : PrimArray)
    (size : SizeArray) (n d : Z) (c : Z * Z * Z * Z) : Real :=
  match time_evolution with
  | kinematic => kinematic_dt w0 size n d c
  | _ => dynamic_dt w0 size n d c
  end.

Definition cell_speed (time_evolution : TimeEvolution) (w0 : PrimArray)
    (n : Z) (c : Z * Z * Z * Z) : Real :=
  let '(m, k, j, i) := c in
  match time_evolution with
  | kinematic => fabs (w0 m n k j i)
  | _ => fabs (w0 m n k j i) + SoundSpeed (w0 m IPR k j i) (w0 m IDN k j i)
  end.

End NewTimeStep.

#[export] Instance R_min : MinArith R := {| fmin := Rmin |}.

(** [fmin] of the C library in binary64: a NaN argument is ignored. *)
Definition float_fmin (a b : PrimFloat.float) : PrimFloat.float :=
  if PrimFloat.is_nan a then b
  else if PrimFloat.is_nan b then a
  else if PrimFloat.ltb b a then b else a.

#[export] Instance float_min : MinArith PrimFloat.float := {| fmin := float_fmin |}.

(** * Construction of the hydrodynamics module (src/hydro/hydro.cpp) *)

(** The enumerations of hydro.hpp, with the enumerators the constructor
    assigns. *)
Module ReconstructionMethod.
Inductive t : Set := dc | plm | ppm | wenoz.
End ReconstructionMethod.

Module Hydro_RSolver.
Inductive t : Set :=
  advect | llf | hlle | hllc | llf_sr | hlle_sr | hllc_sr | hlle_gr.
End Hydro_RSolver.

(** The equation-of-state classes the constructor instantiates. *)
Inductive HydroEOS : Set := AdiabaticHydroSR | AdiabaticHydro | IsothermalHydro.

Section HydroConstructor.

Import String.
Local Open Scope string_scope.
Local Open Scope Z_scope.

(** What the constructor reads from the input file.  A parameter read by a
    [GetOrAdd...] call may be absent, its default is the one written in the
    call; a parameter read by [GetString] has no default (its absence is an
    error raised inside [ParameterInput], outside this file), so the value
    read is given. *)
Record HydroInput : Set := mkHydroInput {
  in_special_rel : option bool;      (* <hydro>/special_rel *)
  in_general_rel : option bool;      (* <hydro>/general_rel *)
  in_eos : string;                   (* <hydro>/eos *)
  in_nscalars : option Z;            (* <hydro>/nscalars *)
  in_viscosity : bool;               (* does <hydro>/viscosity exist *)
  in_evolution : string;             (* <time>/evolution *)
  in_reconstruct : option string;    (* <hydro>/reconstruct *)
  in_rsolver : string                (* <hydro>/rsolver *)
}.

Definition GetOrAdd {A : Type} (v : option A) (def : A) : A :=
  match v with Some x => x | None => def end.

(** The fatal errors of the constructor, by the message printed before
    [std::exit(EXIT_FAILURE)]. *)
Inductive FatalError : Set :=
| both_SR_and_GR               (* Cannot specify both SR and GR at same time *)
| isothermal_with_SR_or_GR     (* <hydro>/eos = isothermal cannot be used with SR/GR *)
| eos_not_implemented (eqn_of_state : string)
| ppm_needs_3_ghost_zones (ng : Z)
| wenoz_needs_3_ghost_zones (ng : Z)
| recon_not_implemented (xorder : string)
| no_advect_with_dynamic (rsolver : string)
    (* cannot be used with hydrodynamic problems *)
| only_advect_with_non_dynamic (rsolver : string)
    (* cannot be used with non-hydrodynamic problems *)
| no_llf_with_GR
| no_hllc_with_GR
| no_hllc_with_isothermal
| rsolver_not_implemented (rsolver : string).

(** The extents of a five-dimensional array, outermost first. *)
Definition Extent : Set := (Z * Z * Z * Z * Z)%type.

(** The members the constructor sets.  [pcoord] and [pvisc] tell whether the
    object is constructed or the pointer is null; the reconstruction method
    and the Riemann solver are [None] when the constructor does not assign
    them; the extents are those of the last [Kokkos::realloc] of each array,
    [(1,1,1,1,1)] from the member initializers when there is none. *)
Record Hydro : Set := mkHydro {
  is_special_relativistic : bool;
  is_general_relativistic : bool;
  peos : HydroEOS;
  nhydro : Z;
  nscalars : Z;
  pcoord : bool;
  pvisc : bool;
  u0_extent : Extent;
  w0_extent : Extent;
  bval_nvar : Z;
  recon_method_ : option ReconstructionMethod.t;
  rsolver_method_ : option Hydro_RSolver.t;
  u1_extent : Extent;
  uflx_extent : Extent
}.

(** Exit with a fatal error, or go on: the error monad of the constructor. *)
Definition Ctor (A : Type) : Type := (FatalError + A)%type.
Definition fatal {A : Type} (e : FatalError) : Ctor A := inl e.
Definition ret {A : Type} (x : A) : Ctor A := inr x.
Definition bind {A B : Type} (m : Ctor A) (f : A -> Ctor B) : Ctor B :=
  match m with inl e => inl e | inr x => f x end.

Local Notation "x <- m ;; k" := (bind m (fun x => k))
  (at level 61, m at next level, right associativity).

(** [peos->eos_data.is_adiabatic], set by the constructors of the EOS
    classes, outside this file. *)
Variable is_adiabatic : HydroEOS -> bool.

(** Lines 43-71: construct the EOS object; returns it with [nhydro]. *)
Definition select_eos (eqn_of_state : string) (is_sr is_gr : bool)
    : Ctor (HydroEOS * Z) :=
  if (eqn_of_state =? "adiabatic")%string then
    ret (if is_sr then AdiabaticHydroSR else AdiabaticHydro, 5)
  else if (eqn_of_state =? "isothermal")%string then
    if is_sr || is_gr then fatal isothermal_with_SR_or_GR
    else ret (IsothermalHydro, 4)
  else fatal (eos_not_implemented eqn_of_state).

(** Lines 114-147: select reconstruction method (default PLM). *)
Definition select_reconstruction (xorder : string) (ng : Z)
    : Ctor ReconstructionMethod.t :=
  if (xorder =? "dc")%string then ret ReconstructionMethod.dc
  else if (xorder =? "plm")%string then ret ReconstructionMethod.plm
  else if (xorder =? "ppm")%string then
    if ng <? 3 then fatal (ppm_needs_3_ghost_zones ng)
    else ret ReconstructionMethod.ppm
  else if (xorder =? "wenoz")%string then
    if ng <? 3 then fatal (wenoz_needs_3_ghost_zones ng)
    else ret ReconstructionMethod.wenoz
  else fatal (recon_not_implemented xorder).

(** Lines 149-222: select Riemann solver (no default), testing for
    compatibility of options. *)
Definition select_rsolver (rsolver evolution_t : string) (is_sr is_gr : bool)
    (eos : HydroEOS) : Ctor Hydro_RSolver.t :=
  if (rsolver =? "advect")%string then
    if (evolution_t =? "dynamic")%string then fatal (no_advect_with_dynamic rsolver)
    else ret Hydro_RSolver.advect
  else if negb (evolution_t =? "dynamic")%string then
    fatal (only_advect_with_non_dynamic rsolver)
  else if (rsolver =? "llf")%string then
    if is_sr then ret Hydro_RSolver.llf_sr
    else if is_gr then fatal no_llf_with_GR
    else ret Hydro_RSolver.llf
  else if (rsolver =? "hlle")%string then
    if is_sr then ret Hydro_RSolver.hlle_sr
    else if is_gr then ret Hydro_RSolver.hlle_gr
    else ret Hydro_RSolver.hlle
  else if (rsolver =? "hllc")%string then
    if is_adiabatic eos then
      if is_sr then ret Hydro_RSolver.hllc_sr
      else if is_gr then fatal no_hllc_with_GR
      else ret Hydro_RSolver.hllc
    else fatal no_hllc_with_isothermal
  else fatal (rsolver_not_implemented rsolver).

(** The constructor [Hydro::Hydro], for a pack of [nmb] MeshBlocks with
    cells [ncells].  The constructors of the objects it creates (EOS,
    coordinates, viscosity, source terms, boundary values) are outside this
    file and taken to return. *)
Definition Hydro_ctor (nmb : Z) (ncells : RegionCells.t) (pin : HydroInput)
    : Ctor Hydro :=
  (* (1) Start by selecting physics for this Hydro *)
  let is_sr := GetOrAdd (in_special_rel pin) false in
  let is_gr := GetOrAdd (in_general_rel pin) false in
  if is_sr && is_gr then fatal both_SR_and_GR
  else
    selected <- select_eos (in_eos pin) is_sr is_gr ;;
    let eos := fst selected in
    let nhydro_ := snd selected in
    let nscalars_ := GetOrAdd (in_nscalars pin) 0 in
    let evolution_t := in_evolution pin in
    (* (2) Now initialize memory/algorithms *)
    let ncells1 := RegionCells.nx1 ncells + 2 * RegionCells.ng ncells in
    let ncells2 := if RegionCells.nx2 ncells >? 1
                   then RegionCells.nx2 ncells + 2 * RegionCells.ng ncells else 1 in
    let ncells3 := if RegionCells.nx3 ncells >? 1
                   then RegionCells.nx3 ncells + 2 * RegionCells.ng ncells else 1 in
    let extent : Extent := (nmb, nhydro_ + nscalars_, ncells3, ncells2, ncells1) in
    let initial : Extent := (1, 1, 1, 1, 1) in
    (* for time-evolving problems, continue to construct methods, allocate arrays *)
    if negb (evolution_t =? "stationary")%string then
      recon <- select_reconstruction (GetOrAdd (in_reconstruct pin) "plm")
                 (RegionCells.ng ncells) ;;
      solver <- select_rsolver (in_rsolver pin) evolution_t is_sr is_gr eos ;;
      ret (mkHydro is_sr is_gr eos nhydro_ nscalars_ is_gr (in_viscosity pin)
             extent extent (nhydro_ + nscalars_) (Some recon) (Some solver)
             extent extent)
    else
      ret (mkHydro is_sr is_gr eos nhydro_ nscalars_ is_gr (in_viscosity pin)
             extent extent (nhydro_ + nscalars_) None None initial initial).

(** The input with other values for <hydro>/reconstruct and
    <hydro>/rsolver. *)
Definition with_methods (pin : HydroInput) (reconstruct : option string)
    (rsolver : string) : HydroInput :=
  mkHydroInput (in_special_rel pin) (in_general_rel pin) (in_eos pin)
    (in_nscalars pin) (in_viscosity pin) (in_evolution pin) reconstruct rsolver.

(** The extents the constructor gives the arrays of a pack. *)
Definition pack_extent (nmb nvar : Z) (ncells : RegionCells.t) : Extent :=
  (nmb, nvar,
   if RegionCells.nx3 ncells >? 1
   then RegionCells.nx3 ncells + 2 * RegionCells.ng ncells else 1,
   if RegionCells.nx2 ncells >? 1
   then RegionCells.nx2 ncells + 2 * RegionCells.ng ncells else 1,
   RegionCells.nx1 ncells + 2 * RegionCells.ng ncells).

End HydroConstructor.

(** An EOS flag as the class names suggest it, and two inputs: relativistic
    adiabatic hydrodynamics with the HLLC solver and the default
    reconstruction, and a stationary isothermal problem. *)
Definition is_adiabatic_by_name (eos : HydroEOS) : bool :=
  match eos with IsothermalHydro => false | _ => true end.

Section HydroInputs.

Import String.

Definition sr_hllc_input : HydroInput :=
  mkHydroInput (Some true) None "adiabatic"%string None false "dynamic"%string
    None "hllc"%string.

Definition stationary_input : HydroInput :=
  mkHydroInput None None "isothermal"%string (Some 2%Z) true "stationary"%string
    (Some "ppm"%string) "roe"%string.

(** A MeshBlock of 16 x 8 x 1 cells with two ghost zones. *)
End HydroInputs.

Definition cells_16x8 : RegionCells.t := RegionCells.mk 2 16 8 1 2 2 0.

(** * Formatted table output (src/outputs/formatted_table.cpp) *)

(** The outcome of the constructor body: the object is constructed, or the
    program exits with "Formatted table outputs can only contain 1D
    slices". *)
Inductive TableCtor : Set := table_constructed | fatal_not_1D_slice.

(** Lines 31-48: check that 1D slice specified, otherwise issue warning and
    quit.  The base-class constructor runs before and is outside this
    file. *)
Definition FormattedTableOutput_ctor (nx2gt1 nx3gt1 slice1 slice2 slice3 : bool)
    : TableCtor :=
  if nx2gt1 && (negb slice1 && negb slice2) then fatal_not_1D_slice
  else if nx3gt1 && ((negb slice2 && negb slice3) || (negb slice1 && negb slice3))
  then fatal_not_1D_slice
  else table_constructed.

Section FileName.

Import Ascii List ListNotations.
Local Open Scope Z_scope.
Local Open Scope list_scope.

(** A [std::string] or a character buffer: its characters in order. *)
Definition chars : Set := list ascii.

(** The decimal digits of a non-negative integer, most significant first;
    [fuel] bounds their number. *)
Fixpoint decimal_digits (fuel : nat) (n : Z) : list Z :=
  match fuel with
  | O => []
  | S fuel' =>
    if n <? 10 then [n] else decimal_digits fuel' (n / 10) ++ [n mod 10]
  end.

(** A number has at most as many decimal digits as binary ones. *)
Definition digits_of (n : Z) : list Z :=
  decimal_digits (S (Z.to_nat (Z.log2 n))) n.

Definition digit_char (d : Z) : ascii := ascii_of_nat (48 + Z.to_nat d).

Definition zero_pad (width : nat) (s : chars) : chars :=
  repeat "0"%char (width - length s) ++ s.

(** The conversion [%0<width>d] of [printf]: decimal, padded with zeros on
    the left to [width] characters, the sign included. *)
Definition format_0d (width : nat) (n : Z) : chars :=
  if n <? 0
  then "-"%char :: zero_pad (width - 1) (map digit_char (digits_of (- n)))
  else zero_pad width (map digit_char (digits_of n)).

(** [snprintf(buf, size, ...)] keeps the first [size - 1] characters. *)
Definition snprintf (size : nat) (formatted : chars) : chars :=
  firstn (size - 1) formatted.

(** Lines 59-68: create filename: "file_basename" + "." + "file_id" + "." +
    XXXXX + ".tab", where XXXXX = 5-digit file_number. *)
Definition file_number_field (file_number : Z) : chars :=
  snprintf 6 (format_0d 5 file_number).

Definition output_file_name (file_basename file_id : chars) (file_number : Z) : chars :=
  ((((file_basename ++ ["."%char]) ++ file_id) ++ ["."%char])
     ++ file_number_field file_number)
    ++ [".";"t";"a";"b"]%char.

(** The number a string of digits denotes. *)
Definition digits_value (l : list Z) : Z := fold_left (fun a d => 10 * a + d) l 0.

End FileName.

Section OutputCounters.

Context {Real : Type} {RA : RealArith Real}.

Local Open Scope real_scope.

(** The members of [OutputParameters] that [WriteOutputFile] updates;
    [file_number] is an [int]. *)
Record OutputCounters : Type := mkOutputCounters {
  file_number : Z;
  last_time : Real;
  out_dt : Real }.

(** Lines 168-174: increment counters, after a file has been written at
    time [time]. *)
Definition increment_counters (out_params : OutputCounters) (time : Real)
    : OutputCounters :=
  let file_number' := int_add (file_number out_params) 1 in
  let last_time' :=
    if last_time out_params <? 0.0 then time
    else last_time out_params + out_dt out_params in
  mkOutputCounters file_number' last_time' (out_dt out_params).

(** The counters after writing files at the given times, in order. *)
Definition write_files (out_params : OutputCounters) (times : list Real)
    : OutputCounters :=
  List.fold_left increment_counters times out_params.

End OutputCounters.

(** ** Concrete inputs for the models above *)

(** The primitive state of [warm_u], and an unmagnetized relativistic
    primitive state moving along x. *)
Definition warm_w : MHDPrim1D.t R :=
  MHDPrim1D.mk 2%R (1 / 2)%R 0%R 0%R (9 / 4)%R 1%R 0%R 0%R.

(** A magnetized fluid at rest. *)
Definition resting_w : MHDPrim1D.t R :=
  MHDPrim1D.mk 1%R 0%R 0%R 0%R (3 / 2)%R 1%R 2%R 3%R.

Definition moving_w : HydPrim1D.t R :=
  HydPrim1D.mk 1%R (3 / 4)%R 0%R 0%R (3 / 2)%R.

(** A pack of four MeshBlocks of 16 x 8 x 1 cells in a uniform flow: unit
    velocity components, pressure and density, unit cell widths, unit sound
    speed; the variable indices are those of athena.hpp. *)
Definition uniform_w0 : PrimArray (Real := R) := fun _ _ _ _ _ => 1%R.
Definition unit_size : SizeArray (Real := R) := fun _ _ => 1%R.
Definition unit_sound_speed : R -> R -> R := fun _ _ => 1%R.

(** The object the constructor builds for [sr_hllc_input] on that pack. *)
Definition sr_hllc_hydro : Hydro :=
  mkHydro true false AdiabaticHydroSR 5 0 false false
    (4, 5, 1, 12, 20)%Z (4, 5, 1, 12, 20)%Z 5
    (Some ReconstructionMethod.plm) (Some Hydro_RSolver.hllc_sr)
    (4, 5, 1, 12, 20)%Z (4, 5, 1, 12, 20)%Z.

(** Output counters before the first file, with an output interval of
    [1/10]. *)
Definition fresh_counters : OutputCounters (Real := R) :=
  mkOutputCounters 0 (-1)%R (/ 10)%R.

(** * Properties *)

Section ControlFlow.

Context {Real : Type} {RA : RealArith Real}.
Local Open Scope real_scope.

(** ** Unfolding the solver loop *)

Lemma fp_loop_exit (f : Real -> Real) (iterations : Z) (st : FPState) :
  (iterations <= iter st)%Z -> fp_loop f iterations st = st.
Proof.
  intros Hge. rewrite fp_loop_equation_1.
  destruct (Z_lt_dec (iter st) iterations) as [Hlt | Hn]; [lia | reflexivity].
Qed.

Lemma fp_loop_step (f : Real -> Real) (iterations : Z) (st : FPState) :
  (iter st < iterations)%Z ->
  fp_loop f iterations st =
    let z' := (zm st * fp st - zp st * fm st) / (fp st - fm st) in
    let f' := f z' in
    if (fabs (zm st - zp st) <? tol) || (fabs f' <? tol) then
      mkFP (zm st) (zp st) (fm st) (fp st) z' (iter st) (S (nbody st))
    else if f' * fp st <? lit 0 then
      fp_loop f iterations
        (mkFP (zp st) z' (fp st) f' z' (iter st + 1) (S (nbody st)))
    else
      fp_loop f iterations
        (mkFP (zm st) z' (lit (1 # 2) * fm st) f' z' (iter st + 1) (S (nbody st))).
Proof.
  intros Hlt. rewrite fp_loop_equation_1.
  destruct (Z_lt_dec (iter st) iterations) as [Hl | Hge]; [reflexivity | lia].
Qed.

(** ** Trip counts of the solver loop *)

(** From any state, the loop enters its body at most [iterations - iter]
    more times, [iter] never decreases and never passes [iterations], and
    the number of body entries exceeds the growth of [iter] by at most the
    one entry that ended in [break]. *)
Lemma fp_loop_counts (f : Real -> Real) (iterations : Z) :
  forall (n : nat) (st : FPState),
    Z.to_nat (iterations - iter st) = n ->
    let r := fp_loop f iterations st in
    (nbody r <= nbody st + n)%nat /\
    (iter st <= iter r <= Z.max iterations (iter st))%Z /\
    (0 <= Z.of_nat (nbody r) - Z.of_nat (nbody st) - (iter r - iter st) <= 1)%Z.
Proof.
  induction n as [| n IH]; intros st Hn r; subst r.
  - rewrite fp_loop_exit by lia. lia.
  - rewrite fp_loop_step by lia. cbv zeta.
    destruct (_ || _).
    + cbn [iter nbody]. lia.
    + destruct (_ <? _).
      * match goal with |- context [fp_loop f iterations ?s] =>
          specialize (IH s) end.
        cbn [iter nbody] in IH. specialize (IH ltac:(lia)). lia.
      * match goal with |- context [fp_loop f iterations ?s] =>
          specialize (IH s) end.
        cbn [iter nbody] in IH. specialize (IH ltac:(lia)). lia.
Qed.

(** A solver phase starts from [iter = 0] with a cap of [-1] or [25]. *)
Lemma false_position_counts (f : Real -> Real) (zm0 zp0 : Real) :
  (nbody (false_position f zm0 zp0) <= 25)%nat /\
  (0 <= iter (false_position f zm0 zp0) <= 25)%Z /\
  (iter (false_position f zm0 zp0) <= Z.of_nat (nbody (false_position f zm0 zp0)))%Z.
Proof.
  unfold false_position. cbv zeta.
  set (its := if _ || _ then _ else _).
  assert (Hits : (its = -1 \/ its = 25)%Z)
    by (subst its; destruct (_ || _); auto).
  clearbody its.
  match goal with |- context [fp_loop f its ?s] =>
    pose proof (@fp_loop_counts f its _ s eq_refl) as H;
    cbv zeta in H; cbn [iter nbody] in H;
    generalize dependent (fp_loop f its s); intros r H
  end.
  destruct Hits as [Hits | Hits]; rewrite Hits in H; simpl Z.to_nat in H; lia.
Qed.

(** ** The relativistic converter, output by output *)

Lemma apply_dfloor_fst (u : MHDCons1D.t Real) (df : Real) (b : bool) :
  fst (apply_dfloor u df b) = fst (apply_dfloor u df false).
Proof. unfold apply_dfloor. destruct (_ <? _); reflexivity. Qed.

Lemma apply_dfloor_snd (u : MHDCons1D.t Real) (eos : EOS_Data.t Real) (b : bool) :
  snd (apply_dfloor u (EOS_Data.dfloor eos) b) =
    if dfloor_triggers u eos then true else b.
Proof. unfold apply_dfloor, dfloor_triggers. destruct (_ <? _); reflexivity. Qed.

Lemma apply_dfloor_e (u : MHDCons1D.t Real) (df : Real) (b : bool) :
  MHDCons1D.e (fst (apply_dfloor u df b)) = MHDCons1D.e u.
Proof. unfold apply_dfloor. destruct (_ <? _); reflexivity. Qed.

Lemma apply_efloor_sr_fst (u : MHDCons1D.t Real) (eos : EOS_Data.t Real)
    (b2 : Real) (b : bool) :
  fst (apply_efloor_sr u eos b2 b) = fst (apply_efloor_sr u eos b2 false).
Proof. unfold apply_efloor_sr. cbv zeta. destruct (_ <? _); reflexivity. Qed.

Lemma apply_efloor_sr_snd (u : MHDCons1D.t Real) (eos : EOS_Data.t Real)
    (b2 : Real) (b : bool) :
  snd (apply_efloor_sr (fst (apply_dfloor u (EOS_Data.dfloor eos) false)) eos b2 b) =
    if efloor_triggers_sr u eos b2 then true else b.
Proof.
  unfold apply_efloor_sr, efloor_triggers_sr. cbv zeta.
  rewrite apply_dfloor_e. destruct (_ <? _); reflexivity.
Qed.

Lemma primitives_from_mu_fst (u : MHDCons1D.t Real) (eos : EOS_Data.t Real)
    (rc : Recast) (mu : Real) (b : bool) :
  fst (primitives_from_mu u eos rc mu b) = fst (primitives_from_mu u eos rc mu false).
Proof. unfold primitives_from_mu. cbv zeta. destruct (_ <=? _); reflexivity. Qed.

(** The five outputs of [SingleC2P_IdealSRMHD] in terms of its stages. *)
Lemma SingleC2P_IdealSRMHD_stages (u : MHDCons1D.t Real) (eos : EOS_Data.t Real)
    (s2 b2 rpar : Real) (dfloor_used efloor_used : bool) (max_iter : Z) :
  let res := SingleC2P_IdealSRMHD u eos s2 b2 rpar dfloor_used efloor_used max_iter in
  let u' := sr_floored u eos b2 in
  let rc := sr_recast u eos s2 b2 rpar in
  let p1 := bracket_phase rc in
  let p2 := root_phase rc (MHDCons1D.d u') eos (z p1) in
  sr_u res = u' /\
  sr_w res = fst (primitives_from_mu u' eos rc (z p2) false) /\
  sr_dfloor_used res = (if dfloor_triggers u eos then true else dfloor_used) /\
  sr_efloor_used res =
    snd (primitives_from_mu u' eos rc (z p2)
           (if efloor_triggers_sr u eos b2 then true else efloor_used)) /\
  sr_max_iter res = update_max_iter (iter p2) (update_max_iter (iter p1) max_iter).
Proof.
  cbv zeta. unfold SingleC2P_IdealSRMHD, sr_recast, sr_floored.
  rewrite <- (apply_dfloor_snd u eos dfloor_used).
  rewrite <- (apply_efloor_sr_snd u eos b2 efloor_used).
  rewrite <- (apply_dfloor_fst u (EOS_Data.dfloor eos) dfloor_used).
  destruct (apply_dfloor u (EOS_Data.dfloor eos) dfloor_used) as [u1 df1].
  cbn [fst snd].
  rewrite <- (apply_efloor_sr_fst u1 eos b2 efloor_used).
  destruct (apply_efloor_sr u1 eos b2 efloor_used) as [u2 ef2].
  cbn [fst snd].
  rewrite <- (primitives_from_mu_fst _ _ _ _ ef2).
  destruct (primitives_from_mu u2 eos _ _ ef2) as [w ef3].
  cbn [fst snd sr_u sr_w sr_dfloor_used sr_efloor_used sr_max_iter].
  repeat split; reflexivity.
Qed.

(** The conserved state [SingleC2P_IdealMHD] hands back. *)
Lemma SingleC2P_IdealMHD_u (u : MHDCons1D.t Real) (eos : EOS_Data.t Real)
    (dfloor_used efloor_used : bool) :
  let u1 := fst (apply_dfloor u (EOS_Data.dfloor eos) false) in
  let efloor := EOS_Data.pfloor eos / (EOS_Data.gamma eos - 1.0) in
  c2p_u (SingleC2P_IdealMHD u eos dfloor_used efloor_used) =
    if efloor_triggers_mhd u eos
    then MHDCons1D.set_e u1 (efloor + e_kinetic u1 + e_magnetic u1)
    else u1.
Proof.
  cbv zeta. unfold SingleC2P_IdealMHD, efloor_triggers_mhd. cbv zeta.
  rewrite <- (apply_dfloor_fst u (EOS_Data.dfloor eos) dfloor_used).
  destruct (apply_dfloor u (EOS_Data.dfloor eos) dfloor_used) as [u1 df1].
  cbn [fst]. fold (e_kinetic u1). fold (e_magnetic u1).
  destruct (_ <? _); reflexivity.
Qed.

Lemma SingleC2P_IdealMHD_w_d (u : MHDCons1D.t Real) (eos : EOS_Data.t Real)
    (dfloor_used efloor_used : bool) :
  HydPrim1D.d (c2p_w (SingleC2P_IdealMHD u eos dfloor_used efloor_used)) =
    MHDCons1D.d (fst (apply_dfloor u (EOS_Data.dfloor eos) false)).
Proof.
  unfold SingleC2P_IdealMHD. cbv zeta.
  rewrite <- (apply_dfloor_fst u (EOS_Data.dfloor eos) dfloor_used).
  destruct (apply_dfloor u (EOS_Data.dfloor eos) dfloor_used) as [u1 df1].
  cbn [fst]. destruct (_ <? _); reflexivity.
Qed.

Lemma SingleC2P_IdealMHD_dfloor_used (u : MHDCons1D.t Real) (eos : EOS_Data.t Real)
    (dfloor_used efloor_used : bool) :
  c2p_dfloor_used (SingleC2P_IdealMHD u eos dfloor_used efloor_used) =
    if dfloor_triggers u eos then true else dfloor_used.
Proof.
  unfold SingleC2P_IdealMHD. cbv zeta.
  rewrite <- (apply_dfloor_snd u eos dfloor_used).
  destruct (apply_dfloor u (EOS_Data.dfloor eos) dfloor_used) as [u1 df1].
  cbn [snd]. destruct (_ <? _); reflexivity.
Qed.

Lemma apply_dfloor_d (u : MHDCons1D.t Real) (eos : EOS_Data.t Real) :
  MHDCons1D.d (fst (apply_dfloor u (EOS_Data.dfloor eos) false)) =
    if dfloor_triggers u eos then EOS_Data.dfloor eos else MHDCons1D.d u.
Proof. unfold apply_dfloor, dfloor_triggers. destruct (_ <? _); reflexivity. Qed.

Lemma sr_floored_d (u : MHDCons1D.t Real) (eos : EOS_Data.t Real) (b2 : Real) :
  MHDCons1D.d (sr_floored u eos b2) =
    if dfloor_triggers u eos then EOS_Data.dfloor eos else MHDCons1D.d u.
Proof.
  unfold sr_floored, apply_efloor_sr. cbv zeta. rewrite <- apply_dfloor_d.
  destruct (_ <? _); reflexivity.
Qed.

Lemma sr_floored_e (u : MHDCons1D.t Real) (eos : EOS_Data.t Real) (b2 : Real) :
  MHDCons1D.e (sr_floored u eos b2) =
    if efloor_triggers_sr u eos b2
    then EOS_Data.pfloor eos / (EOS_Data.gamma eos - 1.0) + 0.5 * b2
    else MHDCons1D.e u.
Proof.
  unfold sr_floored, apply_efloor_sr, efloor_triggers_sr. cbv zeta.
  rewrite apply_dfloor_e. destruct (_ <? _); cbn [fst MHDCons1D.set_e MHDCons1D.e].
  - reflexivity.
  - apply apply_dfloor_e.
Qed.

(** Neither entry floor touches the momentum or the field. *)
Lemma apply_dfloor_frame (u : MHDCons1D.t Real) (df : Real) :
  let u1 := fst (apply_dfloor u df false) in
  MHDCons1D.mx u1 = MHDCons1D.mx u /\ MHDCons1D.my u1 = MHDCons1D.my u /\
  MHDCons1D.mz u1 = MHDCons1D.mz u /\ MHDCons1D.bx u1 = MHDCons1D.bx u /\
  MHDCons1D.by_ u1 = MHDCons1D.by_ u /\ MHDCons1D.bz u1 = MHDCons1D.bz u.
Proof.
  cbv zeta. unfold apply_dfloor. destruct (_ <? _); cbn; repeat split; reflexivity.
Qed.

Lemma sr_floored_frame (u : MHDCons1D.t Real) (eos : EOS_Data.t Real) (b2 : Real) :
  let u2 := sr_floored u eos b2 in
  MHDCons1D.mx u2 = MHDCons1D.mx u /\ MHDCons1D.my u2 = MHDCons1D.my u /\
  MHDCons1D.mz u2 = MHDCons1D.mz u /\ MHDCons1D.bx u2 = MHDCons1D.bx u /\
  MHDCons1D.by_ u2 = MHDCons1D.by_ u /\ MHDCons1D.bz u2 = MHDCons1D.bz u.
Proof.
  cbv zeta. unfold sr_floored, apply_efloor_sr. cbv zeta.
  destruct (_ <? _); cbn [fst]; [| apply apply_dfloor_frame].
  unfold MHDCons1D.set_e. cbn. apply apply_dfloor_frame.
Qed.

Lemma cons_eta (u v : MHDCons1D.t Real) :
  MHDCons1D.d u = MHDCons1D.d v -> MHDCons1D.mx u = MHDCons1D.mx v ->
  MHDCons1D.my u = MHDCons1D.my v -> MHDCons1D.mz u = MHDCons1D.mz v ->
  MHDCons1D.e u = MHDCons1D.e v -> MHDCons1D.bx u = MHDCons1D.bx v ->
  MHDCons1D.by_ u = MHDCons1D.by_ v -> MHDCons1D.bz u = MHDCons1D.bz v ->
  u = v.
Proof. destruct u, v; cbn; intros; subst; reflexivity. Qed.

Lemma SingleC2P_IdealMHD_efloor (u : MHDCons1D.t Real) (eos : EOS_Data.t Real)
    (dfloor_used efloor_used : bool) :
  let res := SingleC2P_IdealMHD u eos dfloor_used efloor_used in
  let u1 := fst (apply_dfloor u (EOS_Data.dfloor eos) false) in
  c2p_efloor_used res = (if efloor_triggers_mhd u eos then true else efloor_used) /\
  HydPrim1D.e (c2p_w res) =
    (if efloor_triggers_mhd u eos
     then EOS_Data.pfloor eos / (EOS_Data.gamma eos - 1.0)
     else MHDCons1D.e u1 - e_kinetic u1 - e_magnetic u1).
Proof.
  cbv zeta. unfold SingleC2P_IdealMHD, efloor_triggers_mhd. cbv zeta.
  rewrite <- (apply_dfloor_fst u (EOS_Data.dfloor eos) dfloor_used).
  destruct (apply_dfloor u (EOS_Data.dfloor eos) dfloor_used) as [u1 df1].
  cbn [fst]. fold (e_kinetic u1). fold (e_magnetic u1).
  destruct (_ <? _); split; reflexivity.
Qed.

Lemma primitives_from_mu_flag_raised (u : MHDCons1D.t Real) (eos : EOS_Data.t Real)
    (rc : Recast) (mu : Real) :
  snd (primitives_from_mu u eos rc mu true) = true.
Proof. unfold primitives_from_mu. cbv zeta. destruct (_ <=? _); reflexivity. Qed.

(** The master functions and the final step in terms of the quantities of
    eq. 26-38. *)
Lemma Equation49_kastaun (mu b2 rp r q : Real) :
  Equation49 mu b2 rp r q = mu * sqrt (1.0 + kastaun_rbar mu b2 rp r) - 1.0.
Proof. reflexivity. Qed.

Lemma Equation44_kastaun (mu b2 rpar r q u_d : Real) (eos : EOS_Data.t Real) :
  Equation44 mu b2 rpar r q u_d eos =
    master_of_eps mu b2 rpar r eos
      (fmax (eps_floor_at mu b2 rpar r u_d eos) (kastaun_eps mu b2 rpar r q)).
Proof. reflexivity. Qed.

Lemma primitives_from_mu_kastaun (u : MHDCons1D.t Real) (eos : EOS_Data.t Real)
    (rc : Recast) (mu : Real) (efloor_used : bool) :
  let lor := kastaun_lorentz mu (rc_b2 rc) (rc_rpar rc) (rc_r rc) in
  let eps := kastaun_eps mu (rc_b2 rc) (rc_rpar rc) (rc_r rc) (rc_q rc) in
  let epsmin := eps_floor_at mu (rc_b2 rc) (rc_rpar rc) (rc_r rc) (MHDCons1D.d u) eos in
  let floored := eps <=? epsmin in
  let eps' := if floored then epsmin else eps in
  let h := 1.0 + EOS_Data.gamma eos * eps' in
  let conv := lor / (h * lor + rc_b2 rc) in
  primitives_from_mu u eos rc mu efloor_used =
    (HydPrim1D.mk (MHDCons1D.d u / lor)
       (conv * (MHDCons1D.mx u / MHDCons1D.d u + rc_bx rc * rc_rpar rc / (h * lor)))
       (conv * (MHDCons1D.my u / MHDCons1D.d u + rc_by rc * rc_rpar rc / (h * lor)))
       (conv * (MHDCons1D.mz u / MHDCons1D.d u + rc_bz rc * rc_rpar rc / (h * lor)))
       (MHDCons1D.d u / lor * eps'),
     if floored then true else efloor_used).
Proof.
  cbv zeta. unfold primitives_from_mu. cbv zeta.
  change (EOS_Data.pfloor eos /
          (MHDCons1D.d u / kastaun_lorentz mu (rc_b2 rc) (rc_rpar rc) (rc_r rc) *
           (EOS_Data.gamma eos - 1.0)))
    with (eps_floor_at mu (rc_b2 rc) (rc_rpar rc) (rc_r rc) (MHDCons1D.d u) eos).
  change (kastaun_lorentz mu (rc_b2 rc) (rc_rpar rc) (rc_r rc) *
          (kastaun_qbar mu (rc_b2 rc) (rc_rpar rc) (rc_r rc) (rc_q rc) -
           mu * kastaun_rbar mu (rc_b2 rc) (rc_rpar rc) (rc_r rc)) +
          kastaun_z2 mu (rc_b2 rc) (rc_rpar rc) (rc_r rc) /
          (kastaun_lorentz mu (rc_b2 rc) (rc_rpar rc) (rc_r rc) + 1.0))
    with (kastaun_eps mu (rc_b2 rc) (rc_rpar rc) (rc_r rc) (rc_q rc)).
  destruct (_ <=? _); reflexivity.
Qed.

(** ** Properties that hold for every interpretation of [Real] *)

(** C1, as amended: when the energy floor of [SingleC2P_IdealMHD] triggers,
    the flag is raised, the internal energy is the floor [pfloor/(gamma-1)]
    and the conserved energy handed back equals that floored internal energy
    plus the kinetic plus the magnetic energy, term for term.  In
    [SingleC2P_IdealSRMHD] the entry-time floor sets the conserved energy to
    [pfloor/(gamma-1) + 0.5*b2], without a kinetic term, and raises the flag;
    when it does not trigger the conserved energy is the caller's, whatever
    the floor on [eps] of the final step does.  That second site, when its
    test [eps <= epsmin] holds at the final [mu], raises the flag and returns
    the internal energy [w.d * epsmin]; when the test fails the internal
    energy is [w.d * eps] and the flag is what the entry-time floor left. *)
Theorem energy_floor_correction (u : MHDCons1D.t Real) (eos : EOS_Data.t Real)
    (s2 b2 rpar : Real) (dfloor_used efloor_used : bool) (max_iter : Z) :
  let res := SingleC2P_IdealMHD u eos dfloor_used efloor_used in
  let sres := SingleC2P_IdealSRMHD u eos s2 b2 rpar dfloor_used efloor_used max_iter in
  let rc := sr_recast u eos s2 b2 rpar in
  let mu := sr_mu u eos s2 b2 rpar in
  let eps := kastaun_eps mu (rc_b2 rc) (rc_rpar rc) (rc_r rc) (rc_q rc) in
  let epsmin := eps_floor_at mu (rc_b2 rc) (rc_rpar rc) (rc_r rc)
                  (MHDCons1D.d (sr_floored u eos b2)) eos in
  (efloor_triggers_mhd u eos = true ->
     c2p_efloor_used res = true /\
     HydPrim1D.e (c2p_w res) = EOS_Data.pfloor eos / (EOS_Data.gamma eos - 1.0) /\
     MHDCons1D.e (c2p_u res) =
       HydPrim1D.e (c2p_w res) + e_kinetic (c2p_u res) + e_magnetic (c2p_u res)) /\
  (efloor_triggers_sr u eos b2 = true ->
     MHDCons1D.e (sr_u sres) =
       EOS_Data.pfloor eos / (EOS_Data.gamma eos - 1.0) + 0.5 * b2 /\
     sr_efloor_used sres = true) /\
  (efloor_triggers_sr u eos b2 = false ->
     MHDCons1D.e (sr_u sres) = MHDCons1D.e u) /\
  (eps_floor_triggers_sr u eos s2 b2 rpar = true ->
     sr_efloor_used sres = true /\
     HydPrim1D.e (sr_w sres) = HydPrim1D.d (sr_w sres) * epsmin) /\
  (eps_floor_triggers_sr u eos s2 b2 rpar = false ->
     sr_efloor_used sres = (if efloor_triggers_sr u eos b2 then true else efloor_used) /\
     HydPrim1D.e (sr_w sres) = HydPrim1D.d (sr_w sres) * eps).
Proof.
  intros res sres rc mu eps epsmin.
  destruct (SingleC2P_IdealSRMHD_stages u eos s2 b2 rpar dfloor_used efloor_used max_iter)
    as (Hu & Hw & _ & He & _).
  fold sres in Hu, Hw, He.
  change (sr_w sres = fst (primitives_from_mu (sr_floored u eos b2) eos rc mu false))
    in Hw.
  change (sr_efloor_used sres =
          snd (primitives_from_mu (sr_floored u eos b2) eos rc mu
                 (if efloor_triggers_sr u eos b2 then true else efloor_used))) in He.
  destruct (SingleC2P_IdealMHD_efloor u eos dfloor_used efloor_used) as [Hf Hwm].
  pose proof (SingleC2P_IdealMHD_u u eos dfloor_used efloor_used) as Hum.
  cbv zeta in Hum. fold res in Hf, Hwm, Hum.
  assert (Ht : eps_floor_triggers_sr u eos s2 b2 rpar = (eps <=? epsmin)) by reflexivity.
  rewrite primitives_from_mu_kastaun in Hw, He. cbv zeta in Hw, He.
  fold eps epsmin in Hw, He. rewrite <- Ht in Hw, He. cbn [fst snd] in Hw, He.
  split; [| split; [| split; [| split]]].
  - rewrite Hf, Hwm, Hum. intros ->. repeat split; reflexivity.
  - rewrite Hu, He, sr_floored_e. intros ->. split; [reflexivity |].
    destruct (eps_floor_triggers_sr u eos s2 b2 rpar); reflexivity.
  - rewrite Hu, sr_floored_e. intros ->. reflexivity.
  - intros E. rewrite E in Hw, He. rewrite Hw, He.
    cbn [HydPrim1D.e HydPrim1D.d]. split; reflexivity.
  - intros E. rewrite E in Hw, He. rewrite Hw, He.
    cbn [HydPrim1D.e HydPrim1D.d]. split; reflexivity.
Qed.

(** C4: for every input of [SingleC2P_IdealSRMHD], whatever the arithmetic,
    the bracket search on [Equation49] and the root refinement on
    [Equation44] each enter their loop body at most 25 times, at most 50
    times together; the counter [iter] each loop leaves is between 0 and 25,
    so the reported [max_iter] never exceeds the larger of its old value and
    25.  Both loops are total functions: each call strictly decreases
    [iterations - iter]. *)
Theorem solver_iteration_bound (u : MHDCons1D.t Real) (eos : EOS_Data.t Real)
    (s2 b2 rpar : Real) (dfloor_used efloor_used : bool) (max_iter : Z) :
  let rc := sr_recast u eos s2 b2 rpar in
  let p1 := bracket_phase rc in
  let p2 := root_phase rc (MHDCons1D.d (sr_floored u eos b2)) eos (z p1) in
  (nbody p1 <= 25)%nat /\ (nbody p2 <= 25)%nat /\
  (nbody p1 + nbody p2 <= 50)%nat /\
  (0 <= iter p1 <= 25)%Z /\ (0 <= iter p2 <= 25)%Z /\
  (sr_max_iter (SingleC2P_IdealSRMHD u eos s2 b2 rpar dfloor_used efloor_used max_iter)
     <= Z.max max_iter 25)%Z.
Proof.
  intros rc p1 p2.
  destruct (SingleC2P_IdealSRMHD_stages u eos s2 b2 rpar dfloor_used efloor_used max_iter)
    as (_ & _ & _ & _ & Hmax).
  fold rc p1 p2 in Hmax. rewrite Hmax. clear Hmax.
  pose proof (false_position_counts
    (fun mu => Equation49 mu (rc_b2 rc) (rc_rpar rc) (rc_r rc) (rc_q rc))
    (lit 0) (lit 1)) as H1.
  pose proof (false_position_counts
    (fun mu => Equation44 mu (rc_b2 rc) (rc_rpar rc) (rc_r rc) (rc_q rc)
                 (MHDCons1D.d (sr_floored u eos b2)) eos)
    (lit 0) (z p1)) as H2.
  fold (bracket_phase rc) in H1. fold p1 in H1.
  fold (root_phase rc (MHDCons1D.d (sr_floored u eos b2)) eos (z p1)) in H2.
  fold p2 in H2.
  unfold update_max_iter.
  destruct (iter p1 >? max_iter)%Z eqn:E1;
  destruct (iter p2 >? _)%Z eqn:E2; lia.
Qed.

(** C8: when the input density is below the floor ([u.d < dfloor] as the
    code tests it), both converters hand back a conserved density equal to
    [dfloor] and a raised density-floor flag, and the non-relativistic
    primitive density equals [dfloor]; when the test fails, the conserved
    density and the flag are the caller's. *)
Theorem density_floor_applied (u : MHDCons1D.t Real) (eos : EOS_Data.t Real)
    (s2 b2 rpar : Real) (dfloor_used efloor_used : bool) (max_iter : Z) :
  let res := SingleC2P_IdealMHD u eos dfloor_used efloor_used in
  let sres := SingleC2P_IdealSRMHD u eos s2 b2 rpar dfloor_used efloor_used max_iter in
  (dfloor_triggers u eos = true ->
     MHDCons1D.d (c2p_u res) = EOS_Data.dfloor eos /\
     c2p_dfloor_used res = true /\
     HydPrim1D.d (c2p_w res) = EOS_Data.dfloor eos /\
     MHDCons1D.d (sr_u sres) = EOS_Data.dfloor eos /\
     sr_dfloor_used sres = true) /\
  (dfloor_triggers u eos = false ->
     MHDCons1D.d (c2p_u res) = MHDCons1D.d u /\
     c2p_dfloor_used res = dfloor_used /\
     HydPrim1D.d (c2p_w res) = MHDCons1D.d u /\
     MHDCons1D.d (sr_u sres) = MHDCons1D.d u /\
     sr_dfloor_used sres = dfloor_used).
Proof.
  intros res sres.
  destruct (SingleC2P_IdealSRMHD_stages u eos s2 b2 rpar dfloor_used efloor_used max_iter)
    as (Hu & _ & Hd & _ & _).
  fold sres in Hu, Hd. rewrite Hu, Hd, sr_floored_d.
  subst res.
  rewrite SingleC2P_IdealMHD_w_d, SingleC2P_IdealMHD_dfloor_used, apply_dfloor_d.
  assert (Hud : MHDCons1D.d (c2p_u (SingleC2P_IdealMHD u eos dfloor_used efloor_used))
                = if dfloor_triggers u eos then EOS_Data.dfloor eos else MHDCons1D.d u).
  { pose proof (SingleC2P_IdealMHD_u u eos dfloor_used efloor_used) as H.
    cbv zeta in H. rewrite H, <- apply_dfloor_d.
    destruct (efloor_triggers_mhd u eos); reflexivity. }
  rewrite Hud.
  split; intros ->; repeat split; reflexivity.
Qed.

(** C10: both converters hand back the momentum and the magnetic field of
    the caller's conserved state untouched; the density is the caller's
    unless the density floor triggers, the energy is the caller's unless the
    energy floor of [SingleC2P_IdealMHD], respectively the entry-time energy
    floor of [SingleC2P_IdealSRMHD], triggers; when no floor triggers the
    whole conserved state is the caller's. *)
Theorem conserved_state_frame (u : MHDCons1D.t Real) (eos : EOS_Data.t Real)
    (s2 b2 rpar : Real) (dfloor_used efloor_used : bool) (max_iter : Z) :
  let u' := c2p_u (SingleC2P_IdealMHD u eos dfloor_used efloor_used) in
  let su' := sr_u (SingleC2P_IdealSRMHD u eos s2 b2 rpar dfloor_used efloor_used max_iter) in
  (MHDCons1D.mx u' = MHDCons1D.mx u /\ MHDCons1D.my u' = MHDCons1D.my u /\
   MHDCons1D.mz u' = MHDCons1D.mz u /\ MHDCons1D.bx u' = MHDCons1D.bx u /\
   MHDCons1D.by_ u' = MHDCons1D.by_ u /\ MHDCons1D.bz u' = MHDCons1D.bz u) /\
  (MHDCons1D.mx su' = MHDCons1D.mx u /\ MHDCons1D.my su' = MHDCons1D.my u /\
   MHDCons1D.mz su' = MHDCons1D.mz u /\ MHDCons1D.bx su' = MHDCons1D.bx u /\
   MHDCons1D.by_ su' = MHDCons1D.by_ u /\ MHDCons1D.bz su' = MHDCons1D.bz u) /\
  (dfloor_triggers u eos = false ->
     MHDCons1D.d u' = MHDCons1D.d u /\ MHDCons1D.d su' = MHDCons1D.d u) /\
  (efloor_triggers_mhd u eos = false -> MHDCons1D.e u' = MHDCons1D.e u) /\
  (efloor_triggers_sr u eos b2 = false -> MHDCons1D.e su' = MHDCons1D.e u) /\
  (dfloor_triggers u eos = false -> efloor_triggers_mhd u eos = false -> u' = u) /\
  (dfloor_triggers u eos = false -> efloor_triggers_sr u eos b2 = false -> su' = u).
Proof.
  intros u' su'.
  destruct (SingleC2P_IdealSRMHD_stages u eos s2 b2 rpar dfloor_used efloor_used max_iter)
    as (Hsu & _).
  fold su' in Hsu.
  pose proof (SingleC2P_IdealMHD_u u eos dfloor_used efloor_used) as Hu.
  cbv zeta in Hu. fold u' in Hu.
  pose proof (apply_dfloor_frame u (EOS_Data.dfloor eos)) as Hf1. cbv zeta in Hf1.
  pose proof (sr_floored_frame u eos b2) as Hf2. cbv zeta in Hf2.
  pose proof (apply_dfloor_d u eos) as Hd1.
  pose proof (sr_floored_d u eos b2) as Hd2.
  pose proof (sr_floored_e u eos b2) as He2.
  pose proof (apply_dfloor_e u (EOS_Data.dfloor eos) false) as He1.
  rewrite <- Hsu in Hf2, Hd2, He2. clear Hsu.
  assert (Hframe :
    MHDCons1D.mx u' = MHDCons1D.mx u /\ MHDCons1D.my u' = MHDCons1D.my u /\
    MHDCons1D.mz u' = MHDCons1D.mz u /\ MHDCons1D.bx u' = MHDCons1D.bx u /\
    MHDCons1D.by_ u' = MHDCons1D.by_ u /\ MHDCons1D.bz u' = MHDCons1D.bz u).
  { rewrite Hu. destruct (efloor_triggers_mhd u eos); exact Hf1. }
  assert (Hd : dfloor_triggers u eos = false -> MHDCons1D.d u' = MHDCons1D.d u).
  { intros Ht. rewrite Ht in Hd1. rewrite Hu.
    destruct (efloor_triggers_mhd u eos); exact Hd1. }
  assert (He : efloor_triggers_mhd u eos = false -> MHDCons1D.e u' = MHDCons1D.e u).
  { intros Ht. rewrite Hu, Ht. exact He1. }
  split; [exact Hframe |]. split; [exact Hf2 |].
  split; [intros Ht; split; [auto | rewrite Hd2, Ht; reflexivity] |].
  split; [exact He |].
  split; [intros Ht; rewrite He2, Ht; reflexivity |].
  split.
  - intros Ht1 Ht2. destruct Hframe as (? & ? & ? & ? & ? & ?).
    apply cons_eta; auto.
  - intros Ht1 Ht2. destruct Hf2 as (? & ? & ? & ? & ? & ?).
    apply cons_eta; auto.
    + rewrite Hd2, Ht1. reflexivity.
    + rewrite He2, Ht2. reflexivity.
Qed.

End ControlFlow.

(** ** Properties over the real numbers *)

Section RealModel.

Local Open Scope R_scope.

Lemma Rltb_true_iff (a b : R) : Rltb a b = true <-> a < b.
Proof. unfold Rltb. destruct (Rlt_dec a b); split; intros; auto; discriminate. Qed.

Lemma Rltb_false_iff (a b : R) : Rltb a b = false <-> b <= a.
Proof.
  unfold Rltb. destruct (Rlt_dec a b); split; intros; auto; try discriminate; lra.
Qed.

Lemma Rleb_true_iff (a b : R) : Rleb a b = true <-> a <= b.
Proof. unfold Rleb. destruct (Rle_dec a b); split; intros; auto; discriminate. Qed.

Lemma Rleb_false_iff (a b : R) : Rleb a b = false <-> b < a.
Proof.
  unfold Rleb. destruct (Rle_dec a b); split; intros; auto; try discriminate; lra.
Qed.

Lemma lit_0 : Q2R 0 = 0.
Proof. unfold Q2R. simpl. lra. Qed.

Lemma lit_1 : Q2R 1 = 1.
Proof. unfold Q2R. simpl. lra. Qed.

Lemma lit_2 : Q2R 2 = 2.
Proof. unfold Q2R. simpl. lra. Qed.

Lemma lit_half : Q2R (1 # 2) = / 2.
Proof. unfold Q2R. simpl. lra. Qed.

Lemma tol_R : @tol R R_arith = / 1000000000000.
Proof. unfold tol, lit, R_arith, Q2R. simpl. lra. Qed.

Lemma tol_pos : 0 < @tol R R_arith < / 1000.
Proof. rewrite tol_R. lra. Qed.

(** Rewrite the interface operations into those of [R]. *)
Ltac to_R :=
  cbn [lit add sub neg mul div sqrt fabs fmax ltb leb R_arith] in *;
  rewrite ?lit_0, ?lit_1, ?lit_2, ?lit_half in *.

(** *** The quantities of eq. 26-38 over [R] *)

Lemma kastaun_x_R (mu b2 : R) : kastaun_x mu b2 = 1 / (1 + mu * b2).
Proof. unfold kastaun_x. to_R. reflexivity. Qed.

Lemma kastaun_rbar_R (mu b2 rpar r : R) :
  kastaun_rbar mu b2 rpar r =
    kastaun_x mu b2 * kastaun_x mu b2 * r * r
    + mu * kastaun_x mu b2 * (1 + kastaun_x mu b2) * rpar * rpar.
Proof. unfold kastaun_rbar. to_R. reflexivity. Qed.

Lemma kastaun_qbar_R (mu b2 rpar r q : R) :
  kastaun_qbar mu b2 rpar r q =
    q - / 2 * b2 - / 2 * (mu * mu * (b2 * kastaun_rbar mu b2 rpar r - rpar * rpar)).
Proof. unfold kastaun_qbar. to_R. reflexivity. Qed.

Lemma kastaun_z2_R (mu b2 rpar r : R) :
  kastaun_z2 mu b2 rpar r =
    mu * mu * kastaun_rbar mu b2 rpar r
    / Rabs (1 - mu * mu * kastaun_rbar mu b2 rpar r).
Proof. unfold kastaun_z2, SQR. to_R. reflexivity. Qed.

Lemma kastaun_lorentz_R (mu b2 rpar r : R) :
  kastaun_lorentz mu b2 rpar r = R_sqrt.sqrt (1 + kastaun_z2 mu b2 rpar r).
Proof. unfold kastaun_lorentz. to_R. reflexivity. Qed.

Lemma kastaun_eps_R (mu b2 rpar r q : R) :
  kastaun_eps mu b2 rpar r q =
    kastaun_lorentz mu b2 rpar r
      * (kastaun_qbar mu b2 rpar r q - mu * kastaun_rbar mu b2 rpar r)
    + kastaun_z2 mu b2 rpar r / (kastaun_lorentz mu b2 rpar r + 1).
Proof. unfold kastaun_eps. to_R. reflexivity. Qed.

Lemma eps_floor_at_R (mu b2 rpar r u_d : R) (eos : EOS_Data.t R) :
  eps_floor_at mu b2 rpar r u_d eos =
    EOS_Data.pfloor eos
    / (u_d / kastaun_lorentz mu b2 rpar r * (EOS_Data.gamma eos - 1)).
Proof. unfold eps_floor_at. to_R. reflexivity. Qed.

Lemma master_of_eps_R (mu b2 rpar r : R) (eos : EOS_Data.t R) (eps : R) :
  master_of_eps mu b2 rpar r eos eps =
    mu - 1 / ((1 + EOS_Data.gamma eos * eps) / kastaun_lorentz mu b2 rpar r
              + kastaun_rbar mu b2 rpar r * mu).
Proof. unfold master_of_eps. to_R. reflexivity. Qed.

Lemma Equation49_R (mu b2 rp r q : R) :
  Equation49 mu b2 rp r q = mu * R_sqrt.sqrt (1 + kastaun_rbar mu b2 rp r) - 1.
Proof. rewrite Equation49_kastaun. to_R. reflexivity. Qed.

Lemma Equation44_R (mu b2 rpar r q u_d : R) (eos : EOS_Data.t R) :
  Equation44 mu b2 rpar r q u_d eos =
    master_of_eps mu b2 rpar r eos
      (Rmax (eps_floor_at mu b2 rpar r u_d eos) (kastaun_eps mu b2 rpar r q)).
Proof. rewrite Equation44_kastaun. reflexivity. Qed.

(** The unmagnetized case [b2 = 0], [rpar = 0]. *)
Lemma kastaun_x_hydro (mu : R) : kastaun_x mu 0 = 1.
Proof. rewrite kastaun_x_R. replace (1 + mu * 0) with 1 by lra. lra. Qed.

Lemma kastaun_rbar_hydro (mu r : R) : kastaun_rbar mu 0 0 r = r * r.
Proof. rewrite kastaun_rbar_R, kastaun_x_hydro. lra. Qed.

Lemma kastaun_qbar_hydro (mu r q : R) : kastaun_qbar mu 0 0 r q = q.
Proof. rewrite kastaun_qbar_R. lra. Qed.

Lemma sqrt_of_square (x a : R) : 0 <= a -> x = a * a -> R_sqrt.sqrt x = a.
Proof. intros Ha ->. apply sqrt_square. exact Ha. Qed.

(** *** A solver phase that converges in its first iteration *)

Lemma false_position_one_step (f : R -> R) (zm0 zp0 : R) :
  let z1 := (zm0 * f zp0 - zp0 * f zm0) / (f zp0 - f zm0) in
  tol <= Rabs (zm0 - zp0) ->
  2 * tol <= Rabs (f zm0) + Rabs (f zp0) ->
  Rabs (f z1) < tol ->
  false_position f zm0 zp0 = mkFP zm0 zp0 (f zm0) (f zp0) z1 0%Z 1%nat.
Proof.
  intros z1 Hw Hf Hz.
  unfold false_position. cbv zeta. to_R.
  apply Rltb_false_iff in Hw. apply Rltb_false_iff in Hf.
  rewrite Hw, Hf. cbn [orb].
  rewrite fp_loop_step by (cbn; unfold max_iterations; lia).
  cbv zeta. cbn [zm zp fm fp iter nbody]. to_R. fold z1.
  apply Rltb_true_iff in Hz. rewrite Hz, orb_true_r. reflexivity.
Qed.

(** *** The cold moving state, step by step *)

Lemma cold_floored (e : R) : e <= 0 -> sr_floored (cold_u e) cold_eos 0 = cold_u 0.
Proof.
  intros He. unfold sr_floored, apply_dfloor, apply_efloor_sr, cold_u, cold_eos.
  cbv zeta. cbn [MHDCons1D.d EOS_Data.dfloor EOS_Data.pfloor EOS_Data.gamma]. to_R.
  replace (Rltb 1 1) with false by (symmetry; apply Rltb_false_iff; lra).
  cbn [fst MHDCons1D.e].
  replace (0 / (5 / 3 - 1) + / 2 * 0) with 0 by (unfold Rdiv; ring).
  destruct (Rltb e 0) eqn:E; cbn [fst].
  - reflexivity.
  - apply Rltb_false_iff in E. f_equal. lra.
Qed.

Lemma cold_recast : recast (cold_u 0) (9 / 16) 0 0 = cold_rc.
Proof.
  unfold recast, cold_u, cold_rc. cbv zeta.
  cbn [MHDCons1D.d MHDCons1D.e MHDCons1D.bx MHDCons1D.by_ MHDCons1D.bz]. to_R.
  rewrite sqrt_1, (sqrt_of_square (x := 9 / 16) (a := 3 / 4)) by lra.
  f_equal; lra.
Qed.

Lemma cold_Equation49 (mu q : R) : Equation49 mu 0 0 (3 / 4) q = mu * (5 / 4) - 1.
Proof.
  rewrite Equation49_R, kastaun_rbar_hydro.
  rewrite (sqrt_of_square (a := 5 / 4)) by lra. reflexivity.
Qed.

Lemma cold_bracket_phase :
  bracket_phase cold_rc = mkFP 0 1 (-1) (1 / 4) (4 / 5) 0%Z 1%nat.
Proof.
  unfold bracket_phase, cold_rc. cbn [rc_b2 rc_rpar rc_r rc_q]. to_R.
  pose proof tol_pos as Ht.
  rewrite false_position_one_step; rewrite ?cold_Equation49.
  - f_equal; lra.
  - replace (0 - 1) with (- (1)) by lra. rewrite Rabs_Ropp, Rabs_R1. lra.
  - replace (0 * (5 / 4) - 1) with (- (1)) by lra.
    rewrite Rabs_Ropp, Rabs_R1. pose proof (Rabs_pos (1 * (5 / 4) - 1)). lra.
  - replace ((0 * (1 * (5 / 4) - 1) - 1 * (0 * (5 / 4) - 1)) /
             (1 * (5 / 4) - 1 - (0 * (5 / 4) - 1)) * (5 / 4) - 1) with 0
      by (field; lra).
    rewrite Rabs_R0. lra.
Qed.

Lemma cold_z2_0 : kastaun_z2 0 0 0 (3 / 4) = 0.
Proof. rewrite kastaun_z2_R. unfold Rdiv. ring. Qed.

Lemma cold_z2 : kastaun_z2 (4 / 5) 0 0 (3 / 4) = 9 / 16.
Proof.
  rewrite kastaun_z2_R, kastaun_rbar_hydro.
  replace (1 - 4 / 5 * (4 / 5) * (3 / 4 * (3 / 4))) with (16 / 25) by lra.
  rewrite Rabs_pos_eq by lra. lra.
Qed.

Lemma cold_lorentz_0 : kastaun_lorentz 0 0 0 (3 / 4) = 1.
Proof.
  rewrite kastaun_lorentz_R, cold_z2_0. apply sqrt_of_square; lra.
Qed.

Lemma cold_lorentz : kastaun_lorentz (4 / 5) 0 0 (3 / 4) = 5 / 4.
Proof.
  rewrite kastaun_lorentz_R, cold_z2. apply sqrt_of_square; lra.
Qed.

Lemma cold_eps_0 : kastaun_eps 0 0 0 (3 / 4) 0 = 0.
Proof.
  rewrite kastaun_eps_R, cold_lorentz_0, cold_z2_0, kastaun_qbar_hydro. lra.
Qed.

Lemma cold_eps : kastaun_eps (4 / 5) 0 0 (3 / 4) 0 = - (5 / 16).
Proof.
  rewrite kastaun_eps_R, cold_lorentz, cold_z2, kastaun_qbar_hydro,
    kastaun_rbar_hydro. lra.
Qed.

Lemma cold_eps_floor (mu : R) : eps_floor_at mu 0 0 (3 / 4) 1 cold_eos = 0.
Proof. rewrite eps_floor_at_R. cbn [cold_eos EOS_Data.pfloor]. unfold Rdiv. ring. Qed.

Lemma cold_Equation44_0 : Equation44 0 0 0 (3 / 4) 0 1 cold_eos = -1.
Proof.
  rewrite Equation44_R, cold_eps_floor, cold_eps_0, Rmax_left by lra.
  rewrite master_of_eps_R, cold_lorentz_0, kastaun_rbar_hydro.
  cbn [cold_eos EOS_Data.gamma]. lra.
Qed.

Lemma cold_Equation44 : Equation44 (4 / 5) 0 0 (3 / 4) 0 1 cold_eos = 0.
Proof.
  rewrite Equation44_R, cold_eps_floor, cold_eps, Rmax_left by lra.
  rewrite master_of_eps_R, cold_lorentz, kastaun_rbar_hydro.
  cbn [cold_eos EOS_Data.gamma]. lra.
Qed.

Lemma cold_root_phase :
  root_phase cold_rc 1 cold_eos (4 / 5) = mkFP 0 (4 / 5) (-1) 0 (4 / 5) 0%Z 1%nat.
Proof.
  unfold root_phase, cold_rc. cbn [rc_b2 rc_rpar rc_r rc_q]. to_R.
  pose proof tol_pos as Ht.
  rewrite false_position_one_step; rewrite ?cold_Equation44_0, ?cold_Equation44.
  - f_equal; lra.
  - replace (0 - 4 / 5) with (- (4 / 5)) by lra.
    rewrite Rabs_Ropp, Rabs_pos_eq; lra.
  - rewrite Rabs_R0. replace (-1) with (- (1)) by lra.
    rewrite Rabs_Ropp, Rabs_R1. lra.
  - replace ((0 * 0 - 4 / 5 * -1) / (0 - -1)) with (4 / 5) by lra.
    rewrite cold_Equation44, Rabs_R0. lra.
Qed.

Lemma cold_primitives (efloor_used : bool) :
  primitives_from_mu (cold_u 0) cold_eos cold_rc (4 / 5) efloor_used =
    (HydPrim1D.mk (4 / 5) (3 / 4) 0 0 0, true).
Proof.
  pose proof (primitives_from_mu_kastaun (cold_u 0) cold_eos cold_rc (4 / 5) efloor_used)
    as H.
  cbv zeta in H. rewrite H. clear H.
  cbn [cold_rc rc_b2 rc_rpar rc_r rc_q rc_bx rc_by rc_bz cold_u
       MHDCons1D.d MHDCons1D.mx MHDCons1D.my MHDCons1D.mz].
  rewrite cold_eps_floor, cold_eps, cold_lorentz. to_R.
  replace (Rleb (- (5 / 16)) 0) with true by (symmetry; apply Rleb_true_iff; lra).
  cbn [cold_eos EOS_Data.gamma].
  f_equal. f_equal; lra.
Qed.

(** The whole conversion of the cold moving state: the conserved state is
    handed back with energy 0, the primitive density is [4/5] and the floor
    on [eps] of the final step has raised the energy-floor flag. *)
Lemma cold_conversion (e : R) (dfloor_used efloor_used : bool) (max_iter : Z) :
  e <= 0 ->
  let sres := SingleC2P_IdealSRMHD (cold_u e) cold_eos (9 / 16) 0 0
                dfloor_used efloor_used max_iter in
  sr_u sres = cold_u 0 /\
  sr_w sres = HydPrim1D.mk (4 / 5) (3 / 4) 0 0 0 /\
  sr_dfloor_used sres = dfloor_used /\
  sr_efloor_used sres = true.
Proof.
  intros He sres.
  destruct (SingleC2P_IdealSRMHD_stages (cold_u e) cold_eos (9 / 16) 0 0
              dfloor_used efloor_used max_iter) as (Hu & Hw & Hd & Hf & _).
  fold sres in Hu, Hw, Hd, Hf.
  unfold sr_recast in Hw, Hf.
  rewrite (cold_floored He) in Hu, Hw, Hf.
  rewrite cold_recast, cold_bracket_phase in Hw, Hf.
  cbn [z MHDCons1D.d cold_u] in Hw, Hf.
  rewrite cold_root_phase in Hw, Hf. cbn [z] in Hw, Hf.
  rewrite cold_primitives in Hw, Hf. cbn [fst snd] in Hw, Hf.
  repeat split; auto.
  rewrite Hd. unfold dfloor_triggers, cold_u, cold_eos.
  cbn [MHDCons1D.d EOS_Data.dfloor]. to_R.
  replace (Rltb 1 1) with false by (symmetry; apply Rltb_false_iff; lra).
  reflexivity.
Qed.

(** C2: over the reals, with valid EOS parameters, a conserved state that
    triggers neither the density floor nor the energy floor is recovered
    exactly (density, the three momentum components and the total energy) by
    [SingleP2C_IdealMHD] from the primitives [SingleC2P_IdealMHD] returns
    and the same magnetic field. *)
Theorem nonrel_round_trip (u : MHDCons1D.t R) (eos : EOS_Data.t R)
    (dfloor_used efloor_used : bool) :
  eos_valid eos ->
  dfloor_triggers u eos = false ->
  efloor_triggers_mhd u eos = false ->
  SingleP2C_IdealMHD
    (with_field (c2p_w (SingleC2P_IdealMHD u eos dfloor_used efloor_used)) u)
  = drop_field u.
Proof.
  intros (_ & Hdf & _) Hd He.
  unfold efloor_triggers_mhd in He. cbv zeta in He.
  unfold SingleC2P_IdealMHD. cbv zeta.
  unfold apply_dfloor in *. unfold dfloor_triggers in Hd.
  rewrite Hd in *. cbn [fst] in He.
  unfold e_kinetic, e_magnetic in He. cbv zeta in He. rewrite He.
  apply Rltb_false_iff in Hd.
  destruct u as [d mx my mz e bx by_ bz]. cbn in Hd.
  unfold SingleP2C_IdealMHD, with_field, drop_field, SQR.
  cbn [c2p_w HydPrim1D.d HydPrim1D.vx HydPrim1D.vy HydPrim1D.vz HydPrim1D.e
       MHDPrim1D.d MHDPrim1D.vx MHDPrim1D.vy MHDPrim1D.vz MHDPrim1D.e
       MHDPrim1D.bx MHDPrim1D.by_ MHDPrim1D.bz
       MHDCons1D.d MHDCons1D.mx MHDCons1D.my MHDCons1D.mz MHDCons1D.e
       MHDCons1D.bx MHDCons1D.by_ MHDCons1D.bz].
  to_R.
  assert (Hd0 : d <> 0) by lra.
  f_equal; field; exact Hd0.
Qed.

(** *** The static fluid, step by step *)

Lemma static_energy (p : R) : p / (5 / 3 - 1) = 3 / 2 * p.
Proof. field. Qed.

Lemma static_floored (p dfloor pfloor : R) :
  dfloor <= 1 -> pfloor <= p ->
  sr_floored (static_u p) (eos_5_3 dfloor pfloor) 0 = static_u p.
Proof.
  intros Hd Hp.
  unfold sr_floored, apply_dfloor, apply_efloor_sr, static_u, eos_5_3.
  cbv zeta. cbn [MHDCons1D.d EOS_Data.dfloor EOS_Data.pfloor EOS_Data.gamma]. to_R.
  replace (Rltb 1 dfloor) with false by (symmetry; apply Rltb_false_iff; lra).
  cbn [fst MHDCons1D.e].
  rewrite !static_energy.
  replace (Rltb (3 / 2 * p) (3 / 2 * pfloor + / 2 * 0)) with false
    by (symmetry; apply Rltb_false_iff; lra).
  reflexivity.
Qed.

Lemma static_recast (p : R) : recast (static_u p) 0 0 0 = static_rc p.
Proof.
  unfold recast, static_u, static_rc. cbv zeta.
  cbn [MHDCons1D.d MHDCons1D.e MHDCons1D.bx MHDCons1D.by_ MHDCons1D.bz]. to_R.
  rewrite sqrt_1, sqrt_0. f_equal; lra.
Qed.

Lemma static_Equation49 (mu q : R) : Equation49 mu 0 0 0 q = mu - 1.
Proof.
  rewrite Equation49_R, kastaun_rbar_hydro.
  rewrite (sqrt_of_square (a := 1)) by lra. ring.
Qed.

Lemma static_bracket_phase (p : R) :
  bracket_phase (static_rc p) = mkFP 0 1 (-1) 0 1 0%Z 1%nat.
Proof.
  unfold bracket_phase, static_rc. cbn [rc_b2 rc_rpar rc_r rc_q]. to_R.
  pose proof tol_pos as Ht.
  rewrite false_position_one_step; rewrite ?static_Equation49.
  - f_equal; lra.
  - replace (0 - 1) with (- (1)) by lra. rewrite Rabs_Ropp, Rabs_R1. lra.
  - replace (0 - 1) with (- (1)) by lra. replace (1 - 1) with 0 by lra.
    rewrite Rabs_Ropp, Rabs_R1, Rabs_R0. lra.
  - replace ((0 * (1 - 1) - 1 * (0 - 1)) / (1 - 1 - (0 - 1)) - 1) with 0 by lra.
    rewrite Rabs_R0. lra.
Qed.

Lemma static_z2 (mu : R) : kastaun_z2 mu 0 0 0 = 0.
Proof. rewrite kastaun_z2_R, kastaun_rbar_hydro. unfold Rdiv. ring. Qed.

Lemma static_lorentz (mu : R) : kastaun_lorentz mu 0 0 0 = 1.
Proof. rewrite kastaun_lorentz_R, static_z2. apply sqrt_of_square; lra. Qed.

Lemma static_eps (mu q : R) : kastaun_eps mu 0 0 0 q = q.
Proof.
  rewrite kastaun_eps_R, static_lorentz, static_z2, kastaun_qbar_hydro,
    kastaun_rbar_hydro. lra.
Qed.

Lemma static_eps_floor (mu dfloor pfloor : R) :
  eps_floor_at mu 0 0 0 1 (eos_5_3 dfloor pfloor) = 3 / 2 * pfloor.
Proof.
  rewrite eps_floor_at_R, static_lorentz.
  cbn [eos_5_3 EOS_Data.pfloor EOS_Data.gamma]. field.
Qed.

Lemma static_Equation44 (mu p dfloor pfloor : R) :
  0 <= pfloor -> pfloor <= p ->
  Equation44 mu 0 0 0 (p / (5 / 3 - 1)) 1 (eos_5_3 dfloor pfloor) =
    mu - 1 / (1 + 5 / 2 * p).
Proof.
  intros H0 Hp.
  rewrite Equation44_R, static_eps_floor, static_eps, static_energy.
  rewrite Rmax_right by lra.
  rewrite master_of_eps_R, static_lorentz, kastaun_rbar_hydro.
  cbn [eos_5_3 EOS_Data.gamma]. field. lra.
Qed.

Lemma static_root_phase (p dfloor pfloor : R) :
  0 <= pfloor -> pfloor <= p ->
  z (root_phase (static_rc p) 1 (eos_5_3 dfloor pfloor) 1) = 1 / (1 + 5 / 2 * p).
Proof.
  intros H0 Hp.
  unfold root_phase, static_rc. cbn [rc_b2 rc_rpar rc_r rc_q]. to_R.
  pose proof tol_pos as Ht.
  set (a := 1 / (1 + 5 / 2 * p)).
  assert (Ha : 0 < a <= 1).
  { assert (Hpos : 0 < a) by (unfold a; apply Rdiv_lt_0_compat; lra).
    assert (Hm : a * (1 + 5 / 2 * p) = 1) by (unfold a; field; lra).
    split; [exact Hpos | nra]. }
  rewrite false_position_one_step;
    repeat rewrite (static_Equation44 _ dfloor H0 Hp); fold a.
  - cbn [z]. field. lra.
  - replace (0 - 1) with (- (1)) by lra. rewrite Rabs_Ropp, Rabs_R1. lra.
  - replace (0 - a) with (- a) by lra.
    rewrite Rabs_Ropp, (Rabs_pos_eq a), (Rabs_pos_eq (1 - a)); lra.
  - replace ((0 * (1 - a) - 1 * (0 - a)) / (1 - a - (0 - a)) - a) with 0
      by (field; lra).
    rewrite Rabs_R0. lra.
Qed.

Lemma static_primitives (p dfloor pfloor mu : R) (efloor_used : bool) :
  0 <= pfloor -> pfloor < p ->
  primitives_from_mu (static_u p) (eos_5_3 dfloor pfloor) (static_rc p) mu
    efloor_used =
    (HydPrim1D.mk 1 0 0 0 (p / (5 / 3 - 1)), efloor_used).
Proof.
  intros H0 Hp.
  pose proof (primitives_from_mu_kastaun (static_u p) (eos_5_3 dfloor pfloor)
                (static_rc p) mu efloor_used) as H.
  cbv zeta in H. rewrite H. clear H.
  cbn [static_rc rc_b2 rc_rpar rc_r rc_q rc_bx rc_by rc_bz static_u
       MHDCons1D.d MHDCons1D.mx MHDCons1D.my MHDCons1D.mz].
  rewrite static_eps_floor, static_eps, static_lorentz, static_energy. to_R.
  replace (Rleb (3 / 2 * p) (3 / 2 * pfloor)) with false
    by (symmetry; apply Rleb_false_iff; lra).
  cbn [eos_5_3 EOS_Data.gamma].
  f_equal. f_equal; try lra; unfold Rdiv; ring.
Qed.

Lemma static_sr_w (p dfloor pfloor : R) (dfloor_used efloor_used : bool)
    (max_iter : Z) :
  dfloor <= 1 -> 0 <= pfloor -> pfloor < p ->
  sr_w (SingleC2P_IdealSRMHD (static_u p) (eos_5_3 dfloor pfloor) 0 0 0
          dfloor_used efloor_used max_iter)
  = HydPrim1D.mk 1 0 0 0 (p / (5 / 3 - 1)).
Proof.
  intros Hd H0 Hp.
  destruct (SingleC2P_IdealSRMHD_stages (static_u p) (eos_5_3 dfloor pfloor) 0 0 0
              dfloor_used efloor_used max_iter) as (_ & Hw & _).
  rewrite Hw. unfold sr_recast.
  rewrite (static_floored Hd (Rlt_le _ _ Hp)), static_recast.
  rewrite (static_primitives dfloor _ _ H0 Hp). reflexivity.
Qed.

(** C6: for the static fluid ([d = 1], no momentum, no field, [gamma = 5/3],
    conserved energy [p/(gamma-1)], the caller's invariants [s2 = b2 = rpar
    = 0]) with a density floor not above 1 and a pressure [p] above a
    non-negative pressure floor, the relativistic converter returns density
    exactly 1, velocity (0,0,0) and internal energy exactly [p/(gamma-1)];
    the conserved state and both flags are the caller's, and the solver
    ends at [mu = 1/h] with [h = 1 + gamma*p/(gamma-1)]. *)
Theorem static_fluid_conversion (p dfloor pfloor : R)
    (dfloor_used efloor_used : bool) (max_iter : Z) :
  dfloor <= 1 -> 0 <= pfloor -> pfloor < p ->
  let sres := SingleC2P_IdealSRMHD (static_u p) (eos_5_3 dfloor pfloor) 0 0 0
                dfloor_used efloor_used max_iter in
  sr_w sres = HydPrim1D.mk 1 0 0 0 (p / (5 / 3 - 1)) /\
  sr_u sres = static_u p /\
  sr_dfloor_used sres = dfloor_used /\
  sr_efloor_used sres = efloor_used /\
  sr_mu (static_u p) (eos_5_3 dfloor pfloor) 0 0 0 = 1 / (1 + 5 / 2 * p).
Proof.
  intros Hd H0 Hp sres.
  assert (Hmu : sr_mu (static_u p) (eos_5_3 dfloor pfloor) 0 0 0
                = 1 / (1 + 5 / 2 * p)).
  { unfold sr_mu, sr_recast. cbv zeta.
    rewrite (static_floored Hd (Rlt_le _ _ Hp)), static_recast, static_bracket_phase.
    cbn [z static_u MHDCons1D.d].
    apply static_root_phase; lra. }
  pose proof (static_sr_w dfloor_used efloor_used max_iter Hd H0 Hp) as Hw.
  fold sres in Hw.
  destruct (SingleC2P_IdealSRMHD_stages (static_u p) (eos_5_3 dfloor pfloor) 0 0 0
              dfloor_used efloor_used max_iter) as (Hu & _ & Hdf & Hef & _).
  fold sres in Hu, Hdf, Hef.
  unfold sr_recast in Hef.
  rewrite (static_floored Hd (Rlt_le _ _ Hp)) in Hu, Hef.
  rewrite static_recast in Hef.
  rewrite (static_primitives dfloor _ _ H0 Hp) in Hef.
  cbn [fst snd] in Hef.
  assert (Et : dfloor_triggers (static_u p) (eos_5_3 dfloor pfloor) = false).
  { unfold dfloor_triggers, static_u, eos_5_3.
    cbn [MHDCons1D.d EOS_Data.dfloor]. to_R. apply Rltb_false_iff. lra. }
  assert (Ee : efloor_triggers_sr (static_u p) (eos_5_3 dfloor pfloor) 0 = false).
  { unfold efloor_triggers_sr, static_u, eos_5_3.
    cbn [MHDCons1D.e EOS_Data.pfloor EOS_Data.gamma]. to_R.
    rewrite !static_energy. apply Rltb_false_iff. lra. }
  rewrite Et in Hdf. rewrite Ee in Hef.
  repeat split; assumption.
Qed.

(** C5, counterexample: the static fluid of unit density and
    pressure is admissible, the bracket function is [-1] at [mu = 0] and
    exactly [0] at [mu = 1], so the signs are not opposite, and neither
    early-exit test holds (the bracket is 1 wide and [|f(0)| + |f(1)| = 1]). *)
Lemma static_bracket_not_strict :
  sr_admissible (static_u 1) (eos_5_3 (/ 100000000) (/ 100000000)) 0 0 /\
  ~ initial_bracket_ok (recast (static_u 1) 0 0 0).
Proof.
  split.
  - unfold sr_admissible, static_u, eos_5_3.
    cbn [MHDCons1D.d MHDCons1D.e EOS_Data.dfloor EOS_Data.pfloor EOS_Data.gamma].
    rewrite !static_energy. lra.
  - rewrite static_recast. unfold initial_bracket_ok, static_rc. cbv zeta.
    cbn [rc_b2 rc_rpar rc_r rc_q]. rewrite !static_Equation49.
    pose proof tol_pos as Ht.
    replace (0 - 1) with (- (1)) by lra. replace (1 - 1) with 0 by lra.
    rewrite Rabs_Ropp, Rabs_R1, Rabs_R0.
    intros [H | [H | H]]; lra.
Qed.

(** C3, counterexample: for the cold moving state (at the density
    floor, [D = dfloor = 1]) the relativistic converter returns the primitive
    density [D / lor = 4/5], below the floor. *)
Lemma sr_primitive_density_below_floor :
  let sres := SingleC2P_IdealSRMHD (cold_u 0) cold_eos (9 / 16) 0 0 false false 0 in
  MHDCons1D.d (sr_u sres) = 1 /\
  HydPrim1D.d (sr_w sres) = 4 / 5 /\
  EOS_Data.dfloor cold_eos = 1 /\
  HydPrim1D.d (sr_w sres) < EOS_Data.dfloor cold_eos.
Proof.
  intros sres.
  destruct (@cold_conversion 0 false false 0%Z (Rle_refl 0)) as (Hu & Hw & _).
  fold sres in Hu, Hw. rewrite Hu, Hw.
  cbn [HydPrim1D.d MHDCons1D.d cold_u cold_eos EOS_Data.dfloor].
  repeat split; try reflexivity; lra.
Qed.

(** C3, as amended: the primitive density [SingleC2P_IdealMHD] returns is at
    least [dfloor]; for [SingleC2P_IdealSRMHD] it is the conserved density
    handed back that is at least [dfloor], and the primitive density is that
    conserved density divided by the Lorentz factor at the final [mu]. *)
Theorem density_floor_invariant (u : MHDCons1D.t R) (eos : EOS_Data.t R)
    (s2 b2 rpar : R) (dfloor_used efloor_used : bool) (max_iter : Z) :
  let sres := SingleC2P_IdealSRMHD u eos s2 b2 rpar dfloor_used efloor_used max_iter in
  let rc := sr_recast u eos s2 b2 rpar in
  EOS_Data.dfloor eos
    <= HydPrim1D.d (c2p_w (SingleC2P_IdealMHD u eos dfloor_used efloor_used)) /\
  EOS_Data.dfloor eos <= MHDCons1D.d (sr_u sres) /\
  HydPrim1D.d (sr_w sres) =
    MHDCons1D.d (sr_u sres)
    / kastaun_lorentz (sr_mu u eos s2 b2 rpar) (rc_b2 rc) (rc_rpar rc) (rc_r rc).
Proof.
  intros sres rc.
  destruct (SingleC2P_IdealSRMHD_stages u eos s2 b2 rpar dfloor_used efloor_used max_iter)
    as (Hu & Hw & _).
  fold sres in Hu, Hw. rewrite Hu, Hw.
  assert (Hfl : EOS_Data.dfloor eos <=
      (if dfloor_triggers u eos then EOS_Data.dfloor eos else MHDCons1D.d u)).
  { destruct (dfloor_triggers u eos) eqn:E; [lra |].
    unfold dfloor_triggers in E. apply Rltb_false_iff in E. exact E. }
  split; [| split].
  - rewrite SingleC2P_IdealMHD_w_d, apply_dfloor_d. exact Hfl.
  - rewrite sr_floored_d. exact Hfl.
  - pose proof (primitives_from_mu_kastaun (sr_floored u eos b2) eos
                  (sr_recast u eos s2 b2 rpar)
                  (z (root_phase (sr_recast u eos s2 b2 rpar)
                        (MHDCons1D.d (sr_floored u eos b2)) eos
                        (z (bracket_phase (sr_recast u eos s2 b2 rpar))))) false) as H.
    cbv zeta in H. rewrite H. reflexivity.
Qed.

(** C1, counterexample: for the cold moving state with energy
    [-1] both energy-floor sites of the relativistic converter trigger; the
    conserved energy handed back is 0, the floored internal energy is 0 and
    the magnetic energy is 0, while the momentum [3/4] is untouched and the
    kinetic energy of the state is [9/32]: the energy handed back is not the
    sum of the three. *)
Lemma sr_energy_floor_not_consistent :
  let sres := SingleC2P_IdealSRMHD (cold_u (-1)) cold_eos (9 / 16) 0 0 false false 0 in
  efloor_triggers_sr (cold_u (-1)) cold_eos 0 = true /\
  sr_efloor_used sres = true /\
  MHDCons1D.e (sr_u sres) = 0 /\
  HydPrim1D.e (sr_w sres) = 0 /\
  MHDCons1D.mx (sr_u sres) = 3 / 4 /\
  e_kinetic (sr_u sres) = 9 / 32 /\
  e_magnetic (sr_u sres) = 0 /\
  MHDCons1D.e (sr_u sres) <>
    HydPrim1D.e (sr_w sres) + e_kinetic (sr_u sres) + e_magnetic (sr_u sres).
Proof.
  intros sres.
  assert (He : -1 <= 0) by lra.
  destruct (@cold_conversion (-1) false false 0%Z He) as (Hu & Hw & _ & Hf).
  fold sres in Hu, Hw, Hf. rewrite Hu, Hw, Hf.
  assert (Hk : e_kinetic (cold_u 0) = 9 / 32).
  { unfold e_kinetic, cold_u, SQR. cbv zeta.
    cbn [MHDCons1D.d MHDCons1D.mx MHDCons1D.my MHDCons1D.mz]. to_R. lra. }
  assert (Hm : e_magnetic (cold_u 0) = 0).
  { unfold e_magnetic, cold_u, SQR.
    cbn [MHDCons1D.bx MHDCons1D.by_ MHDCons1D.bz]. to_R. lra. }
  rewrite Hk, Hm. cbn [cold_u MHDCons1D.e MHDCons1D.mx HydPrim1D.e]. to_R.
  repeat split; try reflexivity; try lra.
  unfold efloor_triggers_sr, cold_u, cold_eos.
  cbn [MHDCons1D.e EOS_Data.pfloor EOS_Data.gamma]. to_R.
  apply Rltb_true_iff. replace (0 / (5 / 3 - 1)) with 0 by (unfold Rdiv; ring). lra.
Qed.

(** *** The bracket function at the ends of [0, 1] *)

Lemma Equation49_at_0 (b2 rp r q : R) : Equation49 0 b2 rp r q = -1.
Proof. rewrite Equation49_R. ring. Qed.

Lemma kastaun_rbar_at_1 (b2 rp r : R) :
  0 <= b2 ->
  0 <= kastaun_rbar 1 b2 rp r /\ (kastaun_rbar 1 b2 rp r = 0 <-> r = 0 /\ rp = 0).
Proof.
  intros Hb. rewrite kastaun_rbar_R, kastaun_x_R.
  replace (1 + 1 * b2) with (1 + b2) by ring.
  set (x := 1 / (1 + b2)).
  assert (Hx : 0 < x) by (unfold x; apply Rdiv_lt_0_compat; lra).
  assert (H1 : 0 <= x * x * r * r).
  { replace (x * x * r * r) with ((x * r) * (x * r)) by ring. apply Rle_0_sqr. }
  assert (H2 : 0 <= 1 * x * (1 + x) * rp * rp).
  { replace (1 * x * (1 + x) * rp * rp) with ((x * (1 + x)) * (rp * rp)) by ring.
    apply Rmult_le_pos; [apply Rmult_le_pos; lra | apply Rle_0_sqr]. }
  split; [lra |]. split.
  - intros H0.
    assert (E1 : x * x * r * r = 0) by lra.
    assert (E2 : 1 * x * (1 + x) * rp * rp = 0) by lra.
    split.
    + replace (x * x * r * r) with ((x * r) * (x * r)) in E1 by ring.
      apply Rsqr_0_uniq in E1.
      apply Rmult_integral in E1. destruct E1; lra.
    + replace (1 * x * (1 + x) * rp * rp) with ((x * (1 + x)) * (rp * rp)) in E2 by ring.
      apply Rmult_integral in E2. destruct E2 as [E2 | E2].
      * apply Rmult_integral in E2. destruct E2; lra.
      * apply Rsqr_0_uniq in E2. exact E2.
  - intros [-> ->]. ring.
Qed.

Lemma Equation49_at_1 (b2 rp r q : R) :
  0 <= b2 ->
  0 <= Equation49 1 b2 rp r q /\ (Equation49 1 b2 rp r q = 0 <-> r = 0 /\ rp = 0).
Proof.
  intros Hb. rewrite Equation49_R.
  destruct (kastaun_rbar_at_1 rp r Hb) as [Hr Hz].
  set (rbar := kastaun_rbar 1 b2 rp r) in *.
  assert (Hs : 1 <= R_sqrt.sqrt (1 + rbar)).
  { rewrite <- sqrt_1 at 1. apply sqrt_le_1_alt. lra. }
  split; [lra |]. split.
  - intros H0. apply Hz.
    assert (E : R_sqrt.sqrt (1 + rbar) = 1) by lra.
    assert (E2 : R_sqrt.sqrt (1 + rbar) * R_sqrt.sqrt (1 + rbar) = 1 + rbar)
      by (apply sqrt_sqrt; lra).
    rewrite E in E2. lra.
  - intros H0. apply Hz in H0. rewrite H0.
    replace (1 + 0) with 1 by ring. rewrite sqrt_1. ring.
Qed.

Lemma recast_b2_nonneg (u : MHDCons1D.t R) (eos : EOS_Data.t R) (s2 b2 rpar : R) :
  sr_admissible u eos s2 b2 -> 0 <= rc_b2 (recast u s2 b2 rpar).
Proof.
  intros (Hdf & Hd & _ & _ & Hb). unfold recast. cbv zeta. cbn [rc_b2]. to_R.
  apply Rmult_le_pos; [exact Hb |].
  apply Rlt_le, Rinv_0_lt_compat. lra.
Qed.

(** C5, as amended: in exact real arithmetic, for every admissible
    relativistic conserved state the bracket function is [-1] at [mu = 0] and
    non-negative at [mu = 1]; it vanishes at [mu = 1] exactly when the recast
    momentum [r] and [rpar] are both zero, and is positive (signs strictly
    opposite) otherwise.  Neither early-exit test of line 158 holds on the
    initial bracket (it is 1 wide and [|f(0)| + |f(1)| >= 1]), so the initial
    bracket is valid exactly when [r] and [rpar] are not both zero.  In
    binary64 the strict positivity is lost for slow flows: at the state
    [creeping_b64], whose [r = 2^-27] is positive, [Equation49] is exactly [0] at
    [mu = 1]. *)
Theorem bracket_function_signs (u : MHDCons1D.t R) (eos : EOS_Data.t R)
    (s2 b2 rpar : R) :
  sr_admissible u eos s2 b2 ->
  let rc := recast u s2 b2 rpar in
  let f0 := Equation49 0 (rc_b2 rc) (rc_rpar rc) (rc_r rc) (rc_q rc) in
  let f1 := Equation49 1 (rc_b2 rc) (rc_rpar rc) (rc_r rc) (rc_q rc) in
  let rcf := recast creeping_b64 creeping_s2 (float_lit 0) (float_lit 0) in
  f0 = -1 /\ 0 <= f1 /\
  (f1 = 0 <-> rc_r rc = 0 /\ rc_rpar rc = 0) /\
  (f0 * f1 < 0 <-> ~ (rc_r rc = 0 /\ rc_rpar rc = 0)) /\
  ~ Rabs (0 - 1) < tol /\
  ~ Rabs f0 + Rabs f1 < 2 * tol /\
  (initial_bracket_ok rc <-> ~ (rc_r rc = 0 /\ rc_rpar rc = 0)) /\
  rc_r rcf = float_lit (1 # 134217728) /\
  PrimFloat.ltb (float_lit 0) (rc_r rcf) = true /\
  Equation49 (float_lit 1) (rc_b2 rcf) (rc_rpar rcf) (rc_r rcf) (rc_q rcf)
    = float_lit 0.
Proof.
  intros Hadm rc f0 f1 rcf.
  pose proof (recast_b2_nonneg rpar Hadm) as Hb. fold rc in Hb.
  destruct (Equation49_at_1 (rc_rpar rc) (rc_r rc) (rc_q rc) Hb) as [Hpos Hz].
  fold f1 in Hpos, Hz.
  assert (H0 : f0 = -1) by apply Equation49_at_0.
  pose proof tol_pos as Ht.
  assert (Hw : ~ Rabs (0 - 1) < tol).
  { replace (0 - 1) with (- (1)) by lra. rewrite Rabs_Ropp, Rabs_R1. lra. }
  assert (Hs : ~ Rabs f0 + Rabs f1 < 2 * tol).
  { rewrite H0. replace (-1) with (- (1)) by lra. rewrite Rabs_Ropp, Rabs_R1.
    pose proof (Rabs_pos f1). lra. }
  assert (Hopp : f0 * f1 < 0 <-> ~ (rc_r rc = 0 /\ rc_rpar rc = 0)).
  { rewrite H0. split.
    - intros Hlt Hs'. apply Hz in Hs'. lra.
    - intros Hn. destruct (Req_dec f1 0) as [E | E]; [| lra].
      apply Hz in E. contradiction. }
  split; [exact H0 |]. split; [exact Hpos |]. split; [exact Hz |].
  split; [exact Hopp |]. split; [exact Hw |]. split; [exact Hs |].
  split; [| subst rcf; vm_compute; repeat split; reflexivity].
  unfold initial_bracket_ok. cbv zeta. fold f0 f1. split.
  - intros [H | [H | H]]; [apply Hopp; exact H | contradiction | contradiction].
  - intros Hn. left. apply Hopp. exact Hn.
Qed.

(** *** The floor inside the primary master function *)

(** C7: at every argument [mu], the value of [Equation44] is eq. 45 with the
    enthalpy [h = 1 + gamma*eps] formed from the floored specific internal
    energy [max(eps, pfloor/((u_d/w)*(gamma-1)))], [u_d/w] being the
    rest-frame density implied at that [mu]: the code agrees with the
    specification's wording of the function, an [eps] below the floor enters
    as the floor, and only an [eps] at or above it enters unchanged. *)
Theorem Equation44_floor_inside (mu b2 rpar r q u_d : R) (eos : EOS_Data.t R) :
  let eps := kastaun_eps mu b2 rpar r q in
  let floor := eps_floor_at mu b2 rpar r u_d eos in
  Equation44 mu b2 rpar r q u_d eos = Equation44_spec mu b2 rpar r q u_d eos /\
  Equation44 mu b2 rpar r q u_d eos = master_of_eps mu b2 rpar r eos (Rmax eps floor) /\
  floor <= Rmax eps floor /\
  (eps < floor ->
     Equation44 mu b2 rpar r q u_d eos = master_of_eps mu b2 rpar r eos floor) /\
  (floor <= eps ->
     Equation44 mu b2 rpar r q u_d eos = Equation44_unfloored mu b2 rpar r q eos).
Proof.
  intros eps floor.
  assert (E : Equation44 mu b2 rpar r q u_d eos =
              master_of_eps mu b2 rpar r eos (Rmax eps floor)).
  { rewrite Equation44_R. fold eps floor. rewrite Rmax_comm. reflexivity. }
  split; [exact E |]. split; [exact E |]. split; [apply Rmax_r |]. split.
  - intros Hlt. rewrite E, Rmax_right by lra. reflexivity.
  - intros Hle. rewrite E, Rmax_left by lra. reflexivity.
Qed.

(** X6: the floor inside the evaluation is not idle: at the root of the cold
    moving state the unfloored master function takes another value. *)
Lemma Equation44_floor_not_deferred :
  Equation44 (4 / 5) 0 0 (3 / 4) 0 1 cold_eos = 0 /\
  Equation44_unfloored (4 / 5) 0 0 (3 / 4) 0 cold_eos = - (2 / 5).
Proof.
  split; [apply cold_Equation44 |].
  unfold Equation44_unfloored.
  rewrite cold_eps, master_of_eps_R, cold_lorentz, kastaun_rbar_hydro.
  cbn [cold_eos EOS_Data.gamma].
  replace ((1 + 5 / 3 * - (5 / 16)) / (5 / 4) + 3 / 4 * (3 / 4) * (4 / 5))
    with (5 / 6) by lra.
  lra.
Qed.

(** *** The bracket of the false-position solver *)

(** The interpolated point of a sign-changing bracket lies between its ends. *)
Lemma secant_between (zm0 zp0 fm0 fp0 lo hi : R) :
  fm0 * fp0 < 0 -> lo <= zm0 <= hi -> lo <= zp0 <= hi ->
  lo <= (zm0 * fp0 - zp0 * fm0) / (fp0 - fm0) <= hi.
Proof.
  intros Hs Hm Hp.
  assert (Hcases : (fm0 < 0 /\ 0 < fp0) \/ (fp0 < 0 /\ 0 < fm0)).
  { destruct (Rlt_le_dec fm0 0) as [Hf | Hf].
    - left. split; [exact Hf |]. destruct (Rlt_le_dec 0 fp0); [assumption | nra].
    - right. destruct (Rlt_le_dec fp0 0) as [Hg | Hg]; [| nra].
      split; [exact Hg |]. destruct (Req_dec fm0 0); [nra | lra]. }
  set (zn := (zm0 * fp0 - zp0 * fm0) / (fp0 - fm0)).
  assert (Hz : zn * (fp0 - fm0) = zm0 * fp0 - zp0 * fm0)
    by (unfold zn; field; lra).
  destruct Hcases as [[Hf Hg] | [Hg Hf]]; split; nra.
Qed.

(** While the bracket changes sign, every iterate of the loop, and so the
    value of [z] it leaves, stays within the bounds of the bracket. *)
Lemma fp_loop_bracket (f : R -> R) (iterations : Z) (lo hi : R) :
  forall (n : nat) (st : FPState),
    Z.to_nat (iterations - iter st) = n ->
    fm st * fp st < 0 ->
    lo <= zm st <= hi -> lo <= zp st <= hi -> lo <= z st <= hi ->
    lo <= z (fp_loop f iterations st) <= hi.
Proof.
  induction n as [| n IH]; intros st Hn Hs Hm Hp Hz.
  - rewrite fp_loop_exit by lia. exact Hz.
  - rewrite fp_loop_step by lia. cbv zeta. to_R.
    pose proof (secant_between Hs Hm Hp) as Hb.
    set (zn := (zm st * fp st - zp st * fm st) / (fp st - fm st)) in *.
    destruct (Rltb (Rabs (zm st - zp st)) tol) eqn:E1; cbn [orb]; [exact Hb |].
    destruct (Rltb (Rabs (f zn)) tol) eqn:E2; [exact Hb |].
    apply Rltb_false_iff in E2.
    pose proof tol_pos as Ht.
    assert (Hne : f zn <> 0).
    { intros E0. rewrite E0, Rabs_R0 in E2. lra. }
    destruct (Rltb (f zn * fp st) 0) eqn:E3.
    + apply Rltb_true_iff in E3.
      apply IH; cbn [iter zm zp fm fp z]; try assumption; try lia. nra.
    + apply Rltb_false_iff in E3.
      apply IH; cbn [iter zm zp fm fp z]; try assumption; try lia.
      assert (Hpos : 0 < f zn * fp st).
      { destruct (Req_dec (f zn * fp st) 0) as [E0 | E0]; [| lra].
        apply Rmult_integral in E0. destruct E0 as [E0 | E0]; [contradiction |].
        rewrite E0 in Hs. lra. }
      nra.
Qed.

(** A phase that starts from a sign-changing bracket, or from a bracket
    already within tolerance, ends with [z] between the bracket ends. *)
Lemma false_position_bracket (f : R -> R) (zm0 zp0 lo hi : R) :
  lo <= zm0 <= hi -> lo <= zp0 <= hi ->
  f zm0 * f zp0 < 0 \/
    Rabs (zm0 - zp0) < tol \/ Rabs (f zm0) + Rabs (f zp0) < 2 * tol ->
  lo <= z (false_position f zm0 zp0) <= hi.
Proof.
  intros Hm Hp Hok. unfold false_position. cbv zeta. to_R.
  assert (Hmid : lo <= / 2 * (zm0 + zp0) <= hi) by lra.
  destruct (Rltb (Rabs (zm0 - zp0)) tol) eqn:E1; cbn [orb].
  { rewrite fp_loop_exit by (cbn [iter]; lia). exact Hmid. }
  destruct (Rltb (Rabs (f zm0) + Rabs (f zp0)) (2 * tol)) eqn:E2.
  { rewrite fp_loop_exit by (cbn [iter]; lia). exact Hmid. }
  apply Rltb_false_iff in E1. apply Rltb_false_iff in E2.
  destruct Hok as [Hs | [Hw | Hw]]; [| lra | lra].
  eapply fp_loop_bracket; cbn [iter zm zp fm fp z]; try reflexivity; assumption.
Qed.

(** *** Signs of the master functions *)

Lemma kastaun_x_range (mu b2 : R) :
  0 <= mu -> 0 <= b2 -> 0 < kastaun_x mu b2 <= 1.
Proof.
  intros Hmu Hb. rewrite kastaun_x_R.
  assert (Hd : 1 <= 1 + mu * b2) by nra.
  assert (Hx : 0 < 1 / (1 + mu * b2)) by (apply Rdiv_lt_0_compat; lra).
  assert (Hm : 1 / (1 + mu * b2) * (1 + mu * b2) = 1) by (field; lra).
  split; [exact Hx | nra].
Qed.

Lemma kastaun_rbar_nonneg (mu b2 rp r : R) :
  0 <= mu -> 0 <= b2 -> 0 <= kastaun_rbar mu b2 rp r.
Proof.
  intros Hmu Hb. rewrite kastaun_rbar_R.
  destruct (kastaun_x_range Hmu Hb) as [Hx0 Hx1].
  set (x := kastaun_x mu b2) in *.
  assert (H1 : 0 <= x * x * r * r).
  { replace (x * x * r * r) with ((x * r) * (x * r)) by ring. apply Rle_0_sqr. }
  assert (H2 : 0 <= mu * x * (1 + x) * rp * rp).
  { replace (mu * x * (1 + x) * rp * rp) with ((mu * (x * (1 + x))) * (rp * rp)) by ring.
    apply Rmult_le_pos; [| apply Rle_0_sqr].
    apply Rmult_le_pos; [exact Hmu |]. apply Rmult_le_pos; lra. }
  lra.
Qed.

Lemma Rinv_Rabs_nonneg (a : R) : 0 <= / Rabs a.
Proof.
  destruct (Req_dec a 0) as [-> | Hn].
  - rewrite Rabs_R0, Rinv_0. lra.
  - apply Rlt_le, Rinv_0_lt_compat, Rabs_pos_lt. exact Hn.
Qed.

Lemma kastaun_z2_nonneg (mu b2 rp r : R) :
  0 <= mu -> 0 <= b2 -> 0 <= kastaun_z2 mu b2 rp r.
Proof.
  intros Hmu Hb. rewrite kastaun_z2_R.
  pose proof (kastaun_rbar_nonneg rp r Hmu Hb) as Hr.
  unfold Rdiv. apply Rmult_le_pos; [| apply Rinv_Rabs_nonneg].
  apply Rmult_le_pos; [apply Rle_0_sqr | exact Hr].
Qed.

Lemma kastaun_lorentz_ge_1 (mu b2 rp r : R) :
  0 <= mu -> 0 <= b2 -> 1 <= kastaun_lorentz mu b2 rp r.
Proof.
  intros Hmu Hb. rewrite kastaun_lorentz_R.
  pose proof (kastaun_z2_nonneg rp r Hmu Hb) as Hz.
  rewrite <- sqrt_1 at 1. apply sqrt_le_1_alt. lra.
Qed.

(** With [gamma > 1], [pfloor >= 0] and a positive density, the floored
    specific internal energy is non-negative, so the enthalpy is at least 1. *)
Lemma floored_eps_nonneg (mu b2 rp r q u_d : R) (eos : EOS_Data.t R) :
  1 < EOS_Data.gamma eos -> 0 <= EOS_Data.pfloor eos -> 0 < u_d ->
  0 <= mu -> 0 <= b2 ->
  0 <= Rmax (eps_floor_at mu b2 rp r u_d eos) (kastaun_eps mu b2 rp r q).
Proof.
  intros Hg Hp Hd Hmu Hb.
  apply Rle_trans with (eps_floor_at mu b2 rp r u_d eos); [| apply Rmax_l].
  rewrite eps_floor_at_R.
  pose proof (kastaun_lorentz_ge_1 rp r Hmu Hb) as Hw.
  unfold Rdiv. apply Rmult_le_pos; [exact Hp |].
  apply Rlt_le, Rinv_0_lt_compat. apply Rmult_lt_0_compat; [| lra].
  apply Rmult_lt_0_compat; [exact Hd |]. apply Rinv_0_lt_compat. lra.
Qed.

Lemma Equation44_at_0_negative (b2 rp r q u_d : R) (eos : EOS_Data.t R) :
  1 < EOS_Data.gamma eos -> 0 <= EOS_Data.pfloor eos -> 0 < u_d -> 0 <= b2 ->
  Equation44 0 b2 rp r q u_d eos < 0.
Proof.
  intros Hg Hp Hd Hb.
  pose proof (@floored_eps_nonneg 0 b2 rp r q u_d eos Hg Hp Hd (Rle_refl 0) Hb) as He.
  rewrite Equation44_R, master_of_eps_R.
  set (eps := Rmax _ _) in *.
  assert (Hw : kastaun_lorentz 0 b2 rp r = 1).
  { rewrite kastaun_lorentz_R, kastaun_z2_R.
    apply sqrt_of_square; [lra |]. unfold Rdiv. ring. }
  rewrite Hw.
  assert (Hh : 1 <= 1 + EOS_Data.gamma eos * eps) by nra.
  replace ((1 + EOS_Data.gamma eos * eps) / 1 + kastaun_rbar 0 b2 rp r * 0)
    with (1 + EOS_Data.gamma eos * eps) by (field; lra).
  assert (Hi : 0 < 1 / (1 + EOS_Data.gamma eos * eps))
    by (apply Rdiv_lt_0_compat; lra).
  lra.
Qed.

(** At or above the root of the bracket function the primary master
    function is non-negative (eq. 49 against eq. 44, with [h >= 1]). *)
Lemma Equation44_nonneg_above_bracket_root (mu b2 rp r q u_d : R)
    (eos : EOS_Data.t R) :
  1 < EOS_Data.gamma eos -> 0 <= EOS_Data.pfloor eos -> 0 < u_d -> 0 <= b2 ->
  0 < mu ->
  0 <= Equation49 mu b2 rp r q ->
  0 <= Equation44 mu b2 rp r q u_d eos.
Proof.
  intros Hg Hp Hd Hb Hmu H49.
  assert (Hmu0 : 0 <= mu) by lra.
  pose proof (floored_eps_nonneg rp r q eos Hg Hp Hd Hmu0 Hb) as He.
  pose proof (kastaun_rbar_nonneg rp r Hmu0 Hb) as Hrho.
  pose proof (kastaun_lorentz_ge_1 rp r Hmu0 Hb) as Hw.
  pose proof (kastaun_z2_nonneg rp r Hmu0 Hb) as Hz2.
  rewrite Equation49_R in H49.
  rewrite Equation44_R, master_of_eps_R.
  set (eps := Rmax _ _) in *.
  set (h := 1 + EOS_Data.gamma eos * eps).
  assert (Hh : 1 <= h) by (unfold h; nra).
  assert (Hww : kastaun_lorentz mu b2 rp r * kastaun_lorentz mu b2 rp r
                = 1 + kastaun_z2 mu b2 rp r).
  { rewrite kastaun_lorentz_R. apply sqrt_sqrt. lra. }
  pose proof (kastaun_z2_R mu b2 rp r) as Hz2eq.
  set (rho := kastaun_rbar mu b2 rp r) in *.
  set (w := kastaun_lorentz mu b2 rp r) in *.
  set (z2 := kastaun_z2 mu b2 rp r) in *.
  assert (Hs : R_sqrt.sqrt (1 + rho) * R_sqrt.sqrt (1 + rho) = 1 + rho)
    by (apply sqrt_sqrt; lra).
  assert (Hsp : 0 <= R_sqrt.sqrt (1 + rho)) by apply sqrt_pos.
  set (s49 := R_sqrt.sqrt (1 + rho)) in *.
  assert (Hroot : 1 <= mu * mu * (1 + rho)).
  { assert (H1 : 1 <= mu * s49) by lra.
    assert (H2 : 1 <= (mu * s49) * (mu * s49)) by nra.
    rewrite <- Hs. nra. }
  assert (Hhw : 0 < h / w) by (apply Rdiv_lt_0_compat; lra).
  assert (HT : 0 < h / w + rho * mu) by nra.
  assert (HmT : 1 <= mu * (h / w + rho * mu)).
  { destruct (Rle_lt_dec 1 (rho * mu * mu)) as [Hbig | Hsmall].
    - assert (0 <= mu * (h / w)) by nra. nra.
    - set (dd := 1 - mu * mu * rho) in *.
      assert (Hdd : 0 < dd) by (unfold dd; lra).
      rewrite (Rabs_pos_eq dd) in Hz2eq by lra.
      assert (Hzd : z2 * dd = mu * mu * rho) by (rewrite Hz2eq; field; lra).
      assert (Hwd : w * w * dd = 1) by (rewrite Hww; unfold dd in *; nra).
      assert (Hdw : dd * w <= mu * h).
      { destruct (Rle_lt_dec (dd * w) (mu * h)) as [Hle | Hgt]; [exact Hle |].
        exfalso.
        assert (Hsq : (dd * w) * (dd * w) = dd) by nra.
        assert (Hh2 : 1 <= h * h) by nra.
        assert (Hm2 : 0 <= mu * mu) by nra.
        assert (Hmh : mu * mu <= (mu * h) * (mu * h)).
        { replace ((mu * h) * (mu * h)) with (mu * mu * (h * h)) by ring. nra. }
        assert (Hmh0 : 0 <= mu * h) by nra.
        assert (Hlt2 : (mu * h) * (mu * h) < (dd * w) * (dd * w))
          by (apply Rmult_le_0_lt_compat; lra).
        unfold dd in *. nra. }
      assert (Hq : h / w * w = h) by (field; lra).
      assert (Hmq : dd <= mu * (h / w)).
      { apply Rmult_le_reg_r with w; [lra |]. nra. }
      unfold dd in *. nra. }
  set (T := h / w + rho * mu) in *.
  assert (Hinv : 1 / T <= mu).
  { apply Rmult_le_reg_r with T; [exact HT |].
    replace (1 / T * T) with 1 by (field; lra).
    exact HmT. }
  lra.
Qed.

(** *** Where the root variable ends *)

Lemma sr_floored_d_pos (u : MHDCons1D.t R) (eos : EOS_Data.t R) (b2 : R) :
  0 < EOS_Data.dfloor eos -> 0 < MHDCons1D.d (sr_floored u eos b2).
Proof.
  intros Hdf. rewrite sr_floored_d.
  destruct (dfloor_triggers u eos) eqn:E; [exact Hdf |].
  unfold dfloor_triggers in E. apply Rltb_false_iff in E. lra.
Qed.

Lemma sr_recast_b2_nonneg (u : MHDCons1D.t R) (eos : EOS_Data.t R) (s2 b2 rpar : R) :
  0 < EOS_Data.dfloor eos -> 0 <= b2 -> 0 <= rc_b2 (sr_recast u eos s2 b2 rpar).
Proof.
  intros Hdf Hb. pose proof (@sr_floored_d_pos u eos b2 Hdf) as Hd.
  unfold sr_recast, recast. cbv zeta. cbn [rc_b2]. to_R.
  apply Rmult_le_pos; [exact Hb |]. apply Rlt_le, Rinv_0_lt_compat. exact Hd.
Qed.

Lemma bracket_phase_range (rc : Recast) :
  0 <= rc_b2 rc -> 0 <= z (bracket_phase rc) <= 1.
Proof.
  intros Hb. unfold bracket_phase. to_R.
  set (f := fun mu => Equation49 mu (rc_b2 rc) (rc_rpar rc) (rc_r rc) (rc_q rc)).
  assert (H0 : f 0 = -1) by apply Equation49_at_0.
  destruct (Equation49_at_1 (rc_rpar rc) (rc_r rc) (rc_q rc) Hb) as [H1 _].
  fold (f 1) in H1.
  pose proof tol_pos as Ht.
  destruct (Req_dec (f 1) 0) as [E | E].
  - rewrite false_position_one_step.
    + cbn [z]. rewrite H0, E. replace ((0 * 0 - 1 * -1) / (0 - -1)) with 1 by lra. lra.
    + replace (0 - 1) with (- (1)) by lra. rewrite Rabs_Ropp, Rabs_R1. lra.
    + rewrite H0, E. replace (-1) with (- (1)) by lra.
      rewrite Rabs_Ropp, Rabs_R1, Rabs_R0. lra.
    + rewrite H0, E. replace ((0 * 0 - 1 * -1) / (0 - -1)) with 1 by lra.
      rewrite E, Rabs_R0. lra.
  - apply false_position_bracket; [lra | lra |]. left. rewrite H0. nra.
Qed.

(** X1: for every input with valid EOS parameters and non-negative [s2] and
    [b2], the bracket search ends with [z] in [0, 1]. *)
Theorem bracket_search_in_unit_interval (u : MHDCons1D.t R) (eos : EOS_Data.t R)
    (s2 b2 rpar : R) :
  eos_valid eos -> 0 <= s2 -> 0 <= b2 ->
  0 <= z (bracket_phase (sr_recast u eos s2 b2 rpar)) <= 1.
Proof.
  intros (_ & Hdf & _) _ Hb.
  apply bracket_phase_range. apply sr_recast_b2_nonneg; assumption.
Qed.

(** X2: for every input with valid EOS parameters and non-negative [s2]
    and [b2]: when the bracket search ends at or above the root of the bracket
    function, the final root variable [mu] lies between 0 and that upper
    bracket, hence in [0, 1]. *)
Theorem root_variable_in_unit_interval (u : MHDCons1D.t R) (eos : EOS_Data.t R)
    (s2 b2 rpar : R) :
  eos_valid eos -> 0 <= s2 -> 0 <= b2 ->
  let rc := sr_recast u eos s2 b2 rpar in
  let z1 := z (bracket_phase rc) in
  0 <= Equation49 z1 (rc_b2 rc) (rc_rpar rc) (rc_r rc) (rc_q rc) ->
  0 <= sr_mu u eos s2 b2 rpar <= z1 /\ z1 <= 1.
Proof.
  intros (Hg & Hdf & Hp) _ Hb rc z1 H49.
  pose proof (@sr_recast_b2_nonneg u eos s2 b2 rpar Hdf Hb) as Hb2. fold rc in Hb2.
  pose proof (@sr_floored_d_pos u eos b2 Hdf) as Hd.
  pose proof (@bracket_phase_range rc Hb2) as Hz1. fold z1 in Hz1.
  assert (Hz1pos : 0 < z1).
  { destruct (Req_dec z1 0) as [E | E]; [| lra].
    rewrite E, Equation49_at_0 in H49. lra. }
  split; [| lra].
  unfold sr_mu. fold rc. fold z1. unfold root_phase. to_R.
  set (f := fun mu => Equation44 mu (rc_b2 rc) (rc_rpar rc) (rc_r rc) (rc_q rc)
                        (MHDCons1D.d (sr_floored u eos b2)) eos).
  assert (Hf0 : f 0 < 0) by (apply Equation44_at_0_negative; assumption).
  assert (Hf1 : 0 <= f z1)
    by (apply Equation44_nonneg_above_bracket_root; assumption).
  pose proof tol_pos as Ht.
  destruct (Rlt_le_dec (Rabs (0 - z1)) tol) as [Hw | Hw].
  { apply false_position_bracket; [lra | lra |]. right. left. exact Hw. }
  destruct (Rlt_le_dec (Rabs (f 0) + Rabs (f z1)) (2 * tol)) as [Hs | Hs].
  { apply false_position_bracket; [lra | lra |]. right. right. exact Hs. }
  destruct (Req_dec (f z1) 0) as [E | E].
  - assert (Ez : (0 * f z1 - z1 * f 0) / (f z1 - f 0) = z1)
      by (rewrite E; field; lra).
    rewrite false_position_one_step; try assumption.
    + cbn [z]. rewrite Ez. lra.
    + rewrite Ez, E, Rabs_R0. lra.
  - apply false_position_bracket; [lra | lra |]. left. nra.
Qed.

(** *** Further consequences *)

(** X3: the internal energy [SingleC2P_IdealMHD] returns is never below the
    floor [pfloor/(gamma-1)]. *)
Theorem nonrel_internal_energy_floor (u : MHDCons1D.t R) (eos : EOS_Data.t R)
    (dfloor_used efloor_used : bool) :
  EOS_Data.pfloor eos / (EOS_Data.gamma eos - 1)
    <= HydPrim1D.e (c2p_w (SingleC2P_IdealMHD u eos dfloor_used efloor_used)).
Proof.
  destruct (SingleC2P_IdealMHD_efloor u eos dfloor_used efloor_used) as [_ Hw].
  rewrite Hw. to_R.
  destruct (efloor_triggers_mhd u eos) eqn:E; [lra |].
  unfold efloor_triggers_mhd in E. cbv zeta in E. to_R.
  apply Rltb_false_iff in E. exact E.
Qed.

(** X5: in exact real arithmetic the static fluid is recovered exactly by
    [SingleP2C_IdealSRMHD] from the primitives [SingleC2P_IdealSRMHD] returns
    for it. *)
Theorem static_fluid_round_trip (p dfloor pfloor : R) :
  dfloor <= 1 -> 0 <= pfloor -> pfloor < p ->
  SingleP2C_IdealSRMHD
    (with_field
       (sr_w (SingleC2P_IdealSRMHD (static_u p) (eos_5_3 dfloor pfloor) 0 0 0
                false false 0))
       (static_u p)) (5 / 3)
  = drop_field (static_u p).
Proof.
  intros Hd H0 Hp.
  rewrite (static_sr_w false false 0%Z Hd H0 Hp).
  unfold SingleP2C_IdealSRMHD, with_field, drop_field, static_u,
    lorentz_u0, SQR. cbv zeta.
  cbn [HydPrim1D.d HydPrim1D.vx HydPrim1D.vy HydPrim1D.vz HydPrim1D.e
       MHDPrim1D.d MHDPrim1D.vx MHDPrim1D.vy MHDPrim1D.vz MHDPrim1D.e
       MHDPrim1D.bx MHDPrim1D.by_ MHDPrim1D.bz
       MHDCons1D.d MHDCons1D.mx MHDCons1D.my MHDCons1D.mz MHDCons1D.e
       MHDCons1D.bx MHDCons1D.by_ MHDCons1D.bz].
  to_R.
  replace (1 + 0 * 0 + 0 * 0 + 0 * 0) with 1 by ring. rewrite sqrt_1.
  rewrite static_energy.
  f_equal; field.
Qed.

(** *** The floor tests over [R], and the properties at concrete states *)

Lemma cold_eos_valid : eos_valid cold_eos.
Proof.
  unfold eos_valid. cbn [cold_eos EOS_Data.gamma EOS_Data.dfloor EOS_Data.pfloor]. lra.
Qed.

Lemma eos_small_floors_valid : eos_valid eos_small_floors.
Proof.
  unfold eos_valid.
  cbn [eos_small_floors eos_5_3 EOS_Data.gamma EOS_Data.dfloor EOS_Data.pfloor]. lra.
Qed.

Lemma cold_sr_recast : sr_recast (cold_u 0) cold_eos (9 / 16) 0 0 = cold_rc.
Proof. unfold sr_recast. rewrite (cold_floored (Rle_refl 0)). apply cold_recast. Qed.

Lemma cold_eps_floor_triggers :
  eps_floor_triggers_sr (cold_u 0) cold_eos (9 / 16) 0 0 = true.
Proof.
  unfold eps_floor_triggers_sr, sr_mu. cbv zeta.
  rewrite cold_sr_recast, (cold_floored (Rle_refl 0)).
  cbn [cold_u MHDCons1D.d]. rewrite cold_bracket_phase. cbn [z].
  rewrite cold_root_phase.
  cbn [z cold_rc rc_b2 rc_rpar rc_r rc_q].
  rewrite cold_eps, cold_eps_floor. to_R. apply Rleb_true_iff. lra.
Qed.

Lemma dfloor_triggers_R (u : MHDCons1D.t R) (eos : EOS_Data.t R) :
  dfloor_triggers u eos = Rltb (MHDCons1D.d u) (EOS_Data.dfloor eos).
Proof. reflexivity. Qed.

Lemma efloor_triggers_mhd_R (u : MHDCons1D.t R) (eos : EOS_Data.t R) :
  dfloor_triggers u eos = false ->
  efloor_triggers_mhd u eos =
    Rltb (MHDCons1D.e u
          - / 2 * (1 / MHDCons1D.d u)
            * (MHDCons1D.mx u * MHDCons1D.mx u + MHDCons1D.my u * MHDCons1D.my u
               + MHDCons1D.mz u * MHDCons1D.mz u)
          - / 2 * (MHDCons1D.bx u * MHDCons1D.bx u + MHDCons1D.by_ u * MHDCons1D.by_ u
                   + MHDCons1D.bz u * MHDCons1D.bz u))
         (EOS_Data.pfloor eos / (EOS_Data.gamma eos - 1)).
Proof.
  intros Hd. unfold efloor_triggers_mhd, apply_dfloor. cbv zeta.
  unfold dfloor_triggers in Hd. rewrite Hd. cbn [fst].
  unfold e_kinetic, e_magnetic, SQR. cbv zeta. to_R. reflexivity.
Qed.

Lemma warm_no_dfloor : dfloor_triggers warm_u eos_small_floors = false.
Proof.
  rewrite dfloor_triggers_R. apply Rltb_false_iff.
  cbn [warm_u eos_small_floors eos_5_3 MHDCons1D.d EOS_Data.dfloor]. lra.
Qed.

Lemma warm_no_efloor : efloor_triggers_mhd warm_u eos_small_floors = false.
Proof.
  rewrite (efloor_triggers_mhd_R _ _ warm_no_dfloor). apply Rltb_false_iff.
  cbn [warm_u eos_small_floors eos_5_3 MHDCons1D.d MHDCons1D.mx MHDCons1D.my
       MHDCons1D.mz MHDCons1D.e MHDCons1D.bx MHDCons1D.by_ MHDCons1D.bz
       EOS_Data.pfloor EOS_Data.gamma].
  rewrite static_energy. lra.
Qed.

Lemma drained_no_dfloor : dfloor_triggers drained_u eos_small_floors = false.
Proof.
  rewrite dfloor_triggers_R. apply Rltb_false_iff.
  cbn [drained_u eos_small_floors eos_5_3 MHDCons1D.d EOS_Data.dfloor]. lra.
Qed.

Lemma drained_efloor : efloor_triggers_mhd drained_u eos_small_floors = true.
Proof.
  rewrite (efloor_triggers_mhd_R _ _ drained_no_dfloor). apply Rltb_true_iff.
  cbn [drained_u eos_small_floors eos_5_3 MHDCons1D.d MHDCons1D.mx MHDCons1D.my
       MHDCons1D.mz MHDCons1D.e MHDCons1D.bx MHDCons1D.by_ MHDCons1D.bz
       EOS_Data.pfloor EOS_Data.gamma].
  rewrite static_energy. lra.
Qed.

Lemma negative_density_dfloor :
  dfloor_triggers negative_density_u eos_small_floors = true.
Proof.
  rewrite dfloor_triggers_R. apply Rltb_true_iff.
  cbn [negative_density_u eos_small_floors eos_5_3 MHDCons1D.d EOS_Data.dfloor]. lra.
Qed.

Lemma cold_admissible : sr_admissible (cold_u 0) cold_eos (9 / 16) 0.
Proof.
  unfold sr_admissible, cold_u, cold_eos.
  cbn [MHDCons1D.d MHDCons1D.e EOS_Data.dfloor EOS_Data.pfloor EOS_Data.gamma].
  replace (0 / (5 / 3 - 1)) with 0 by (unfold Rdiv; ring). lra.
Qed.

(** C1, witness: [energy_floor_correction] at the drained state and at the
    cold moving state: the energy floor of the
    non-relativistic converter triggers and the energy handed back is the
    sum of the three energies. *)
Lemma energy_floor_correction_drained :
  (efloor_triggers_mhd drained_u eos_small_floors = true /\
   let res := SingleC2P_IdealMHD drained_u eos_small_floors false false in
   c2p_efloor_used res = true /\
   HydPrim1D.e (c2p_w res) =
     (EOS_Data.pfloor eos_small_floors
      / (EOS_Data.gamma eos_small_floors - 1.0))%real /\
   MHDCons1D.e (c2p_u res) =
     HydPrim1D.e (c2p_w res) + e_kinetic (c2p_u res) + e_magnetic (c2p_u res)) /\
  (eps_floor_triggers_sr (cold_u 0) cold_eos (9 / 16) 0 0 = true /\
   let sres := SingleC2P_IdealSRMHD (cold_u 0) cold_eos (9 / 16) 0 0 false false 0 in
   let rc := sr_recast (cold_u 0) cold_eos (9 / 16) 0 0 in
   let mu := sr_mu (cold_u 0) cold_eos (9 / 16) 0 0 in
   sr_efloor_used sres = true /\
   HydPrim1D.e (sr_w sres) =
     HydPrim1D.d (sr_w sres)
     * eps_floor_at mu (rc_b2 rc) (rc_rpar rc) (rc_r rc)
         (MHDCons1D.d (sr_floored (cold_u 0) cold_eos 0)) cold_eos).
Proof.
  split.
  - split; [exact drained_efloor |].
    exact (proj1 (energy_floor_correction drained_u eos_small_floors 1 2 1
                    false false 0%Z) drained_efloor).
  - split; [exact cold_eps_floor_triggers |].
    exact (proj1 (proj2 (proj2 (proj2
             (energy_floor_correction (cold_u 0) cold_eos (9 / 16) 0 0
                false false 0%Z)))) cold_eps_floor_triggers).
Defined.

(** C2, witness: [nonrel_round_trip] at the warm state. *)
Lemma nonrel_round_trip_warm :
  SingleP2C_IdealMHD
    (with_field (c2p_w (SingleC2P_IdealMHD warm_u eos_small_floors false false)) warm_u)
  = drop_field warm_u.
Proof.
  apply nonrel_round_trip.
  - exact eos_small_floors_valid.
  - exact warm_no_dfloor.
  - exact warm_no_efloor.
Defined.

(** C5, witness: [bracket_function_signs] at the cold moving state. *)
Lemma bracket_function_signs_cold :
  sr_admissible (cold_u 0) cold_eos (9 / 16) 0 /\
  let rc := recast (cold_u 0) (9 / 16) 0 0 in
  let f0 := Equation49 0 (rc_b2 rc) (rc_rpar rc) (rc_r rc) (rc_q rc) in
  let f1 := Equation49 1 (rc_b2 rc) (rc_rpar rc) (rc_r rc) (rc_q rc) in
  let rcf := recast creeping_b64 creeping_s2 (float_lit 0) (float_lit 0) in
  f0 = -1 /\ 0 <= f1 /\
  (f1 = 0 <-> rc_r rc = 0 /\ rc_rpar rc = 0) /\
  (f0 * f1 < 0 <-> ~ (rc_r rc = 0 /\ rc_rpar rc = 0)) /\
  ~ Rabs (0 - 1) < tol /\
  ~ Rabs f0 + Rabs f1 < 2 * tol /\
  (initial_bracket_ok rc <-> ~ (rc_r rc = 0 /\ rc_rpar rc = 0)) /\
  rc_r rcf = float_lit (1 # 134217728) /\
  PrimFloat.ltb (float_lit 0) (rc_r rcf) = true /\
  Equation49 (float_lit 1) (rc_b2 rcf) (rc_rpar rcf) (rc_r rcf) (rc_q rcf)
    = float_lit 0.
Proof.
  split; [exact cold_admissible |].
  exact (@bracket_function_signs (cold_u 0) cold_eos (9 / 16) 0 0 cold_admissible).
Defined.

(** C6, witness: [static_fluid_conversion] at unit pressure with floors of
    [1e-8]. *)
Lemma static_fluid_conversion_unit :
  let sres := SingleC2P_IdealSRMHD (static_u 1) eos_small_floors 0 0 0 false false 0 in
  sr_w sres = HydPrim1D.mk 1 0 0 0 (1 / (5 / 3 - 1)) /\
  sr_u sres = static_u 1 /\
  sr_dfloor_used sres = false /\
  sr_efloor_used sres = false /\
  sr_mu (static_u 1) eos_small_floors 0 0 0 = 1 / (1 + 5 / 2 * 1).
Proof.
  apply (@static_fluid_conversion 1 (/ 100000000) (/ 100000000) false false 0%Z); lra.
Defined.

(** C7, witness: [Equation44_floor_inside] at the root of the cold moving
    state, where
    the unfloored [eps] is negative. *)
Lemma Equation44_floor_inside_cold :
  kastaun_eps (4 / 5) 0 0 (3 / 4) 0 < eps_floor_at (4 / 5) 0 0 (3 / 4) 1 cold_eos /\
  Equation44 (4 / 5) 0 0 (3 / 4) 0 1 cold_eos =
    master_of_eps (4 / 5) 0 0 (3 / 4) cold_eos
      (eps_floor_at (4 / 5) 0 0 (3 / 4) 1 cold_eos).
Proof.
  assert (H : kastaun_eps (4 / 5) 0 0 (3 / 4) 0
              < eps_floor_at (4 / 5) 0 0 (3 / 4) 1 cold_eos)
    by (rewrite cold_eps, cold_eps_floor; lra).
  split; [exact H |].
  exact (proj1 (proj2 (proj2 (proj2
           (Equation44_floor_inside (4 / 5) 0 0 (3 / 4) 0 1 cold_eos)))) H).
Defined.

(** C8, witness: [density_floor_applied] at the state of density [-1] with
    [dfloor = 1e-8]: the flag is raised and the density returned is [1e-8]. *)
Lemma density_floor_applied_negative :
  dfloor_triggers negative_density_u eos_small_floors = true /\
  let res := SingleC2P_IdealMHD negative_density_u eos_small_floors false false in
  let sres := SingleC2P_IdealSRMHD negative_density_u eos_small_floors 0 0 0
                false false 0 in
  MHDCons1D.d (c2p_u res) = / 100000000 /\
  c2p_dfloor_used res = true /\
  HydPrim1D.d (c2p_w res) = / 100000000 /\
  MHDCons1D.d (sr_u sres) = / 100000000 /\
  sr_dfloor_used sres = true.
Proof.
  split; [exact negative_density_dfloor |].
  exact (proj1 (density_floor_applied negative_density_u eos_small_floors 0 0 0
                  false false 0%Z) negative_density_dfloor).
Defined.

(** C10, witness: [conserved_state_frame] at the warm state, which triggers
    no floor: the
    conserved state handed back is the caller's. *)
Lemma conserved_state_frame_warm :
  dfloor_triggers warm_u eos_small_floors = false /\
  efloor_triggers_mhd warm_u eos_small_floors = false /\
  c2p_u (SingleC2P_IdealMHD warm_u eos_small_floors false false) = warm_u.
Proof.
  split; [exact warm_no_dfloor |]. split; [exact warm_no_efloor |].
  destruct (conserved_state_frame warm_u eos_small_floors 1 2 1 false false 0%Z)
    as (_ & _ & _ & _ & _ & H & _).
  exact (H warm_no_dfloor warm_no_efloor).
Defined.

(** X1, witness: [bracket_search_in_unit_interval] at the cold moving
    state. *)
Lemma bracket_search_in_unit_interval_cold :
  0 <= z (bracket_phase (sr_recast (cold_u 0) cold_eos (9 / 16) 0 0)) <= 1.
Proof.
  apply bracket_search_in_unit_interval.
  - exact cold_eos_valid.
  - lra.
  - lra.
Defined.

(** X2, witness: [root_variable_in_unit_interval] at the cold moving state,
    whose bracket
    search ends exactly at the root [4/5] of the bracket function. *)
Lemma root_variable_in_unit_interval_cold :
  0 <= sr_mu (cold_u 0) cold_eos (9 / 16) 0 0
    <= z (bracket_phase (sr_recast (cold_u 0) cold_eos (9 / 16) 0 0)) /\
  z (bracket_phase (sr_recast (cold_u 0) cold_eos (9 / 16) 0 0)) <= 1.
Proof.
  apply (@root_variable_in_unit_interval (cold_u 0) cold_eos (9 / 16) 0 0).
  - exact cold_eos_valid.
  - lra.
  - lra.
  - rewrite cold_sr_recast, cold_bracket_phase.
    cbn [z cold_rc rc_b2 rc_rpar rc_r rc_q].
    rewrite cold_Equation49. lra.
Defined.

(** X5, witness: [static_fluid_round_trip] at unit pressure with floors of
    [1e-8]. *)
Lemma static_fluid_round_trip_unit :
  SingleP2C_IdealSRMHD
    (with_field
       (sr_w (SingleC2P_IdealSRMHD (static_u 1) eos_small_floors 0 0 0
                false false 0))
       (static_u 1)) (5 / 3)
  = drop_field (static_u 1).
Proof.
  apply (@static_fluid_round_trip 1 (/ 100000000) (/ 100000000)); lra.
Defined.

End RealModel.

(** ** Properties in double precision *)

Section Binary64.

Local Notation "'0.0'" := (float_lit 0).
Local Notation "'1.0'" := (float_lit 1).

(** C9, the code at the failing input: for the ultra-relativistic state
    [ultra_u] no floor triggers and the bracket search converges in one
    iteration to [z = 2^-27], where [1 + rbar] rounds to [rbar] and
    [mu*mu*rbar] is exactly 1; eq. 32 divides by zero, the
    Lorentz factor is infinite and [Equation44] is NaN there.  The root
    refinement then runs all 25 iterations on NaN, the final [mu] is NaN
    (neither [0 <= mu] nor [mu <= 1] holds), and every primitive returned is
    NaN. *)
Theorem root_variable_nan_in_binary64 :
  let rc := sr_recast ultra_u eos_small_floors_b64 ultra_s2 0.0 0.0 in
  let z1 := z (bracket_phase rc) in
  let mu := sr_mu ultra_u eos_small_floors_b64 ultra_s2 0.0 0.0 in
  let res := SingleC2P_IdealSRMHD ultra_u eos_small_floors_b64 ultra_s2 0.0 0.0
               false false 0 in
  sr_dfloor_used res = false /\ sr_efloor_used res = false /\
  nbody (bracket_phase rc) = 1%nat /\
  z1 = float_lit (1 # 134217728) /\
  PrimFloat.mul (PrimFloat.mul z1 z1) (kastaun_rbar z1 (rc_b2 rc) (rc_rpar rc) (rc_r rc))
    = 1.0 /\
  PrimFloat.is_nan
    (Equation44 z1 (rc_b2 rc) (rc_rpar rc) (rc_r rc) (rc_q rc) 1.0 eos_small_floors_b64)
    = true /\
  PrimFloat.is_nan mu = true /\
  PrimFloat.leb 0.0 mu = false /\ PrimFloat.leb mu 1.0 = false /\
  PrimFloat.is_nan (HydPrim1D.d (sr_w res)) = true /\
  PrimFloat.is_nan (HydPrim1D.vx (sr_w res)) = true /\
  PrimFloat.is_nan (HydPrim1D.vy (sr_w res)) = true /\
  PrimFloat.is_nan (HydPrim1D.vz (sr_w res)) = true /\
  PrimFloat.is_nan (HydPrim1D.e (sr_w res)) = true /\
  sr_max_iter res = 25%Z.
Proof. vm_compute. repeat split; reflexivity. Qed.

(** The sub-floor density scenario in binary64: for [d = -1] and [dfloor
    = 1e-8] both converters raise the density-floor flag and hand back the
    conserved density [1e-8]; the non-relativistic primitive density is
    [1e-8]. *)
Theorem density_floor_scenario_binary64 :
  let res := SingleC2P_IdealMHD negative_density_b64 eos_small_floors_b64 false false in
  let sres := SingleC2P_IdealSRMHD negative_density_b64 eos_small_floors_b64
                0.0 0.0 0.0 false false 0 in
  c2p_dfloor_used res = true /\
  MHDCons1D.d (c2p_u res) = float_lit (1 # 100000000) /\
  HydPrim1D.d (c2p_w res) = float_lit (1 # 100000000) /\
  sr_dfloor_used sres = true /\
  MHDCons1D.d (sr_u sres) = float_lit (1 # 100000000).
Proof. vm_compute. repeat split; reflexivity. Qed.

(** The cold moving state in binary64: the relativistic converter ends
    after one iteration per phase with a primitive density below the density
    floor 1, the floor on [eps] raises the energy-floor flag and the
    conserved energy handed back is still 0. *)
Theorem cold_state_binary64 :
  let res := SingleC2P_IdealSRMHD cold_b64 cold_eos_b64 (float_lit (9 # 16)) 0.0 0.0
               false false 0 in
  PrimFloat.ltb (HydPrim1D.d (sr_w res)) (EOS_Data.dfloor cold_eos_b64) = true /\
  sr_efloor_used res = true /\
  MHDCons1D.e (sr_u res) = 0.0 /\
  HydPrim1D.e (sr_w res) = 0.0 /\
  sr_max_iter res = 0%Z /\
  nbody (bracket_phase (sr_recast cold_b64 cold_eos_b64 (float_lit (9 # 16)) 0.0 0.0))
    = 1%nat.
Proof. vm_compute. repeat split; reflexivity. Qed.

(** X7: in binary64 the non-relativistic round trip is exact only up to
    rounding: for [d = 49], [mx = 1] the density and the energy come back
    exactly, the momentum comes back as the binary64 number just below 1. *)
Theorem nonrel_round_trip_rounds_in_binary64 :
  let u' := SingleP2C_IdealMHD
              (with_field
                 (c2p_w (SingleC2P_IdealMHD slow_b64 eos_small_floors_b64 false false))
                 slow_b64) in
  dfloor_triggers slow_b64 eos_small_floors_b64 = false /\
  efloor_triggers_mhd slow_b64 eos_small_floors_b64 = false /\
  HydCons1D.d u' = MHDCons1D.d slow_b64 /\
  HydCons1D.e u' = MHDCons1D.e slow_b64 /\
  PrimFloat.ltb (HydCons1D.mx u') (MHDCons1D.mx slow_b64) = true /\
  HydCons1D.mx u' = PrimFloat.sub 1.0 (float_lit (1 # 9007199254740992)).
Proof. vm_compute. repeat split; reflexivity. Qed.

End Binary64.

(** * The rest of ideal_mhd.hpp: properties over the real numbers *)

Section MoreRealModel.

Local Open Scope R_scope.

Ltac to_R :=
  cbn [lit add sub neg mul div sqrt fabs fmax ltb leb R_arith] in *;
  rewrite ?lit_0, ?lit_1, ?lit_2, ?lit_half in *.

Lemma lorentz_u0_R (vx vy vz : R) :
  lorentz_u0 vx vy vz = R_sqrt.sqrt (1 + vx * vx + vy * vy + vz * vz).
Proof. unfold lorentz_u0, SQR. to_R. reflexivity. Qed.

Lemma lorentz_u0_ge_1 (vx vy vz : R) : 1 <= lorentz_u0 vx vy vz.
Proof.
  rewrite lorentz_u0_R. rewrite <- sqrt_1 at 1.
  apply sqrt_le_1_alt. nra.
Qed.

Lemma lorentz_u0_sq (vx vy vz : R) :
  lorentz_u0 vx vy vz * lorentz_u0 vx vy vz = 1 + vx * vx + vy * vy + vz * vz.
Proof. rewrite lorentz_u0_R. apply sqrt_sqrt. nra. Qed.

(** X8: in flat space the general-relativistic map agrees with the
    special-relativistic one on the density and on the three momentum
    components, and returns the energy with the opposite sign (it evolves
    [T^t_t + D], the special-relativistic map [E - D]). *)
Theorem gr_flat_space_agrees_with_sr (w : MHDPrim1D.t R) (gam : R) :
  let g := SingleP2C_IdealGRMHD minkowski minkowski w gam in
  let s := SingleP2C_IdealSRMHD w gam in
  HydCons1D.d g = HydCons1D.d s /\
  HydCons1D.mx g = HydCons1D.mx s /\
  HydCons1D.my g = HydCons1D.my s /\
  HydCons1D.mz g = HydCons1D.mz s /\
  HydCons1D.e g = - HydCons1D.e s.
Proof.
  destruct w as [d vx vy vz e bx by_ bz].
  unfold SingleP2C_IdealGRMHD, SingleP2C_IdealSRMHD, minkowski. cbv zeta.
  cbn [Nat.eqb MHDPrim1D.d MHDPrim1D.vx MHDPrim1D.vy MHDPrim1D.vz MHDPrim1D.e
       MHDPrim1D.bx MHDPrim1D.by_ MHDPrim1D.bz
       HydCons1D.d HydCons1D.mx HydCons1D.my HydCons1D.mz HydCons1D.e].
  pose proof (lorentz_u0_ge_1 vx vy vz) as Hu.
  pose proof (lorentz_u0_sq vx vy vz) as Hsq.
  rewrite lorentz_u0_R in *. unfold SQR. to_R.
  replace (- (1) / - (1)) with 1 by (field; lra).
  rewrite sqrt_1.
  replace (1 + (1 * vx * vx + 2 * 0 * vx * vy + 2 * 0 * vx * vz + 1 * vy * vy
                + 2 * 0 * vy * vz + 1 * vz * vz))
    with (1 + vx * vx + vy * vy + vz * vz) by ring.
  set (u0 := R_sqrt.sqrt (1 + vx * vx + vy * vy + vz * vz)) in *.
  assert (Hu0 : u0 <> 0) by lra.
  repeat split; field; lra.
Qed.

(** X9: for a fluid at rest, magnetized or not, the special-relativistic
    primitive-to-conserved map returns what the non-relativistic one
    returns: the density, no momentum, and the internal plus the magnetic
    energy (the energy it evolves is [E - D]), for every adiabatic index. *)
Theorem sr_p2c_at_rest_is_nonrel (w : MHDPrim1D.t R) (gam : R) :
  MHDPrim1D.vx w = 0 -> MHDPrim1D.vy w = 0 -> MHDPrim1D.vz w = 0 ->
  SingleP2C_IdealSRMHD w gam = SingleP2C_IdealMHD w.
Proof.
  destruct w as [d vx vy vz e bx by_ bz].
  cbn [MHDPrim1D.vx MHDPrim1D.vy MHDPrim1D.vz]. intros -> -> ->.
  unfold SingleP2C_IdealSRMHD, SingleP2C_IdealMHD. cbv zeta.
  cbn [MHDPrim1D.d MHDPrim1D.vx MHDPrim1D.vy MHDPrim1D.vz MHDPrim1D.e
       MHDPrim1D.bx MHDPrim1D.by_ MHDPrim1D.bz].
  rewrite lorentz_u0_R. unfold SQR. to_R.
  replace (1 + 0 * 0 + 0 * 0 + 0 * 0) with 1 by ring. rewrite sqrt_1.
  f_equal; field.
Qed.

(** X10: the non-relativistic maps in the other order: a primitive state of
    non-zero density that is at or above both floors is recovered exactly by
    [SingleC2P_IdealMHD] from the conserved state [SingleP2C_IdealMHD]
    builds; the conserved state is handed back as it was and no flag
    changes. *)
Theorem nonrel_prim_round_trip (w : MHDPrim1D.t R) (eos : EOS_Data.t R)
    (dfloor_used efloor_used : bool) :
  MHDPrim1D.d w <> 0 ->
  EOS_Data.dfloor eos <= MHDPrim1D.d w ->
  EOS_Data.pfloor eos / (EOS_Data.gamma eos - 1) <= MHDPrim1D.e w ->
  let u := cons_with_field (SingleP2C_IdealMHD w) w in
  let res := SingleC2P_IdealMHD u eos dfloor_used efloor_used in
  c2p_w res = prim_drop_field w /\ c2p_u res = u /\
  c2p_dfloor_used res = dfloor_used /\ c2p_efloor_used res = efloor_used.
Proof.
  intros Hd0 Hd He u res. subst res u.
  destruct w as [d vx vy vz e bx by_ bz].
  cbn [MHDPrim1D.d MHDPrim1D.e] in Hd0, Hd, He.
  unfold SingleC2P_IdealMHD, SingleP2C_IdealMHD, cons_with_field, prim_drop_field,
    apply_dfloor, SQR.
  cbv zeta.
  cbn [MHDPrim1D.d MHDPrim1D.vx MHDPrim1D.vy MHDPrim1D.vz MHDPrim1D.e
       MHDPrim1D.bx MHDPrim1D.by_ MHDPrim1D.bz
       HydCons1D.d HydCons1D.mx HydCons1D.my HydCons1D.mz HydCons1D.e
       MHDCons1D.d MHDCons1D.mx MHDCons1D.my MHDCons1D.mz MHDCons1D.e
       MHDCons1D.bx MHDCons1D.by_ MHDCons1D.bz].
  to_R.
  replace (Rltb d (EOS_Data.dfloor eos)) with false
    by (symmetry; apply Rltb_false_iff; exact Hd).
  cbn [MHDCons1D.d MHDCons1D.mx MHDCons1D.my MHDCons1D.mz MHDCons1D.e
       MHDCons1D.bx MHDCons1D.by_ MHDCons1D.bz].
  match goal with |- context [Rltb ?a ?b] =>
    replace a with e by (field; exact Hd0)
  end.
  replace (Rltb e (EOS_Data.pfloor eos / (EOS_Data.gamma eos - 1))) with false
    by (symmetry; apply Rltb_false_iff; exact He).
  cbn [c2p_w c2p_u c2p_dfloor_used c2p_efloor_used].
  repeat split. f_equal; field; exact Hd0.
Qed.

(** X11: the floors of [SingleC2P_IdealMHD] are idempotent in exact
    arithmetic: handed the conserved state it has just returned, the
    converter returns the same conserved and primitive states and raises no
    flag, for every input and every choice of EOS parameters. *)
Theorem nonrel_floors_idempotent (u : MHDCons1D.t R) (eos : EOS_Data.t R)
    (dfloor_used efloor_used : bool) :
  let r1 := SingleC2P_IdealMHD u eos dfloor_used efloor_used in
  let r2 := SingleC2P_IdealMHD (c2p_u r1) eos false false in
  c2p_u r2 = c2p_u r1 /\ c2p_w r2 = c2p_w r1 /\
  c2p_dfloor_used r2 = false /\ c2p_efloor_used r2 = false.
Proof.
  destruct u as [d mx my mz e bx by_ bz]. destruct eos as [g df pf].
  cbv zeta.
  assert (Hstep : forall (d1 : R) (f1 f2 : bool),
    df <= d1 ->
    forall e1 : R,
    pf / (g - 1) <= e1 - / 2 * (1 / d1) * (mx * mx + my * my + mz * mz)
                       - / 2 * (bx * bx + by_ * by_ + bz * bz) ->
    SingleC2P_IdealMHD (MHDCons1D.mk d1 mx my mz e1 bx by_ bz)
      (EOS_Data.mk g df pf) f1 f2
    = mkC2P (MHDCons1D.mk d1 mx my mz e1 bx by_ bz)
        (HydPrim1D.mk d1 (1 / d1 * mx) (1 / d1 * my) (1 / d1 * mz)
           (e1 - / 2 * (1 / d1) * (mx * mx + my * my + mz * mz)
               - / 2 * (bx * bx + by_ * by_ + bz * bz)))
        f1 f2).
  { intros d1 f1 f2 Hd1 e1 He1.
    unfold SingleC2P_IdealMHD, apply_dfloor, SQR. cbv zeta.
    cbn [MHDCons1D.d MHDCons1D.mx MHDCons1D.my MHDCons1D.mz MHDCons1D.e
         MHDCons1D.bx MHDCons1D.by_ MHDCons1D.bz
         EOS_Data.gamma EOS_Data.dfloor EOS_Data.pfloor].
    to_R.
    replace (Rltb d1 df) with false by (symmetry; apply Rltb_false_iff; exact Hd1).
    cbn [MHDCons1D.d MHDCons1D.mx MHDCons1D.my MHDCons1D.mz MHDCons1D.e
         MHDCons1D.bx MHDCons1D.by_ MHDCons1D.bz].
    apply Rltb_false_iff in He1. rewrite He1. reflexivity. }
  assert (Hfirst : exists d1 e1 : R,
    df <= d1 /\
    pf / (g - 1) <= e1 - / 2 * (1 / d1) * (mx * mx + my * my + mz * mz)
                       - / 2 * (bx * bx + by_ * by_ + bz * bz) /\
    c2p_u (SingleC2P_IdealMHD (MHDCons1D.mk d mx my mz e bx by_ bz)
             (EOS_Data.mk g df pf) dfloor_used efloor_used)
      = MHDCons1D.mk d1 mx my mz e1 bx by_ bz /\
    c2p_w (SingleC2P_IdealMHD (MHDCons1D.mk d mx my mz e bx by_ bz)
             (EOS_Data.mk g df pf) dfloor_used efloor_used)
      = HydPrim1D.mk d1 (1 / d1 * mx) (1 / d1 * my) (1 / d1 * mz)
          (e1 - / 2 * (1 / d1) * (mx * mx + my * my + mz * mz)
              - / 2 * (bx * bx + by_ * by_ + bz * bz))).
  { unfold SingleC2P_IdealMHD, apply_dfloor, SQR. cbv zeta.
    cbn [MHDCons1D.d MHDCons1D.mx MHDCons1D.my MHDCons1D.mz MHDCons1D.e
         MHDCons1D.bx MHDCons1D.by_ MHDCons1D.bz
         EOS_Data.gamma EOS_Data.dfloor EOS_Data.pfloor].
    to_R.
    destruct (Rltb d df) eqn:E1;
      cbn [MHDCons1D.d MHDCons1D.mx MHDCons1D.my MHDCons1D.mz MHDCons1D.e
           MHDCons1D.bx MHDCons1D.by_ MHDCons1D.bz MHDCons1D.set_d];
      match goal with |- context [Rltb ?a ?b] => destruct (Rltb a b) eqn:E2 end;
      cbn [c2p_u c2p_w MHDCons1D.set_e MHDCons1D.d MHDCons1D.mx MHDCons1D.my
           MHDCons1D.mz MHDCons1D.e MHDCons1D.bx MHDCons1D.by_ MHDCons1D.bz];
      try apply Rltb_false_iff in E1; try apply Rltb_false_iff in E2;
      eexists; eexists; (split; [| split; [| split; [reflexivity |]]]);
      cbn [MHDCons1D.set_e MHDCons1D.set_d MHDCons1D.d MHDCons1D.mx MHDCons1D.my
           MHDCons1D.mz MHDCons1D.e MHDCons1D.bx MHDCons1D.by_ MHDCons1D.bz];
      first [ assumption | apply Rle_refl | apply Req_le; unfold Rdiv; ring
            | f_equal; unfold Rdiv; ring ]. }
  destruct Hfirst as (d1 & e1 & Hd1 & He1 & -> & ->).
  rewrite (Hstep d1 false false Hd1 e1 He1).
  cbn [c2p_u c2p_w c2p_dfloor_used c2p_efloor_used].
  repeat split.
Qed.

(** *** The unmagnetized case, for every momentum *)

Lemma Equation49_hydro (mu r q : R) :
  Equation49 mu 0 0 r q = mu * R_sqrt.sqrt (1 + r * r) - 1.
Proof. rewrite Equation49_R, kastaun_rbar_hydro. reflexivity. Qed.

Lemma sqrt_1_plus_sq_ge_1 (r : R) : 1 <= R_sqrt.sqrt (1 + r * r).
Proof. rewrite <- sqrt_1 at 1. apply sqrt_le_1_alt. nra. Qed.

Lemma hydro_bracket_phase (rc : Recast (Real := R)) :
  rc_b2 rc = 0 -> rc_rpar rc = 0 ->
  bracket_phase rc =
    mkFP 0 1 (-1) (R_sqrt.sqrt (1 + rc_r rc * rc_r rc) - 1)
      (1 / R_sqrt.sqrt (1 + rc_r rc * rc_r rc)) 0%Z 1%nat.
Proof.
  intros Hb Hr. unfold bracket_phase. rewrite Hb, Hr. to_R.
  pose proof tol_pos as Ht.
  pose proof (sqrt_1_plus_sq_ge_1 (rc_r rc)) as Hs.
  rewrite false_position_one_step; rewrite ?Equation49_hydro;
    set (s := R_sqrt.sqrt (1 + rc_r rc * rc_r rc)) in *.
  - f_equal; try lra. field. lra.
  - replace (0 - 1) with (- (1)) by lra. rewrite Rabs_Ropp, Rabs_R1. lra.
  - replace (0 * s - 1) with (- (1)) by lra.
    rewrite Rabs_Ropp, Rabs_R1. pose proof (Rabs_pos (1 * s - 1)). lra.
  - replace ((0 * (1 * s - 1) - 1 * (0 * s - 1)) / (1 * s - 1 - (0 * s - 1)) * s - 1)
      with 0 by (field; lra).
    rewrite Rabs_R0. lra.
Qed.

Lemma sr_recast_hydro (u : MHDCons1D.t R) (eos : EOS_Data.t R) (s2 : R) :
  rc_b2 (sr_recast u eos s2 0 0) = 0 /\ rc_rpar (sr_recast u eos s2 0 0) = 0.
Proof.
  unfold sr_recast, recast. cbv zeta. cbn [rc_b2 rc_rpar]. to_R.
  split; unfold Rdiv; ring.
Qed.

(** X12: for every conserved state handed to [SingleC2P_IdealSRMHD] with
    [b2 = 0] and [rpar = 0] (no magnetic field), whatever its density,
    momentum and energy, the bracket search on [Equation49] ends in its
    first loop body, with [iter = 0], at [z = 1/sqrt(1 + r*r)], which lies in
    (0, 1]. *)
Theorem unmagnetized_bracket_search (u : MHDCons1D.t R) (eos : EOS_Data.t R) (s2 : R) :
  let rc := sr_recast u eos s2 0 0 in
  let p1 := bracket_phase rc in
  z p1 = 1 / R_sqrt.sqrt (1 + rc_r rc * rc_r rc) /\
  iter p1 = 0%Z /\ nbody p1 = 1%nat /\ 0 < z p1 <= 1.
Proof.
  intros rc p1. subst p1.
  destruct (sr_recast_hydro u eos s2) as [Hb Hr]. fold rc in Hb, Hr.
  rewrite (hydro_bracket_phase rc Hb Hr). cbn [z iter nbody].
  pose proof (sqrt_1_plus_sq_ge_1 (rc_r rc)) as Hs.
  set (s := R_sqrt.sqrt (1 + rc_r rc * rc_r rc)) in *.
  repeat split.
  - apply Rdiv_lt_0_compat; lra.
  - apply Rmult_le_reg_r with s; [lra |].
    replace (1 / s * s) with 1 by (field; lra). lra.
Qed.

(** *** The root variable that belongs to a primitive state *)

Lemma kastaun_z2_hydro (mu r : R) :
  mu * mu * (r * r) < 1 ->
  kastaun_z2 mu 0 0 r = mu * mu * (r * r) / (1 - mu * mu * (r * r)).
Proof.
  intros H. rewrite kastaun_z2_R, kastaun_rbar_hydro.
  rewrite Rabs_pos_eq by lra. reflexivity.
Qed.

Section ExactRoot.

(** A Lorentz factor [W], a specific enthalpy [h], a specific internal
    energy [eps] and an adiabatic index [g], with the recast momentum [r] and
    energy [q] of the conserved state that belongs to them. *)
Variables (W h eps g r q : R).
Hypothesis HW : 1 <= W.
Hypothesis Hh : h = 1 + g * eps.
Hypothesis Hh1 : 1 <= h.
Hypothesis Hr : r * r = h * h * (W * W - 1).
Hypothesis Hq : q = h * W - (g - 1) * eps / W - 1.

Lemma exact_mu_r2 : 1 / (W * h) * (1 / (W * h)) * (r * r) = (W * W - 1) / (W * W).
Proof. rewrite Hr. field. lra. Qed.

Lemma exact_mu_r2_lt_1 : 1 / (W * h) * (1 / (W * h)) * (r * r) < 1.
Proof.
  rewrite exact_mu_r2.
  apply Rmult_lt_reg_r with (W * W); [nra |].
  replace ((W * W - 1) / (W * W) * (W * W)) with (W * W - 1) by (field; lra).
  lra.
Qed.

Lemma exact_z2 : kastaun_z2 (1 / (W * h)) 0 0 r = W * W - 1.
Proof.
  rewrite kastaun_z2_hydro by exact exact_mu_r2_lt_1.
  rewrite exact_mu_r2. field. lra.
Qed.

Lemma exact_lorentz : kastaun_lorentz (1 / (W * h)) 0 0 r = W.
Proof.
  rewrite kastaun_lorentz_R, exact_z2.
  apply sqrt_of_square; [lra | ring].
Qed.

Lemma exact_eps : kastaun_eps (1 / (W * h)) 0 0 r q = eps.
Proof.
  rewrite kastaun_eps_R, exact_lorentz, exact_z2, kastaun_qbar_hydro,
    kastaun_rbar_hydro, Hr, Hq, Hh.
  rewrite Hh in Hh1. field. lra.
Qed.

Lemma exact_master (eos : EOS_Data.t R) :
  EOS_Data.gamma eos = g ->
  master_of_eps (1 / (W * h)) 0 0 r eos eps = 0.
Proof.
  intros Hg. rewrite master_of_eps_R, exact_lorentz, kastaun_rbar_hydro, Hr, Hg, <- Hh.
  field. nra.
Qed.

Lemma exact_mu_in_bracket :
  0 < 1 / (W * h) <= 1 / R_sqrt.sqrt (1 + r * r).
Proof.
  pose proof (sqrt_1_plus_sq_ge_1 r) as Hs.
  assert (Hs2 : R_sqrt.sqrt (1 + r * r) * R_sqrt.sqrt (1 + r * r) = 1 + r * r)
    by (apply sqrt_sqrt; nra).
  set (s := R_sqrt.sqrt (1 + r * r)) in *.
  assert (HWh : 1 <= W * h) by nra.
  split.
  - apply Rdiv_lt_0_compat; lra.
  - assert (Hle : s <= W * h).
    { destruct (Rle_lt_dec s (W * h)) as [Hok | Hbad]; [exact Hok | exfalso].
      assert (W * h * (W * h) < s * s) by nra.
      rewrite Hs2, Hr in H. nra. }
    apply Rmult_le_reg_r with (W * h * s); [nra |].
    replace (1 / (W * h) * (W * h * s)) with s by (field; lra).
    replace (1 / s * (W * h * s)) with (W * h) by (field; lra).
    exact Hle.
Qed.

End ExactRoot.

Lemma sr_cons_of_prim_R (d vx vy vz e g : R) :
  sr_cons_of_prim (HydPrim1D.mk d vx vy vz e) g =
    MHDCons1D.mk (d * lorentz_u0 vx vy vz)
      ((d + g * e) * lorentz_u0 vx vy vz * vx)
      ((d + g * e) * lorentz_u0 vx vy vz * vy)
      ((d + g * e) * lorentz_u0 vx vy vz * vz)
      ((d + g * e) * lorentz_u0 vx vy vz * lorentz_u0 vx vy vz - (g - 1) * e
       - d * lorentz_u0 vx vy vz)
      0 0 0.
Proof.
  pose proof (lorentz_u0_ge_1 vx vy vz) as HW.
  unfold sr_cons_of_prim, cons_with_field, unmagnetized, SingleP2C_IdealSRMHD.
  cbv zeta.
  cbn [MHDPrim1D.d MHDPrim1D.vx MHDPrim1D.vy MHDPrim1D.vz MHDPrim1D.e
       MHDPrim1D.bx MHDPrim1D.by_ MHDPrim1D.bz
       HydPrim1D.d HydPrim1D.vx HydPrim1D.vy HydPrim1D.vz HydPrim1D.e
       HydCons1D.d HydCons1D.mx HydCons1D.my HydCons1D.mz HydCons1D.e].
  set (W := lorentz_u0 vx vy vz) in *.
  unfold SQR. to_R.
  f_equal; field; lra.
Qed.

(** X13: the relativistic maps in the other order, at the exact root.  For
    an unmagnetized primitive state (velocity components those of the
    4-velocity) at or above both floors, with valid EOS parameters, take the
    conserved state [SingleP2C_IdealSRMHD] builds and hand it to
    [SingleC2P_IdealSRMHD] with [s2] the squared momentum and [b2 = rpar =
    0].  Then neither entry floor changes it; [mu = 1/(W h)] lies in the
    bracket the bracket search returns and is a root of [Equation44]; and
    the final step of the converter, run at that [mu], returns the primitive
    state one started from, leaving the energy-floor flag alone when the
    pressure is strictly above the floor. *)
Theorem sr_exact_root_inverts (w : HydPrim1D.t R) (eos : EOS_Data.t R)
    (efloor_used : bool) :
  eos_valid eos ->
  EOS_Data.dfloor eos <= HydPrim1D.d w ->
  EOS_Data.pfloor eos <= (EOS_Data.gamma eos - 1) * HydPrim1D.e w ->
  let gam := EOS_Data.gamma eos in
  let u := sr_cons_of_prim w gam in
  let rc := sr_recast u eos (momentum_sq u) 0 0 in
  let mu := prim_mu w gam in
  sr_floored u eos 0 = u /\
  0 < mu <= z (bracket_phase rc) /\
  Equation44 mu (rc_b2 rc) (rc_rpar rc) (rc_r rc) (rc_q rc) (MHDCons1D.d u) eos = 0 /\
  fst (primitives_from_mu u eos rc mu efloor_used) = w /\
  (EOS_Data.pfloor eos < (gam - 1) * HydPrim1D.e w ->
   snd (primitives_from_mu u eos rc mu efloor_used) = efloor_used).
Proof.
  intros (Hg & Hdf & Hpf) Hd Hp gam u rc mu.
  destruct w as [d vx vy vz e]. destruct eos as [g df pf].
  cbn [HydPrim1D.d HydPrim1D.e EOS_Data.gamma EOS_Data.dfloor EOS_Data.pfloor] in *.
  subst gam.
  pose proof (lorentz_u0_ge_1 vx vy vz) as HW.
  pose proof (lorentz_u0_sq vx vy vz) as HW2.
  assert (Hd0 : 0 < d) by lra.
  assert (He0 : 0 <= e) by nra.
  assert (Hu : u = MHDCons1D.mk (d * lorentz_u0 vx vy vz)
      ((d + g * e) * lorentz_u0 vx vy vz * vx)
      ((d + g * e) * lorentz_u0 vx vy vz * vy)
      ((d + g * e) * lorentz_u0 vx vy vz * vz)
      ((d + g * e) * lorentz_u0 vx vy vz * lorentz_u0 vx vy vz - (g - 1) * e
       - d * lorentz_u0 vx vy vz) 0 0 0)
    by (subst u; apply sr_cons_of_prim_R).
  assert (Hmu : mu = 1 / (lorentz_u0 vx vy vz * (1 + g * (e / d)))).
  { subst mu. unfold prim_mu, prim_enthalpy.
    cbn [HydPrim1D.d HydPrim1D.vx HydPrim1D.vy HydPrim1D.vz HydPrim1D.e]. to_R.
    reflexivity. }
  assert (Hrc : rc = sr_recast u (EOS_Data.mk g df pf) (momentum_sq u) 0 0)
    by reflexivity.
  clearbody rc u mu. subst u mu.
  set (W := lorentz_u0 vx vy vz) in *.
  set (eps := e / d).
  set (h := 1 + g * eps).
  assert (Heps : 0 <= eps) by (apply Rmult_le_pos; [lra | left; apply Rinv_0_lt_compat; lra]).
  assert (Hh1 : 1 <= h) by (subst h; nra).
  assert (Hde : d + g * e = d * h) by (subst h eps; field; lra).
  rewrite Hde in *.
  set (u := MHDCons1D.mk (d * W) (d * h * W * vx) (d * h * W * vy) (d * h * W * vz)
              (d * h * W * W - (g - 1) * e - d * W) 0 0 0) in *.
  set (eos := EOS_Data.mk g df pf) in *.
  (* neither entry floor triggers *)
  assert (Hfl : sr_floored u eos 0 = u).
  { unfold sr_floored, apply_dfloor, apply_efloor_sr. cbv zeta.
    cbn [u eos MHDCons1D.d EOS_Data.dfloor EOS_Data.pfloor EOS_Data.gamma]. to_R.
    replace (Rltb (d * W) df) with false by (symmetry; apply Rltb_false_iff; nra).
    cbn [fst MHDCons1D.e].
    replace (Rltb _ _) with false; [reflexivity |].
    symmetry. apply Rltb_false_iff.
    assert (pf / (g - 1) <= e).
    { apply Rmult_le_reg_r with (g - 1); [lra |].
      replace (pf / (g - 1) * (g - 1)) with pf by (field; lra). lra. }
    assert (e <= d * h * W * W - (g - 1) * e - d * W).
    { subst h. replace (d * (1 + g * eps)) with (d + g * e) by (subst eps; field; lra).
      assert (0 <= d * W * (W - 1)) by (apply Rmult_le_pos; nra).
      assert (0 <= g * e * (W * W - 1)) by (apply Rmult_le_pos; nra).
      lra. }
    cbn [u MHDCons1D.e]. lra. }
  (* the recast variables *)
  assert (Hs2 : momentum_sq u = d * h * W * (d * h * W) * (W * W - 1)).
  { unfold momentum_sq, SQR. cbn [u MHDCons1D.mx MHDCons1D.my MHDCons1D.mz]. to_R.
    rewrite HW2. ring. }
  unfold sr_recast in Hrc. rewrite Hfl in Hrc. subst rc.
  set (rc := recast u (momentum_sq u) 0 0).
  set (r := rc_r rc).
  set (q := rc_q rc).
  assert (Hb2 : rc_b2 rc = 0)
    by (subst rc; unfold recast; cbv zeta; cbn [rc_b2]; to_R; unfold Rdiv; ring).
  assert (Hrpar : rc_rpar rc = 0)
    by (subst rc; unfold recast; cbv zeta; cbn [rc_rpar]; to_R; ring).
  assert (Hbx : rc_bx rc = 0 /\ rc_by rc = 0 /\ rc_bz rc = 0).
  { subst rc; unfold recast; cbv zeta; cbn [rc_bx rc_by rc_bz u MHDCons1D.bx
      MHDCons1D.by_ MHDCons1D.bz]; to_R. repeat split; ring. }
  assert (Hr : r * r = h * h * (W * W - 1)).
  { subst r rc. unfold recast. cbv zeta. cbn [rc_r u MHDCons1D.d]. to_R.
    rewrite Hs2.
    assert (Hs : 0 <= d * h * W * (d * h * W) * (W * W - 1)) by nra.
    pose proof (sqrt_sqrt _ Hs) as Hss.
    set (sq := R_sqrt.sqrt (d * h * W * (d * h * W) * (W * W - 1))) in *.
    replace (sq / (d * W) * (sq / (d * W))) with (sq * sq / (d * W * (d * W)))
      by (field; lra).
    rewrite Hss. field. lra. }
  assert (Hq : q = h * W - (g - 1) * eps / W - 1).
  { subst q rc. unfold recast. cbv zeta. cbn [rc_q u MHDCons1D.d MHDCons1D.e]. to_R.
    subst eps. field. lra. }
  assert (Hh : h = 1 + g * eps) by reflexivity.
  pose proof (exact_lorentz HW Hh1 Hr) as Hlor.
  pose proof (exact_eps HW Hh Hh1 Hr Hq) as Heps'.
  assert (Hfloor : eps_floor_at (1 / (W * h)) 0 0 r (d * W) eos = pf / (d * (g - 1))).
  { rewrite eps_floor_at_R, Hlor. cbn [eos EOS_Data.pfloor EOS_Data.gamma].
    field. lra. }
  assert (Hfe : pf / (d * (g - 1)) <= eps).
  { subst eps. apply Rmult_le_reg_r with (d * (g - 1)); [nra |].
    replace (pf / (d * (g - 1)) * (d * (g - 1))) with pf by (field; lra).
    replace (e / d * (d * (g - 1))) with ((g - 1) * e) by (field; lra). exact Hp. }
  split; [exact Hfl |].
  split.
  { rewrite (hydro_bracket_phase rc Hb2 Hrpar). cbn [z]. fold r.
    exact (exact_mu_in_bracket HW Hh1 Hr). }
  split.
  { rewrite Hb2, Hrpar. fold r q. cbn [u MHDCons1D.d].
    rewrite Equation44_R, Hfloor, Heps', Rmax_right by exact Hfe.
    apply (exact_master HW Hh Hh1 Hr). reflexivity. }
  pose proof (primitives_from_mu_kastaun u eos rc (1 / (W * h)) efloor_used) as Hprim.
  cbv zeta in Hprim. rewrite Hprim. clear Hprim.
  destruct Hbx as (Hbx & Hby & Hbz).
  rewrite Hb2, Hrpar, Hbx, Hby, Hbz. fold r q.
  cbn [u MHDCons1D.d MHDCons1D.mx MHDCons1D.my MHDCons1D.mz].
  rewrite Hfloor, Heps', Hlor. to_R.
  cbn [fst snd eos EOS_Data.gamma].
  split.
  - destruct (Rleb eps (pf / (d * (g - 1)))) eqn:E.
    + apply Rleb_true_iff in E.
      assert (Heq : pf / (d * (g - 1)) = eps) by lra. rewrite Heq. fold h.
      f_equal; subst eps; field; lra.
    + fold h. f_equal; subst eps; field; lra.
  - intros Hstrict.
    replace (Rleb eps (pf / (d * (g - 1)))) with false; [reflexivity |].
    symmetry. apply Rleb_false_iff.
    subst eps. apply Rmult_lt_reg_r with (d * (g - 1)); [nra |].
    replace (pf / (d * (g - 1)) * (d * (g - 1))) with pf by (field; lra).
    replace (e / d * (d * (g - 1))) with ((g - 1) * e) by (field; lra). exact Hstrict.
Qed.

(** *** A fluid at rest, for every density and adiabatic index *)

Lemma rest_Equation44 (mu q d : R) (eos : EOS_Data.t R) :
  0 < d -> 1 < EOS_Data.gamma eos ->
  EOS_Data.pfloor eos / (d * (EOS_Data.gamma eos - 1)) <= q ->
  0 <= q ->
  Equation44 mu 0 0 0 q d eos = mu - 1 / (1 + EOS_Data.gamma eos * q).
Proof.
  intros Hd Hg Hfl Hq.
  rewrite Equation44_R, static_eps, eps_floor_at_R, static_lorentz.
  replace (d / 1 * (EOS_Data.gamma eos - 1)) with (d * (EOS_Data.gamma eos - 1))
    by (field; lra).
  rewrite Rmax_right by exact Hfl.
  rewrite master_of_eps_R, static_lorentz, kastaun_rbar_hydro.
  field. nra.
Qed.

Lemma rest_root_phase (rc : Recast (Real := R)) (d : R) (eos : EOS_Data.t R) :
  rc_b2 rc = 0 -> rc_rpar rc = 0 -> rc_r rc = 0 ->
  0 < d -> 1 < EOS_Data.gamma eos ->
  EOS_Data.pfloor eos / (d * (EOS_Data.gamma eos - 1)) <= rc_q rc ->
  0 <= rc_q rc ->
  z (root_phase rc d eos 1) = 1 / (1 + EOS_Data.gamma eos * rc_q rc) /\
  iter (root_phase rc d eos 1) = 0%Z.
Proof.
  intros Hb Hrp Hr Hd Hg Hfl Hq.
  unfold root_phase. rewrite Hb, Hrp, Hr. to_R.
  pose proof tol_pos as Ht.
  set (a := 1 / (1 + EOS_Data.gamma eos * rc_q rc)).
  assert (Ha : 0 < a <= 1).
  { assert (Hpos : 0 < a) by (unfold a; apply Rdiv_lt_0_compat; nra).
    assert (Hm : a * (1 + EOS_Data.gamma eos * rc_q rc) = 1) by (unfold a; field; nra).
    assert (Hgq : 0 <= EOS_Data.gamma eos * rc_q rc) by nra.
    assert (Hagq : 0 <= a * (EOS_Data.gamma eos * rc_q rc))
      by (apply Rmult_le_pos; lra).
    split; [exact Hpos | lra]. }
  rewrite false_position_one_step;
    repeat rewrite (fun mu => @rest_Equation44 mu _ _ _ Hd Hg Hfl Hq); fold a.
  - cbn [z iter]. split; [field; lra | reflexivity].
  - replace (0 - 1) with (- (1)) by lra. rewrite Rabs_Ropp, Rabs_R1. lra.
  - replace (0 - a) with (- a) by lra.
    rewrite Rabs_Ropp, (Rabs_pos_eq a), (Rabs_pos_eq (1 - a)) by lra. lra.
  - replace ((0 * (1 - a) - 1 * (0 - a)) / (1 - a - (0 - a)) - a) with 0
      by (field; lra).
    rewrite Rabs_R0. lra.
Qed.

(** X14: a fluid at rest, of any density and for any adiabatic index.  For a
    conserved state without momentum, at or above both floors, handed to
    [SingleC2P_IdealSRMHD] with [s2 = b2 = rpar = 0] and valid EOS
    parameters: each solver phase ends in its first loop body, the root
    variable ends at [1/h] with [h = 1 + gamma*e/d], the primitive state
    returned is the density, zero velocity and the energy of the conserved
    state, which is handed back unchanged, and the density-floor flag is the
    caller's.  The energy-floor flag is the caller's when the energy is
    strictly above the floor, and is raised when the energy sits exactly on
    the floor (the test on [eps] is not strict). *)
Theorem sr_fluid_at_rest (u : MHDCons1D.t R) (eos : EOS_Data.t R)
    (dfloor_used efloor_used : bool) (max_iter : Z) :
  eos_valid eos ->
  EOS_Data.dfloor eos <= MHDCons1D.d u ->
  MHDCons1D.mx u = 0 -> MHDCons1D.my u = 0 -> MHDCons1D.mz u = 0 ->
  EOS_Data.pfloor eos / (EOS_Data.gamma eos - 1) <= MHDCons1D.e u ->
  let res := SingleC2P_IdealSRMHD u eos 0 0 0 dfloor_used efloor_used max_iter in
  sr_w res = HydPrim1D.mk (MHDCons1D.d u) 0 0 0 (MHDCons1D.e u) /\
  sr_u res = u /\
  sr_dfloor_used res = dfloor_used /\
  (EOS_Data.pfloor eos / (EOS_Data.gamma eos - 1) < MHDCons1D.e u ->
   sr_efloor_used res = efloor_used) /\
  (EOS_Data.pfloor eos / (EOS_Data.gamma eos - 1) = MHDCons1D.e u ->
   sr_efloor_used res = true) /\
  sr_mu u eos 0 0 0 = 1 / (1 + EOS_Data.gamma eos * (MHDCons1D.e u / MHDCons1D.d u)) /\
  sr_max_iter res = Z.max 0 max_iter.
Proof.
  intros (Hg & Hdf & Hpf) Hd Hmx Hmy Hmz He res.
  destruct (SingleC2P_IdealSRMHD_stages u eos 0 0 0 dfloor_used efloor_used max_iter)
    as (Hu & Hw & Hdu & Hfu & Hmax).
  fold res in Hu, Hw, Hdu, Hfu, Hmax.
  destruct u as [d mx my mz e bx by_ bz]. destruct eos as [g df pf].
  cbn [MHDCons1D.d MHDCons1D.mx MHDCons1D.my MHDCons1D.mz MHDCons1D.e
       EOS_Data.gamma EOS_Data.dfloor EOS_Data.pfloor] in *.
  subst mx my mz.
  set (u := MHDCons1D.mk d 0 0 0 e bx by_ bz) in *.
  set (eos := EOS_Data.mk g df pf) in *.
  assert (Hd0 : 0 < d) by lra.
  assert (Hfl0 : 0 <= pf / (g - 1))
    by (apply Rmult_le_pos; [lra | left; apply Rinv_0_lt_compat; lra]).
  assert (Hnd : dfloor_triggers u eos = false).
  { unfold dfloor_triggers. cbn [u eos MHDCons1D.d EOS_Data.dfloor]. to_R.
    apply Rltb_false_iff. exact Hd. }
  assert (Hne : efloor_triggers_sr u eos 0 = false).
  { unfold efloor_triggers_sr.
    cbn [u eos MHDCons1D.e EOS_Data.pfloor EOS_Data.gamma]. to_R.
    apply Rltb_false_iff. lra. }
  assert (Hfl : sr_floored u eos 0 = u).
  { apply cons_eta; try apply sr_floored_frame.
    - rewrite sr_floored_d, Hnd. reflexivity.
    - rewrite sr_floored_e, Hne. reflexivity. }
  set (rc := sr_recast u eos 0 0 0) in *.
  destruct (sr_recast_hydro u eos 0) as [Hb2 Hrpar]. fold rc in Hb2, Hrpar.
  assert (Hr : rc_r rc = 0).
  { subst rc. unfold sr_recast, recast. cbv zeta. cbn [rc_r]. to_R.
    rewrite sqrt_0. unfold Rdiv. ring. }
  assert (Hq : rc_q rc = e / d).
  { subst rc. unfold sr_recast. rewrite Hfl. reflexivity. }
  assert (Heps : pf / (d * (g - 1)) <= e / d).
  { replace (pf / (d * (g - 1))) with (pf / (g - 1) / d) by (field; lra).
    apply Rmult_le_compat_r; [left; apply Rinv_0_lt_compat; lra | exact He]. }
  assert (Hq0 : 0 <= e / d)
    by (apply Rmult_le_pos; [lra | left; apply Rinv_0_lt_compat; lra]).
  assert (Hz1 : z (bracket_phase rc) = 1).
  { rewrite (hydro_bracket_phase rc Hb2 Hrpar). cbn [z]. rewrite Hr.
    replace (1 + 0 * 0) with 1 by ring. rewrite sqrt_1. field. }
  assert (Hi1 : iter (bracket_phase rc) = 0%Z)
    by (rewrite (hydro_bracket_phase rc Hb2 Hrpar); reflexivity).
  rewrite Hfl, Hz1, Hi1 in *.
  cbn [u MHDCons1D.d] in Hw, Hfu, Hmax.
  destruct (@rest_root_phase rc d eos Hb2 Hrpar Hr Hd0 Hg) as [Hz2 Hi2];
    [rewrite Hq; exact Heps | rewrite Hq; exact Hq0 |].
  rewrite Hq in Hz2. cbn [eos EOS_Data.gamma] in Hz2.
  rewrite Hz2, ?Hi2 in *.
  pose proof (primitives_from_mu_kastaun u eos rc (1 / (1 + g * (e / d)))) as Hprim.
  cbv zeta in Hprim.
  rewrite Hb2, Hrpar, Hr, Hq, static_lorentz, static_eps in Hprim.
  rewrite eps_floor_at_R, static_lorentz in Hprim.
  cbn [u eos MHDCons1D.d MHDCons1D.mx MHDCons1D.my MHDCons1D.mz
       EOS_Data.gamma EOS_Data.pfloor] in Hprim.
  replace (pf / (d / 1 * (g - 1))) with (pf / (d * (g - 1))) in Hprim by (field; lra).
  to_R.
  assert (Hsame : (if Rleb (e / d) (pf / (d * (g - 1)))
                   then pf / (d * (g - 1)) else e / d) = e / d).
  { destruct (Rleb (e / d) (pf / (d * (g - 1)))) eqn:E; [| reflexivity].
    apply Rleb_true_iff in E. lra. }
  rewrite Hsame in Hprim.
  assert (Hh : 0 < 1 + g * (e / d)) by nra.
  assert (Hdge : d + g * e <> 0).
  { replace (d + g * e) with (d * (1 + g * (e / d))) by (field; lra). nra. }
  split.
  { rewrite Hw, Hprim. cbn [fst]. f_equal; field;
      first [ lra | split; [lra | exact Hdge] ]. }
  split; [exact Hu |].
  split; [rewrite Hdu, Hnd; reflexivity |].
  split.
  { intros Hlt. rewrite Hfu, Hne, Hprim. cbn [snd].
    replace (Rleb (e / d) (pf / (d * (g - 1)))) with false; [reflexivity |].
    symmetry. apply Rleb_false_iff.
    replace (pf / (d * (g - 1))) with (pf / (g - 1) / d) by (field; lra).
    apply Rmult_lt_compat_r; [apply Rinv_0_lt_compat; lra | exact Hlt]. }
  split.
  { intros Heq. rewrite Hfu, Hne, Hprim. cbn [snd].
    replace (Rleb (e / d) (pf / (d * (g - 1)))) with true; [reflexivity |].
    symmetry. apply Rleb_true_iff. rewrite <- Heq. apply Req_le. field. lra. }
  split.
  { unfold sr_mu. rewrite Hfl. fold rc. rewrite Hz1. cbn [u MHDCons1D.d]. exact Hz2. }
  rewrite Hmax. unfold update_max_iter.
  destruct (0 >? max_iter)%Z eqn:E1; [| rewrite E1]; cbn; lia.
Qed.

End MoreRealModel.

(** * The hydrodynamic time step: properties *)

Section CellIndex.

Local Open Scope Z_scope.

Lemma quot_rem_bounds (a b : Z) :
  0 <= a -> 0 < b -> 0 <= a ÷ b /\ 0 <= a - (a ÷ b) * b < b.
Proof.
  intros Ha Hb. rewrite Z.quot_div_nonneg by lia.
  pose proof (Z.mul_div_le a b Hb).
  pose proof (Z.mul_succ_div_gt a b Hb).
  pose proof (Z.div_pos a b Ha Hb).
  lia.
Qed.

Lemma quot_unique (a b q r : Z) :
  0 <= r < b -> 0 <= q -> a = q * b + r -> a ÷ b = q.
Proof.
  intros Hr Hq ->. rewrite Z.quot_div_nonneg by nia.
  symmetry. apply Z.div_unique with r; [lia | ring].
Qed.

(** An [int] result within range is stored as it is; beyond [INT_MAX] it
    wraps. *)
Lemma wrap_int_small (z : Z) : INT_MIN <= z <= INT_MAX -> wrap_int z = z.
Proof.
  unfold INT_MIN, INT_MAX, wrap_int. intros H.
  rewrite Z.mod_small by lia. lia.
Qed.

Lemma wrap_int_range (z : Z) : INT_MIN <= wrap_int z <= INT_MAX.
Proof.
  unfold INT_MIN, INT_MAX, wrap_int.
  pose proof (Z.mod_pos_bound (z + 2147483648) 4294967296). lia.
Qed.

Lemma wrap_int_past_max : int_add INT_MAX 1 = INT_MIN.
Proof. reflexivity. Qed.

(** A loop range beyond [INT_MAX] wraps: a pack of one block of
    [65536 x 65536] cells has an empty loop. *)
Lemma loop_range_wraps : int_mul (int_mul (int_mul 1 1) 65536) 65536 = 0.
Proof. reflexivity. Qed.

Lemma cell_of_idx_exact_active (cells : RegionCells.t) (nmb idx : Z) :
  0 < RegionCells.nx1 cells -> 0 < RegionCells.nx2 cells ->
  0 < RegionCells.nx3 cells ->
  let nx1 := RegionCells.nx1 cells in
  let nx2 := RegionCells.nx2 cells in
  let nx3 := RegionCells.nx3 cells in
  let c := cell_of_idx_exact (nx3 * nx2 * nx1) (nx2 * nx1) nx1
             (RegionCells.is_ cells) (RegionCells.js cells) (RegionCells.ks cells) idx in
  0 <= idx < nmb * nx3 * nx2 * nx1 ->
  active_cell nmb cells c /\
  idx_of_cell nx1 nx2 nx3
    (RegionCells.is_ cells) (RegionCells.js cells) (RegionCells.ks cells) c = idx.
Proof.
  destruct cells as [ng nx1 nx2 nx3 is_ js ks].
  cbn [RegionCells.nx1 RegionCells.nx2 RegionCells.nx3 RegionCells.is_
       RegionCells.js RegionCells.ks].
  intros H1 H2 H3. cbv zeta.
  intros Hidx. unfold cell_of_idx_exact, idx_of_cell, active_cell. cbv zeta.
  cbn [RegionCells.nx1 RegionCells.nx2 RegionCells.nx3 RegionCells.is_
       RegionCells.js RegionCells.ks].
  assert (Hnkji : 0 < nx3 * nx2 * nx1) by nia.
  assert (Hnji : 0 < nx2 * nx1) by nia.
  destruct (@quot_rem_bounds idx (nx3 * nx2 * nx1)) as [Hm Hr1]; [lia | lia |].
  set (m := idx ÷ (nx3 * nx2 * nx1)) in *.
  set (r1 := idx - m * (nx3 * nx2 * nx1)) in *.
  destruct (@quot_rem_bounds r1 (nx2 * nx1)) as [Hk Hr2]; [lia | lia |].
  set (k := r1 ÷ (nx2 * nx1)) in *.
  set (r2 := r1 - k * (nx2 * nx1)) in *.
  destruct (@quot_rem_bounds r2 nx1) as [Hj Hr3]; [lia | lia |].
  set (j := r2 ÷ nx1) in *.
  assert (Hmb : m < nmb) by nia.
  assert (Hkb : k < nx3) by nia.
  assert (Hjb : j < nx2) by nia.
  repeat split; lia.
Qed.

Lemma idx_of_cell_exact_in_range (cells : RegionCells.t) (nmb : Z) (c : Z * Z * Z * Z) :
  0 < RegionCells.nx1 cells -> 0 < RegionCells.nx2 cells ->
  0 < RegionCells.nx3 cells ->
  let nx1 := RegionCells.nx1 cells in
  let nx2 := RegionCells.nx2 cells in
  let nx3 := RegionCells.nx3 cells in
  let idx := idx_of_cell nx1 nx2 nx3
               (RegionCells.is_ cells) (RegionCells.js cells) (RegionCells.ks cells) c in
  active_cell nmb cells c ->
  0 <= idx < nmb * nx3 * nx2 * nx1 /\
  cell_of_idx_exact (nx3 * nx2 * nx1) (nx2 * nx1) nx1
    (RegionCells.is_ cells) (RegionCells.js cells) (RegionCells.ks cells) idx = c.
Proof.
  destruct cells as [ng nx1 nx2 nx3 is_ js ks].
  cbn [RegionCells.nx1 RegionCells.nx2 RegionCells.nx3 RegionCells.is_
       RegionCells.js RegionCells.ks].
  intros H1 H2 H3. cbv zeta.
  destruct c as [[[m k] j] i]. intros (Hm & Hk & Hj & Hi).
  cbn [RegionCells.nx1 RegionCells.nx2 RegionCells.nx3 RegionCells.is_
       RegionCells.js RegionCells.ks] in *.
  unfold idx_of_cell, cell_of_idx_exact. cbv zeta.
  set (k' := k - ks) in *. set (j' := j - js) in *. set (i' := i - is_) in *.
  assert (Hk' : 0 <= k' < nx3) by lia.
  assert (Hj' : 0 <= j' < nx2) by lia.
  assert (Hi' : 0 <= i' < nx1) by lia.
  split.
  { assert (HA : 0 <= m * nx3 + k' <= nmb * nx3 - 1) by nia.
    assert (HB : 0 <= (m * nx3 + k') * nx2 + j' <= nmb * nx3 * nx2 - 1) by nia.
    nia. }
  assert (HC : 0 <= k' * nx2 + j' <= nx3 * nx2 - 1) by nia.
  assert (HD : 0 <= (k' * nx2 + j') * nx1 + i' < nx3 * nx2 * nx1) by nia.
  assert (HE : 0 <= j' * nx1 + i' < nx2 * nx1) by nia.
  assert (Em : (((m * nx3 + k') * nx2 + j') * nx1 + i') ÷ (nx3 * nx2 * nx1) = m).
  { apply (@quot_unique _ _ _ ((k' * nx2 + j') * nx1 + i')); [lia | lia | ring]. }
  rewrite Em.
  replace (((m * nx3 + k') * nx2 + j') * nx1 + i' - m * (nx3 * nx2 * nx1))
    with ((k' * nx2 + j') * nx1 + i') by ring.
  assert (Ek : ((k' * nx2 + j') * nx1 + i') ÷ (nx2 * nx1) = k').
  { apply (@quot_unique _ _ _ (j' * nx1 + i')); [lia | lia | ring]. }
  rewrite Ek.
  replace ((k' * nx2 + j') * nx1 + i' - k' * (nx2 * nx1)) with (j' * nx1 + i') by ring.
  assert (Ej : (j' * nx1 + i') ÷ nx1 = j').
  { apply (@quot_unique _ _ _ i'); [lia | lia | ring]. }
  rewrite Ej.
  subst k' j' i'. repeat f_equal; ring.
Qed.

(** In a pack that fits, the loop range and the strides are the exact
    products. *)
Lemma int_products (cells : RegionCells.t) (nmb : Z) :
  pack_fits_int nmb cells ->
  let nx1 := RegionCells.nx1 cells in
  let nx2 := RegionCells.nx2 cells in
  let nx3 := RegionCells.nx3 cells in
  int_mul (int_mul (int_mul nmb nx3) nx2) nx1 = nmb * nx3 * nx2 * nx1 /\
  int_mul (int_mul nx3 nx2) nx1 = nx3 * nx2 * nx1 /\
  int_mul nx2 nx1 = nx2 * nx1.
Proof.
  destruct cells as [ng nx1 nx2 nx3 is_ js ks]. unfold pack_fits_int.
  cbn [RegionCells.nx1 RegionCells.nx2 RegionCells.nx3 RegionCells.is_
       RegionCells.js RegionCells.ks].
  intros (H1 & H2 & H3 & Hn & Hk & Hm & _). cbv zeta.
  assert (INT_MIN <= 0) by (unfold INT_MIN; lia).
  assert (Ha : 0 <= nmb * nx3) by nia.
  assert (Hb : 0 <= nmb * nx3 * nx2) by nia.
  assert (Hc : nmb * nx3 * nx2 <= nmb * nx3 * nx2 * nx1) by nia.
  assert (Hd : nmb * nx3 <= nmb * nx3 * nx2) by nia.
  assert (He : 0 <= nx3 * nx2) by nia.
  assert (Hf : nx3 * nx2 <= nx3 * nx2 * nx1) by nia.
  assert (Hg : nx2 * nx1 <= nx3 * nx2 * nx1) by nia.
  assert (Hh : 0 <= nx2 * nx1) by nia.
  unfold int_mul, INT_MAX, INT_MIN in *.
  rewrite (@wrap_int_small (nmb * nx3)) by (unfold INT_MAX, INT_MIN; lia).
  rewrite (@wrap_int_small (nmb * nx3 * nx2)) by (unfold INT_MAX, INT_MIN; lia).
  rewrite (@wrap_int_small (nmb * nx3 * nx2 * nx1)) by (unfold INT_MAX, INT_MIN; lia).
  rewrite (@wrap_int_small (nx3 * nx2)) by (unfold INT_MAX, INT_MIN; lia).
  rewrite (@wrap_int_small (nx3 * nx2 * nx1)) by (unfold INT_MAX, INT_MIN; lia).
  rewrite (@wrap_int_small (nx2 * nx1)) by (unfold INT_MAX, INT_MIN; lia).
  repeat split; reflexivity.
Qed.

(** In a pack that fits, no [int] operation of the index decoding wraps. *)
Lemma cell_of_idx_no_wrap (cells : RegionCells.t) (nmb idx : Z) :
  pack_fits_int nmb cells ->
  let nx1 := RegionCells.nx1 cells in
  let nx2 := RegionCells.nx2 cells in
  let nx3 := RegionCells.nx3 cells in
  0 <= idx < nmb * nx3 * nx2 * nx1 ->
  cell_of_idx (int_mul (int_mul nx3 nx2) nx1) (int_mul nx2 nx1) nx1
    (RegionCells.is_ cells) (RegionCells.js cells) (RegionCells.ks cells) idx
  = cell_of_idx_exact (nx3 * nx2 * nx1) (nx2 * nx1) nx1
      (RegionCells.is_ cells) (RegionCells.js cells) (RegionCells.ks cells) idx.
Proof.
  intros Hfit. destruct (int_products Hfit) as (_ & Ekji & Eji).
  cbv zeta in Ekji, Eji |- *. rewrite Ekji, Eji. clear Ekji Eji.
  destruct cells as [ng nx1 nx2 nx3 is_ js ks]. unfold pack_fits_int in Hfit.
  cbn [RegionCells.nx1 RegionCells.nx2 RegionCells.nx3 RegionCells.is_
       RegionCells.js RegionCells.ks] in *.
  destruct Hfit as (H1 & H2 & H3 & Hn & Hk & Hm & Hi0 & Hi1 & Hj0 & Hj1 & Hk0 & Hk1).
  unfold INT_MAX in *. intros Hidx.
  assert (Hnkji : 0 < nx3 * nx2 * nx1) by nia.
  assert (Hnji : 0 < nx2 * nx1) by nia.
  assert (Hsmall : forall z, -2147483648 <= z <= 2147483647 -> wrap_int z = z).
  { intros z Hz. apply (@wrap_int_small z). unfold INT_MIN, INT_MAX. exact Hz. }
  unfold cell_of_idx, cell_of_idx_exact, int_div, int_sub, int_mul, int_add. cbv zeta.
  set (nkji := nx3 * nx2 * nx1) in *. set (nji := nx2 * nx1) in *.
  destruct (@quot_rem_bounds idx nkji) as [Hq1 Hr1]; [lia | lia |].
  set (m := idx ÷ nkji) in *.
  assert (Hmb : m < nmb) by (subst nkji; nia).
  rewrite (Hsmall m) by lia.
  assert (Hmk : 0 <= m * nkji) by nia.
  rewrite (Hsmall (m * nkji)) by lia.
  rewrite (Hsmall (idx - m * nkji)) by lia.
  set (r1 := idx - m * nkji) in *.
  destruct (@quot_rem_bounds r1 nji) as [Hq2 Hr2]; [lia | lia |].
  set (k := r1 ÷ nji) in *.
  assert (Hkb : k < nx3) by (subst nkji nji; nia).
  rewrite (Hsmall k) by lia.
  assert (Hkj : 0 <= k * nji) by nia.
  rewrite (Hsmall (k * nji)) by lia.
  rewrite (Hsmall (r1 - k * nji)) by lia.
  set (r2 := r1 - k * nji) in *.
  destruct (@quot_rem_bounds r2 nx1) as [Hq3 Hr3]; [lia | lia |].
  set (j := r2 ÷ nx1) in *.
  assert (Hjb : j < nx2) by (subst nji; nia).
  rewrite (Hsmall j) by lia.
  assert (Hjx : 0 <= j * nx1) by nia.
  rewrite (Hsmall (j * nx1)) by lia.
  rewrite (Hsmall (r2 - j * nx1)) by lia.
  rewrite (Hsmall (r2 - j * nx1 + is_)) by lia.
  rewrite (Hsmall (k + ks)) by lia.
  rewrite (Hsmall (j + js)) by lia.
  reflexivity.
Qed.

Lemma pack_fits_int_positive (cells : RegionCells.t) (nmb : Z) :
  pack_fits_int nmb cells ->
  0 < RegionCells.nx1 cells /\ 0 < RegionCells.nx2 cells /\
  0 < RegionCells.nx3 cells.
Proof. intros (H1 & H2 & H3 & _). repeat split; assumption. Qed.

Lemma cell_of_idx_active (cells : RegionCells.t) (nmb idx : Z) :
  pack_fits_int nmb cells ->
  let nx1 := RegionCells.nx1 cells in
  let nx2 := RegionCells.nx2 cells in
  let nx3 := RegionCells.nx3 cells in
  let c := cell_of_idx (int_mul (int_mul nx3 nx2) nx1) (int_mul nx2 nx1) nx1
             (RegionCells.is_ cells) (RegionCells.js cells) (RegionCells.ks cells) idx in
  0 <= idx < int_mul (int_mul (int_mul nmb nx3) nx2) nx1 ->
  active_cell nmb cells c /\
  idx_of_cell nx1 nx2 nx3
    (RegionCells.is_ cells) (RegionCells.js cells) (RegionCells.ks cells) c = idx.
Proof.
  intros Hfit. destruct (int_products Hfit) as (Em & _).
  destruct (pack_fits_int_positive Hfit) as (H1 & H2 & H3).
  cbv zeta in Em |- *. rewrite Em. intros Hidx.
  rewrite (@cell_of_idx_no_wrap cells nmb idx Hfit Hidx).
  exact (@cell_of_idx_exact_active cells nmb idx H1 H2 H3 Hidx).
Qed.

Lemma idx_of_cell_in_range (cells : RegionCells.t) (nmb : Z) (c : Z * Z * Z * Z) :
  pack_fits_int nmb cells ->
  let nx1 := RegionCells.nx1 cells in
  let nx2 := RegionCells.nx2 cells in
  let nx3 := RegionCells.nx3 cells in
  let idx := idx_of_cell nx1 nx2 nx3
               (RegionCells.is_ cells) (RegionCells.js cells) (RegionCells.ks cells) c in
  active_cell nmb cells c ->
  0 <= idx < int_mul (int_mul (int_mul nmb nx3) nx2) nx1 /\
  cell_of_idx (int_mul (int_mul nx3 nx2) nx1) (int_mul nx2 nx1) nx1
    (RegionCells.is_ cells) (RegionCells.js cells) (RegionCells.ks cells) idx = c.
Proof.
  intros Hfit. destruct (int_products Hfit) as (Em & _).
  destruct (pack_fits_int_positive Hfit) as (H1 & H2 & H3).
  cbv zeta in Em |- *. rewrite Em. intros Hc.
  destruct (@idx_of_cell_exact_in_range cells nmb c H1 H2 H3 Hc) as [Hr Hdec].
  split; [exact Hr |].
  rewrite (@cell_of_idx_no_wrap cells nmb _ Hfit Hr). exact Hdec.
Qed.

(** X15: the flattened loop of [NewTimeStep] visits every active cell of
    the pack exactly once, provided the pack fits the [int] type: positive
    cell counts, at least zero blocks, [nmb*nx3*nx2*nx1] and [nx3*nx2*nx1]
    at most [INT_MAX], and non-negative first indices with [is+nx1],
    [js+nx2], [ks+nx3] at most [INT_MAX].  Then the loop range [nmkji] and
    the strides, computed as [int] products, are the exact products; every
    index [0 <= idx < nmkji] is decoded by the [int] operations of lines
    50-55 to an active cell [(m,k,j,i)] ([0 <= m < nmb], [ks <= k < ks+nx3],
    [js <= j < js+nx2], [is <= i < is+nx1]) whose flattened index is [idx],
    and every active cell is the decoding of its flattened index, which lies
    in the loop range. *)
Theorem cell_of_idx_bijection (cells : RegionCells.t) (nmb : Z) :
  pack_fits_int nmb cells ->
  let nx1 := RegionCells.nx1 cells in
  let nx2 := RegionCells.nx2 cells in
  let nx3 := RegionCells.nx3 cells in
  let nmkji := int_mul (int_mul (int_mul nmb nx3) nx2) nx1 in
  let nkji := int_mul (int_mul nx3 nx2) nx1 in
  let nji := int_mul nx2 nx1 in
  let decode := cell_of_idx nkji nji nx1
                  (RegionCells.is_ cells) (RegionCells.js cells) (RegionCells.ks cells) in
  let encode := idx_of_cell nx1 nx2 nx3
                  (RegionCells.is_ cells) (RegionCells.js cells) (RegionCells.ks cells) in
  (nmkji = nmb * nx3 * nx2 * nx1 /\ nkji = nx3 * nx2 * nx1 /\ nji = nx2 * nx1) /\
  (forall idx, 0 <= idx < nmkji ->
     active_cell nmb cells (decode idx) /\ encode (decode idx) = idx) /\
  (forall c, active_cell nmb cells c ->
     0 <= encode c < nmkji /\ decode (encode c) = c).
Proof.
  intros Hfit. cbv zeta. split; [exact (int_products Hfit) |]. split.
  - intros idx Hidx. exact (@cell_of_idx_active cells nmb idx Hfit Hidx).
  - intros c Hc. exact (@idx_of_cell_in_range cells nmb c Hfit Hc).
Qed.

End CellIndex.

Section TimeStepReal.

Local Open Scope R_scope.

Lemma std_min_R (a b : R) : std_min a b = Rmin a b.
Proof.
  unfold std_min, Rmin. cbn [ltb R_arith].
  destruct (Rltb b a) eqn:E; destruct (Rle_dec a b) as [Hle | Hn]; try reflexivity.
  - apply Rltb_true_iff in E. lra.
  - apply Rltb_false_iff in E. lra.
Qed.

Lemma in_loop_range (n idx : Z) :
  List.In idx (List.map Z.of_nat (List.seq 0 (Z.to_nat n))) <-> (0 <= idx < n)%Z.
Proof.
  rewrite List.in_map_iff. split.
  - intros (x & <- & Hx). apply List.in_seq in Hx. lia.
  - intros H. exists (Z.to_nat idx). split; [lia |]. apply List.in_seq. lia.
Qed.

(** The three running minima of a reduction are three separate minima. *)
Lemma fold_min3 (f1 f2 f3 : Z -> R) (l : list Z) (a b c : R) :
  List.fold_left
    (fun acc idx =>
       (fun '(x, y, z) => (Rmin (f1 idx) x, Rmin (f2 idx) y, Rmin (f3 idx) z))
         (acc : R * R * R))
    l (a, b, c)
  = (List.fold_left (fun x idx => Rmin (f1 idx) x) l a,
     List.fold_left (fun x idx => Rmin (f2 idx) x) l b,
     List.fold_left (fun x idx => Rmin (f3 idx) x) l c).
Proof.
  revert a b c. induction l as [| i l IH]; intros a b c; [reflexivity |].
  cbn [List.fold_left]. apply IH.
Qed.

Lemma fold_min_le (f : Z -> R) (l : list Z) (a : R) :
  List.fold_left (fun x idx => Rmin (f idx) x) l a <= a /\
  forall i, List.In i l -> List.fold_left (fun x idx => Rmin (f idx) x) l a <= f i.
Proof.
  revert a. induction l as [| j l IH]; intros a; cbn [List.fold_left].
  - split; [lra | intros i []].
  - destruct (IH (Rmin (f j) a)) as [H1 H2].
    pose proof (Rmin_l (f j) a). pose proof (Rmin_r (f j) a).
    split; [lra |].
    intros i [-> | Hi]; [lra | apply H2; exact Hi].
Qed.

Lemma fold_min_attained (f : Z -> R) (l : list Z) (a : R) :
  List.fold_left (fun x idx => Rmin (f idx) x) l a = a \/
  exists i, List.In i l /\ List.fold_left (fun x idx => Rmin (f idx) x) l a = f i.
Proof.
  revert a. induction l as [| j l IH]; intros a; cbn [List.fold_left].
  - left. reflexivity.
  - destruct (IH (Rmin (f j) a)) as [H | (i & Hi & H)].
    + rewrite H. unfold Rmin. destruct (Rle_dec (f j) a).
      * right. exists j. split; [left; reflexivity | reflexivity].
      * left. reflexivity.
    + right. exists i. split; [right; exact Hi | exact H].
Qed.

Section TimeStepMinimum.

Variables (IDN IVX IVY IVZ IPR : Z).
Variable SoundSpeed : R -> R -> R.
Variable min_identity : R.
Variables (nstages : Z) (te : TimeEvolution) (cells : RegionCells.t) (nmb : Z).
Variables (nx2gt1 nx3gt1 : bool).
Variables (w0 : PrimArray (Real := R)) (size : SizeArray (Real := R)).

Let cdt := cell_dt IDN IPR SoundSpeed te w0 size.
Let nmkji : Z :=
  int_mul (int_mul (int_mul nmb (RegionCells.nx3 cells)) (RegionCells.nx2 cells))
    (RegionCells.nx1 cells).
Let decode : Z -> Z * Z * Z * Z :=
  cell_of_idx
    (int_mul (int_mul (RegionCells.nx3 cells) (RegionCells.nx2 cells))
       (RegionCells.nx1 cells))
    (int_mul (RegionCells.nx2 cells) (RegionCells.nx1 cells)) (RegionCells.nx1 cells)
    (RegionCells.is_ cells) (RegionCells.js cells) (RegionCells.ks cells).
Let loop : list Z := List.map Z.of_nat (List.seq 0 (Z.to_nat nmkji)).
Let red (n d : Z) : R :=
  List.fold_left (fun x idx => Rmin (cdt n d (decode idx)) x) loop min_identity.

(** At the last stage the new time step is the minimum of the reduced
    crossing times of the directions in use. *)
Lemma NewTimeStep_last_stage (dtnew : R) :
  NewTimeStep IDN IVX IVY IVZ IPR SoundSpeed min_identity nstages te cells nmb
    nx2gt1 nx3gt1 w0 size nstages dtnew
  = let d1 := red IVX 6 in
    let d2 := if nx2gt1 then Rmin d1 (red IVY 7) else d1 in
    if nx3gt1 then Rmin d2 (red IVZ 8) else d2.
Proof.
  unfold NewTimeStep. rewrite Z.eqb_refl. cbn [negb]. cbv zeta.
  unfold parallel_reduce_min3.
  assert (Hred :
    (let '(dt1, dt2, dt3) :=
       match te with
       | kinematic =>
         List.fold_left
           (fun acc idx =>
              (fun '(min_dt1, min_dt2, min_dt3) =>
                 (fmin (kinematic_dt w0 size IVX 6 (decode idx)) min_dt1,
                  fmin (kinematic_dt w0 size IVY 7 (decode idx)) min_dt2,
                  fmin (kinematic_dt w0 size IVZ 8 (decode idx)) min_dt3))
                (acc : R * R * R))
           loop (min_identity, min_identity, min_identity)
       | _ =>
         List.fold_left
           (fun acc idx =>
              (fun '(min_dt1, min_dt2, min_dt3) =>
                 (fmin (dynamic_dt IDN IPR SoundSpeed w0 size IVX 6 (decode idx)) min_dt1,
                  fmin (dynamic_dt IDN IPR SoundSpeed w0 size IVY 7 (decode idx)) min_dt2,
                  fmin (dynamic_dt IDN IPR SoundSpeed w0 size IVZ 8 (decode idx)) min_dt3))
                (acc : R * R * R))
           loop (min_identity, min_identity, min_identity)
       end in
     if nx3gt1
     then std_min (if nx2gt1 then std_min dt1 dt2 else dt1) dt3
     else if nx2gt1 then std_min dt1 dt2 else dt1)
    = (if nx3gt1
       then Rmin (if nx2gt1 then Rmin (red IVX 6) (red IVY 7) else red IVX 6) (red IVZ 8)
       else if nx2gt1 then Rmin (red IVX 6) (red IVY 7) else red IVX 6)).
  { unfold red, cdt, cell_dt. cbn [fmin R_min].
    destruct te; rewrite fold_min3, ?std_min_R; reflexivity. }
  exact Hred.
Qed.

(** X16: at the last stage, [NewTimeStep] sets [dtnew] to the smallest
    crossing time of the pack.  For a pack that fits the [int] type (positive
    cell counts, loop range and cell indices at most [INT_MAX], so that no
    [int] product or index wraps) and non-zero
    denominators in every active cell for the directions in use (direction 1
    always, direction 2 when [nx2gt1], direction 3 when [nx3gt1]), in exact
    real arithmetic: the new [dtnew] is not above the value the reduction starts
    from, is not above the crossing time of any active cell in any direction
    in use, and is either that starting value or the crossing time of some
    active cell in a direction in use; it does not depend on the old
    [dtnew].  At any other stage [dtnew] is left as it was. *)
Theorem time_step_is_minimum (dtnew : R) :
  pack_fits_int nmb cells ->
  (forall c, active_cell nmb cells c ->
     cell_speed IDN IPR SoundSpeed te w0 IVX c <> 0 /\
     (nx2gt1 = true -> cell_speed IDN IPR SoundSpeed te w0 IVY c <> 0) /\
     (nx3gt1 = true -> cell_speed IDN IPR SoundSpeed te w0 IVZ c <> 0)) ->
  let dt := NewTimeStep IDN IVX IVY IVZ IPR SoundSpeed min_identity nstages te cells
              nmb nx2gt1 nx3gt1 w0 size nstages dtnew in
  dt <= min_identity /\
  (forall c, active_cell nmb cells c ->
     dt <= cell_dt IDN IPR SoundSpeed te w0 size IVX 6 c /\
     (nx2gt1 = true -> dt <= cell_dt IDN IPR SoundSpeed te w0 size IVY 7 c) /\
     (nx3gt1 = true -> dt <= cell_dt IDN IPR SoundSpeed te w0 size IVZ 8 c)) /\
  (dt = min_identity \/
   exists c, active_cell nmb cells c /\
     (dt = cell_dt IDN IPR SoundSpeed te w0 size IVX 6 c \/
      (nx2gt1 = true /\ dt = cell_dt IDN IPR SoundSpeed te w0 size IVY 7 c) \/
      (nx3gt1 = true /\ dt = cell_dt IDN IPR SoundSpeed te w0 size IVZ 8 c))) /\
  (forall dtnew' : R,
     NewTimeStep IDN IVX IVY IVZ IPR SoundSpeed min_identity nstages te cells
       nmb nx2gt1 nx3gt1 w0 size nstages dtnew' = dt) /\
  (forall stage : Z, stage <> nstages ->
     NewTimeStep IDN IVX IVY IVZ IPR SoundSpeed min_identity nstages te cells
       nmb nx2gt1 nx3gt1 w0 size stage dtnew = dtnew).
Proof.
  intros Hfit _ dt. subst dt.
  assert (Hle : forall n d,
    red n d <= min_identity /\
    forall c, active_cell nmb cells c -> red n d <= cdt n d c).
  { intros n d. unfold red.
    destruct (fold_min_le (fun idx => cdt n d (decode idx)) loop min_identity)
      as [Ha Hb].
    split; [exact Ha |]. intros c Hc.
    destruct (@idx_of_cell_in_range cells nmb c Hfit Hc) as [Hr Hdec].
    fold decode in Hdec. rewrite <- Hdec. apply Hb.
    apply in_loop_range. exact Hr. }
  assert (Hat : forall n d,
    red n d = min_identity \/
    exists c, active_cell nmb cells c /\ red n d = cdt n d c).
  { intros n d. unfold red.
    destruct (fold_min_attained (fun idx => cdt n d (decode idx)) loop min_identity)
      as [Ha | (idx & Hin & Ha)]; [left; exact Ha | right].
    apply in_loop_range in Hin.
    destruct (@cell_of_idx_active cells nmb idx Hfit Hin) as [Hact _].
    exists (decode idx). split; [exact Hact | exact Ha]. }
  rewrite NewTimeStep_last_stage. cbv zeta. fold nmkji decode loop. fold red.
  destruct (Hle IVX 6%Z) as [L1 C1]. destruct (Hle IVY 7%Z) as [L2 C2].
  destruct (Hle IVZ 8%Z) as [L3 C3].
  pose proof (Hat IVX 6%Z) as A1. pose proof (Hat IVY 7%Z) as A2.
  pose proof (Hat IVZ 8%Z) as A3.
  fold cdt.
  set (r1 := red IVX 6) in *. set (r2 := red IVY 7) in *. set (r3 := red IVZ 8) in *.
  pose proof (Rmin_l r1 r2) as M1. pose proof (Rmin_r r1 r2) as M2.
  pose proof (Rmin_l (Rmin r1 r2) r3) as M3. pose proof (Rmin_r (Rmin r1 r2) r3) as M4.
  pose proof (Rmin_l r1 r3) as M5. pose proof (Rmin_r r1 r3) as M6.
  split; [| split; [| split; [| split]]].
  - destruct nx2gt1, nx3gt1; lra.
  - intros c Hc. specialize (C1 c Hc). specialize (C2 c Hc). specialize (C3 c Hc).
    destruct nx2gt1, nx3gt1;
      (split; [lra | split; intros E; first [discriminate E | lra]]).
  - assert (Hpick : forall a b : R, Rmin a b = a \/ Rmin a b = b).
    { intros a b. unfold Rmin. destruct (Rle_dec a b); auto. }
    destruct nx2gt1, nx3gt1.
    + destruct (Hpick (Rmin r1 r2) r3) as [E | E]; rewrite E.
      * destruct (Hpick r1 r2) as [E' | E']; rewrite E'.
        -- destruct A1 as [-> | (c & Hc & ->)]; [left; reflexivity | right].
           exists c. split; [exact Hc | left; reflexivity].
        -- destruct A2 as [-> | (c & Hc & ->)]; [left; reflexivity | right].
           exists c. split; [exact Hc | right; left; split; reflexivity].
      * destruct A3 as [-> | (c & Hc & ->)]; [left; reflexivity | right].
        exists c. split; [exact Hc | right; right; split; reflexivity].
    + destruct (Hpick r1 r2) as [E' | E']; rewrite E'.
      * destruct A1 as [-> | (c & Hc & ->)]; [left; reflexivity | right].
        exists c. split; [exact Hc | left; reflexivity].
      * destruct A2 as [-> | (c & Hc & ->)]; [left; reflexivity | right].
        exists c. split; [exact Hc | right; left; split; reflexivity].
    + destruct (Hpick r1 r3) as [E | E]; rewrite E.
      * destruct A1 as [-> | (c & Hc & ->)]; [left; reflexivity | right].
        exists c. split; [exact Hc | left; reflexivity].
      * destruct A3 as [-> | (c & Hc & ->)]; [left; reflexivity | right].
        exists c. split; [exact Hc | right; right; split; reflexivity].
    + destruct A1 as [-> | (c & Hc & ->)]; [left; reflexivity | right].
      exists c. split; [exact Hc | left; reflexivity].
  - intros dtnew'. rewrite NewTimeStep_last_stage. reflexivity.
  - intros stage Hs. unfold NewTimeStep.
    replace (stage =? nstages)%Z with false by (symmetry; apply Z.eqb_neq; exact Hs).
    reflexivity.
Qed.

End TimeStepMinimum.

End TimeStepReal.

(** * Construction of the hydrodynamics module: properties *)

Section HydroConstructorProperties.

Import String.
Local Open Scope string_scope.
Local Open Scope Z_scope.

Variable is_adiabatic : HydroEOS -> bool.

(** Case analysis on the tests of the constructor. *)
Ltac break_if :=
  match goal with
  | H : context [if ?c then _ else _] |- _ => destruct c eqn:?
  | H : context [match ?c with Some _ => _ | None => _ end] |- _ => destruct c eqn:?
  end.

Ltac ctor_cases H :=
  repeat (cbn [bind ret fatal fst snd GetOrAdd negb andb orb] in H;
          try discriminate H; try break_if).

Lemma select_eos_inv (eqn_of_state : string) (is_sr is_gr : bool)
    (eos : HydroEOS) (n : Z) :
  select_eos eqn_of_state is_sr is_gr = inr (eos, n) ->
  (eqn_of_state = "adiabatic" /\ n = 5 /\
   eos = (if is_sr then AdiabaticHydroSR else AdiabaticHydro)) \/
  (eqn_of_state = "isothermal" /\ n = 4 /\ eos = IsothermalHydro /\
   is_sr = false /\ is_gr = false).
Proof.
  unfold select_eos. intros H.
  destruct (eqn_of_state =? "adiabatic")%string eqn:E1.
  - apply String.eqb_eq in E1. injection H as <- <-. left. auto.
  - destruct (eqn_of_state =? "isothermal")%string eqn:E2; [| discriminate H].
    apply String.eqb_eq in E2.
    destruct is_sr, is_gr; try discriminate H.
    injection H as <- <-. right. auto.
Qed.

Lemma select_rsolver_inv (rsolver evolution_t : string) (is_sr is_gr : bool)
    (eos : HydroEOS) (s : Hydro_RSolver.t) :
  select_rsolver is_adiabatic rsolver evolution_t is_sr is_gr eos = inr s ->
  match s with
  | Hydro_RSolver.advect => rsolver = "advect" /\ evolution_t <> "dynamic"
  | Hydro_RSolver.llf =>
    rsolver = "llf" /\ evolution_t = "dynamic" /\ is_sr = false /\ is_gr = false
  | Hydro_RSolver.hlle =>
    rsolver = "hlle" /\ evolution_t = "dynamic" /\ is_sr = false /\ is_gr = false
  | Hydro_RSolver.hllc =>
    rsolver = "hllc" /\ evolution_t = "dynamic" /\ is_sr = false /\ is_gr = false /\
    is_adiabatic eos = true
  | Hydro_RSolver.llf_sr => rsolver = "llf" /\ evolution_t = "dynamic" /\ is_sr = true
  | Hydro_RSolver.hlle_sr => rsolver = "hlle" /\ evolution_t = "dynamic" /\ is_sr = true
  | Hydro_RSolver.hllc_sr =>
    rsolver = "hllc" /\ evolution_t = "dynamic" /\ is_sr = true /\
    is_adiabatic eos = true
  | Hydro_RSolver.hlle_gr =>
    rsolver = "hlle" /\ evolution_t = "dynamic" /\ is_sr = false /\ is_gr = true
  end.
Proof.
  unfold select_rsolver. intros H.
  destruct (rsolver =? "advect")%string eqn:Ea.
  { apply String.eqb_eq in Ea.
    destruct (evolution_t =? "dynamic")%string eqn:Ed; [discriminate H |].
    apply String.eqb_neq in Ed. injection H as <-. auto. }
  destruct (evolution_t =? "dynamic")%string eqn:Ed; cbn [negb] in H;
    [| discriminate H].
  apply String.eqb_eq in Ed.
  destruct (rsolver =? "llf")%string eqn:E1.
  { apply String.eqb_eq in E1.
    destruct is_sr, is_gr; try discriminate H; injection H as <-; auto. }
  destruct (rsolver =? "hlle")%string eqn:E2.
  { apply String.eqb_eq in E2.
    destruct is_sr, is_gr; injection H as <-; auto. }
  destruct (rsolver =? "hllc")%string eqn:E3; [| discriminate H].
  apply String.eqb_eq in E3.
  destruct (is_adiabatic eos) eqn:Eis; [| discriminate H].
  destruct is_sr, is_gr; try discriminate H; injection H as <-; auto 6.
Qed.

Lemma select_reconstruction_inv (xorder : string) (ng : Z)
    (r : ReconstructionMethod.t) :
  select_reconstruction xorder ng = inr r ->
  match r with
  | ReconstructionMethod.dc => xorder = "dc"
  | ReconstructionMethod.plm => xorder = "plm"
  | ReconstructionMethod.ppm => xorder = "ppm" /\ 3 <= ng
  | ReconstructionMethod.wenoz => xorder = "wenoz" /\ 3 <= ng
  end.
Proof.
  unfold select_reconstruction. intros H.
  destruct (xorder =? "dc")%string eqn:E1.
  { apply String.eqb_eq in E1. injection H as <-. exact E1. }
  destruct (xorder =? "plm")%string eqn:E2.
  { apply String.eqb_eq in E2. injection H as <-. exact E2. }
  destruct (xorder =? "ppm")%string eqn:E3.
  { apply String.eqb_eq in E3. destruct (ng <? 3) eqn:Eg; [discriminate H |].
    injection H as <-. split; [exact E3 | lia]. }
  destruct (xorder =? "wenoz")%string eqn:E4; [| discriminate H].
  apply String.eqb_eq in E4. destruct (ng <? 3) eqn:Eg; [discriminate H |].
  injection H as <-. split; [exact E4 | lia].
Qed.

(** The constructor in terms of its three selections. *)
Lemma Hydro_ctor_inv (nmb : Z) (ncells : RegionCells.t) (pin : HydroInput) (h : Hydro) :
  Hydro_ctor is_adiabatic nmb ncells pin = inr h ->
  let is_sr := GetOrAdd (in_special_rel pin) false in
  let is_gr := GetOrAdd (in_general_rel pin) false in
  (is_sr && is_gr = false)%bool /\
  is_special_relativistic h = is_sr /\ is_general_relativistic h = is_gr /\
  select_eos (in_eos pin) is_sr is_gr = inr (peos h, nhydro h) /\
  nscalars h = GetOrAdd (in_nscalars pin) 0 /\
  pcoord h = is_gr /\ pvisc h = in_viscosity pin /\
  u0_extent h = pack_extent nmb (nhydro h + nscalars h) ncells /\
  w0_extent h = pack_extent nmb (nhydro h + nscalars h) ncells /\
  bval_nvar h = nhydro h + nscalars h /\
  (if (in_evolution pin =? "stationary")%string
   then recon_method_ h = None /\ rsolver_method_ h = None /\
        u1_extent h = (1, 1, 1, 1, 1) /\ uflx_extent h = (1, 1, 1, 1, 1)
   else exists r s,
       u1_extent h = pack_extent nmb (nhydro h + nscalars h) ncells /\
       uflx_extent h = pack_extent nmb (nhydro h + nscalars h) ncells /\
       recon_method_ h = Some r /\ rsolver_method_ h = Some s /\
       select_reconstruction (GetOrAdd (in_reconstruct pin) "plm")
         (RegionCells.ng ncells) = inr r /\
       select_rsolver is_adiabatic (in_rsolver pin) (in_evolution pin) is_sr is_gr
         (peos h) = inr s).
Proof.
  unfold Hydro_ctor. cbv zeta. intros H.
  destruct (GetOrAdd (in_special_rel pin) false && GetOrAdd (in_general_rel pin) false)%bool
    eqn:Eboth; [discriminate H |].
  destruct (select_eos (in_eos pin) _ _) as [e | [eos n]] eqn:Eeos;
    cbn [bind] in H; [discriminate H |].
  cbn [fst snd] in H.
  destruct (in_evolution pin =? "stationary")%string eqn:Est; cbn [negb] in H.
  - injection H as <-. cbn. repeat split; reflexivity.
  - destruct (select_reconstruction _ _) as [e | r] eqn:Er; cbn [bind] in H;
      [discriminate H |].
    destruct (select_rsolver _ _ _ _ _ _) as [e | s] eqn:Es; cbn [bind] in H;
      [discriminate H |].
    injection H as <-. cbn.
    repeat split; try reflexivity.
    exists r, s. repeat split; assumption.
Qed.

(** X17: a constructed [Hydro] never pairs a Riemann solver with dynamics
    it is not written for.  When the constructor returns and has selected a
    solver: [advect] is selected exactly for a time evolution other than
    "dynamic"; the non-relativistic [llf], [hlle], [hllc] only with neither
    SR nor GR; [llf_sr], [hlle_sr], [hllc_sr] only with SR (and without GR);
    [hlle_gr] only with GR (and without SR), so that HLLE is the only
    dynamic solver accepted with GR; and [hllc], [hllc_sr] only when the EOS
    object reports an adiabatic EOS. *)
Theorem hydro_solver_matches_physics (nmb : Z) (ncells : RegionCells.t)
    (pin : HydroInput) (h : Hydro) (s : Hydro_RSolver.t) :
  Hydro_ctor is_adiabatic nmb ncells pin = inr h ->
  rsolver_method_ h = Some s ->
  (s = Hydro_RSolver.advect <-> in_evolution pin <> "dynamic") /\
  match s with
  | Hydro_RSolver.advect => True
  | Hydro_RSolver.llf | Hydro_RSolver.hlle =>
    is_special_relativistic h = false /\ is_general_relativistic h = false
  | Hydro_RSolver.hllc =>
    is_special_relativistic h = false /\ is_general_relativistic h = false /\
    is_adiabatic (peos h) = true
  | Hydro_RSolver.llf_sr | Hydro_RSolver.hlle_sr =>
    is_special_relativistic h = true /\ is_general_relativistic h = false
  | Hydro_RSolver.hllc_sr =>
    is_special_relativistic h = true /\ is_general_relativistic h = false /\
    is_adiabatic (peos h) = true
  | Hydro_RSolver.hlle_gr =>
    is_special_relativistic h = false /\ is_general_relativistic h = true
  end.
Proof.
  intros Hc Hs.
  destruct (Hydro_ctor_inv _ _ _ Hc) as (Hboth & Hsr & Hgr & _ & _ & _ & _ & _ & _ & _ & Hm).
  destruct (in_evolution pin =? "stationary")%string eqn:Est.
  { destruct Hm as (_ & Hn & _). rewrite Hn in Hs. discriminate Hs. }
  destruct Hm as (r & s' & _ & _ & _ & Hs' & _ & Hsel).
  rewrite Hs' in Hs. injection Hs as ->.
  apply select_rsolver_inv in Hsel.
  rewrite <- Hsr, <- Hgr in Hsel, Hboth.
  destruct s; split;
    try (split; [discriminate | intros Hne; exfalso; apply Hne; tauto]);
    try (split; [intros _; tauto | reflexivity]);
    try exact I;
    destruct (is_special_relativistic h), (is_general_relativistic h);
    try discriminate Hboth; intuition congruence.
Qed.

(** X18: what a constructed [Hydro] holds.  When the constructor returns,
    SR and GR are not both selected; the EOS parameter is "adiabatic" (then
    [nhydro = 5] and the EOS object is [AdiabaticHydroSR] with SR,
    [AdiabaticHydro] otherwise, also with GR) or "isothermal" (then
    [nhydro = 4] and neither SR nor GR is selected); the coordinates object
    exists exactly with GR; the arrays of conserved and primitive variables
    hold [nhydro + nscalars] variables over [nx1 + 2 ng] cells in the first
    direction and, in each other direction, over the cells plus ghost zones
    when the direction has more than one cell and over a single cell
    otherwise. *)
Theorem hydro_constructed_state (nmb : Z) (ncells : RegionCells.t)
    (pin : HydroInput) (h : Hydro) :
  Hydro_ctor is_adiabatic nmb ncells pin = inr h ->
  (is_special_relativistic h && is_general_relativistic h = false)%bool /\
  ((in_eos pin = "adiabatic" /\ nhydro h = 5 /\
    peos h = (if is_special_relativistic h then AdiabaticHydroSR else AdiabaticHydro)) \/
   (in_eos pin = "isothermal" /\ nhydro h = 4 /\ peos h = IsothermalHydro /\
    is_special_relativistic h = false /\ is_general_relativistic h = false)) /\
  pcoord h = is_general_relativistic h /\
  nscalars h = GetOrAdd (in_nscalars pin) 0 /\
  u0_extent h = pack_extent nmb (nhydro h + nscalars h) ncells /\
  w0_extent h = u0_extent h /\
  bval_nvar h = nhydro h + nscalars h.
Proof.
  intros Hc.
  destruct (Hydro_ctor_inv _ _ _ Hc)
    as (Hboth & Hsr & Hgr & Heos & Hns & Hpc & _ & Hu0 & Hw0 & Hbv & _).
  apply select_eos_inv in Heos. rewrite <- Hsr, <- Hgr in *.
  repeat split; try assumption; congruence.
Qed.

(** X19: a stationary problem selects no methods.  With <time>/evolution =
    "stationary" the constructor never reads <hydro>/reconstruct and
    <hydro>/rsolver: its outcome, error or object, is the same for every
    value of the two; and when it returns, no reconstruction method and no
    Riemann solver are assigned and the second register and the flux arrays
    keep their initial extents.  With any other evolution a constructed
    [Hydro] has both methods assigned and the arrays allocated. *)
Theorem hydro_stationary_selects_no_methods (nmb : Z) (ncells : RegionCells.t)
    (pin : HydroInput) :
  (in_evolution pin = "stationary" ->
   (forall (reconstruct : option string) (rsolver : string),
      Hydro_ctor is_adiabatic nmb ncells (with_methods pin reconstruct rsolver)
      = Hydro_ctor is_adiabatic nmb ncells pin) /\
   (forall h, Hydro_ctor is_adiabatic nmb ncells pin = inr h ->
      recon_method_ h = None /\ rsolver_method_ h = None /\
      u1_extent h = (1, 1, 1, 1, 1) /\ uflx_extent h = (1, 1, 1, 1, 1))) /\
  (in_evolution pin <> "stationary" ->
   forall h, Hydro_ctor is_adiabatic nmb ncells pin = inr h ->
     recon_method_ h <> None /\ rsolver_method_ h <> None /\
     u1_extent h = u0_extent h /\ uflx_extent h = u0_extent h).
Proof.
  split.
  - intros Hst. split.
    + intros reconstruct rsolver. unfold Hydro_ctor, with_methods. cbv zeta.
      cbn [in_special_rel in_general_rel in_eos in_nscalars in_viscosity
           in_evolution in_reconstruct in_rsolver].
      rewrite Hst. cbn [String.eqb Ascii.eqb Bool.eqb negb andb]. reflexivity.
    + intros h Hc.
      destruct (Hydro_ctor_inv _ _ _ Hc) as (_ & _ & _ & _ & _ & _ & _ & _ & _ & _ & Hm).
      rewrite Hst in Hm. exact Hm.
  - intros Hne h Hc.
    destruct (Hydro_ctor_inv _ _ _ Hc) as (_ & _ & _ & _ & _ & _ & _ & Hu0 & _ & _ & Hm).
    apply String.eqb_neq in Hne. rewrite Hne in Hm.
    destruct Hm as (r & s & H1 & H2 & H3 & H4 & _).
    rewrite H1, H2, H3, H4, Hu0. repeat split; discriminate.
Qed.

(** X20: the reconstruction method of a constructed [Hydro].  When the
    constructor returns with a method selected, the method is the one named
    by <hydro>/reconstruct, PLM when the parameter is absent, and PPM and
    WENOZ are only selected with at least three ghost zones. *)
Theorem hydro_reconstruction_selection (nmb : Z) (ncells : RegionCells.t)
    (pin : HydroInput) (h : Hydro) (r : ReconstructionMethod.t) :
  Hydro_ctor is_adiabatic nmb ncells pin = inr h ->
  recon_method_ h = Some r ->
  (in_reconstruct pin = None -> r = ReconstructionMethod.plm) /\
  (r = ReconstructionMethod.ppm \/ r = ReconstructionMethod.wenoz ->
   3 <= RegionCells.ng ncells) /\
  GetOrAdd (in_reconstruct pin) "plm" =
    match r with
    | ReconstructionMethod.dc => "dc"
    | ReconstructionMethod.plm => "plm"
    | ReconstructionMethod.ppm => "ppm"
    | ReconstructionMethod.wenoz => "wenoz"
    end.
Proof.
  intros Hc Hr.
  destruct (Hydro_ctor_inv _ _ _ Hc) as (_ & _ & _ & _ & _ & _ & _ & _ & _ & _ & Hm).
  destruct (in_evolution pin =? "stationary")%string eqn:Est.
  { destruct Hm as (Hn & _). rewrite Hn in Hr. discriminate Hr. }
  destruct Hm as (r' & s & _ & _ & Hr' & _ & Hsel & _).
  rewrite Hr' in Hr. injection Hr as ->.
  apply select_reconstruction_inv in Hsel.
  split; [| split].
  - intros Hnone. rewrite Hnone in Hsel. cbn [GetOrAdd] in Hsel.
    destruct r; try reflexivity; try discriminate Hsel;
      destruct Hsel as [Hsel _]; discriminate Hsel.
  - intros [-> | ->]; apply Hsel.
  - destruct r; try exact Hsel; apply Hsel.
Qed.

End HydroConstructorProperties.

(** * Formatted table output: properties *)

(** X21: which slice selections the constructor of the formatted-table
    output accepts.  In a mesh with more than one cell in the second and in
    the third direction it accepts exactly the selections with at least two
    of the three slices; with more than one cell in the second direction
    only, exactly those with a slice in the first or in the second
    direction; with more than one cell in the third direction only, exactly
    those with a slice in the third direction or in both others; and in a
    one-dimensional mesh it accepts every selection. *)
Theorem table_ctor_accepts (nx2gt1 nx3gt1 slice1 slice2 slice3 : bool) :
  FormattedTableOutput_ctor nx2gt1 nx3gt1 slice1 slice2 slice3 = table_constructed <->
  match nx2gt1, nx3gt1 with
  | true, true =>
    (slice1 && slice2) || (slice2 && slice3) || (slice1 && slice3) = true
  | true, false => slice1 || slice2 = true
  | false, true => slice3 || (slice1 && slice2) = true
  | false, false => True
  end.
Proof.
  unfold FormattedTableOutput_ctor.
  destruct nx2gt1, nx3gt1, slice1, slice2, slice3; cbn;
    split; intros H; first [reflexivity | exact I | discriminate H].
Qed.

Section FileNameProperties.

Import Ascii List ListNotations.
Local Open Scope Z_scope.
Local Open Scope list_scope.

Lemma pow10_S (k : nat) : 10 ^ Z.of_nat (S k) = 10 * 10 ^ Z.of_nat k.
Proof. rewrite Nat2Z.inj_succ, Z.pow_succ_r by lia. reflexivity. Qed.

Lemma pow10_pos (k : nat) : 0 < 10 ^ Z.of_nat k.
Proof. apply Z.pow_pos_nonneg; lia. Qed.

Lemma div10_bounds (n : Z) (k : nat) :
  10 <= n < 10 ^ Z.of_nat (S k) ->
  1 <= n / 10 < 10 ^ Z.of_nat k /\ 0 <= n mod 10 <= 9 /\ n = 10 * (n / 10) + n mod 10.
Proof.
  intros [Hlo Hhi]. rewrite pow10_S in Hhi.
  pose proof (Z.div_mod n 10 ltac:(lia)) as Hdm.
  pose proof (Z.mod_pos_bound n 10 ltac:(lia)) as Hm.
  repeat split; lia.
Qed.

Lemma decimal_digits_S (fuel : nat) (n : Z) :
  decimal_digits (S fuel) n =
    if n <? 10 then [n] else decimal_digits fuel (n / 10) ++ [n mod 10].
Proof. reflexivity. Qed.

(** The digits do not depend on the fuel, once there is enough of it. *)
Lemma decimal_digits_fuel (f1 : nat) :
  forall (f2 : nat) (n : Z),
    0 <= n < 10 ^ Z.of_nat (S f1) -> n < 10 ^ Z.of_nat (S f2) ->
    decimal_digits (S f1) n = decimal_digits (S f2) n.
Proof.
  induction f1 as [| f1 IH]; intros f2 n Hn1 Hn2.
  - change (10 ^ Z.of_nat 1) with 10 in Hn1. cbn [decimal_digits].
    replace (n <? 10) with true by (symmetry; apply Z.ltb_lt; lia). reflexivity.
  - cbn [decimal_digits]. destruct (n <? 10) eqn:E; [reflexivity |].
    apply Z.ltb_ge in E.
    destruct f2 as [| f2].
    { change (10 ^ Z.of_nat 1) with 10 in Hn2. lia. }
    destruct (@div10_bounds n (S f1)) as (Hq1 & _); [lia |].
    destruct (@div10_bounds n (S f2)) as (Hq2 & _); [lia |].
    change (decimal_digits (S f1) (n / 10) ++ [n mod 10]
            = decimal_digits (S f2) (n / 10) ++ [n mod 10]).
    rewrite (IH f2 (n / 10)) by lia. reflexivity.
Qed.

Lemma log2_fuel (n : Z) : 0 <= n -> n < 10 ^ Z.of_nat (S (Z.to_nat (Z.log2 n))).
Proof.
  intros Hn. destruct (Z.eq_dec n 0) as [-> | Hne]; [reflexivity |].
  rewrite Nat2Z.inj_succ, Z2Nat.id by apply Z.log2_nonneg.
  pose proof (Z.log2_spec n ltac:(lia)) as [_ Hlt].
  apply Z.lt_le_trans with (2 ^ Z.succ (Z.log2 n)); [exact Hlt |].
  apply Z.pow_le_mono_l. lia.
Qed.

Lemma digits_of_fuel (n : Z) (k : nat) :
  0 <= n < 10 ^ Z.of_nat (S k) -> digits_of n = decimal_digits (S k) n.
Proof.
  intros Hn. unfold digits_of. apply decimal_digits_fuel; [| lia].
  split; [lia | apply log2_fuel; lia].
Qed.

Lemma digits_value_app (l : list Z) (d : Z) :
  digits_value (l ++ [d]) = 10 * digits_value l + d.
Proof. unfold digits_value. rewrite fold_left_app. reflexivity. Qed.

Lemma digits_value_zeros (k : nat) (l : list Z) :
  digits_value (repeat 0 k ++ l) = digits_value l.
Proof.
  unfold digits_value. rewrite fold_left_app.
  replace (fold_left (fun a d => 10 * a + d) (repeat 0 k) 0) with 0; [reflexivity |].
  induction k as [| k IH]; [reflexivity | exact IH].
Qed.

(** The digits of a number denote it, are decimal digits, and are as many
    as its magnitude tells. *)
Lemma decimal_digits_spec (k : nat) :
  forall n : Z, 0 <= n < 10 ^ Z.of_nat (S k) ->
    digits_value (decimal_digits (S k) n) = n /\
    Forall (fun d => 0 <= d <= 9) (decimal_digits (S k) n) /\
    (length (decimal_digits (S k) n) <= S k)%nat /\
    (10 ^ Z.of_nat k <= n -> length (decimal_digits (S k) n) = S k).
Proof.
  assert (Hone : forall n : Z, 0 <= n < 10 ->
    digits_value [n] = n /\ Forall (fun d => 0 <= d <= 9) [n]).
  { intros n Hn. split.
    - unfold digits_value. cbn [fold_left]. lia.
    - constructor; [lia | constructor]. }
  induction k as [| k IH]; intros n Hn.
  - change (10 ^ Z.of_nat 1) with 10 in Hn. cbn [decimal_digits].
    replace (n <? 10) with true by (symmetry; apply Z.ltb_lt; lia).
    destruct (Hone n Hn) as [Hv Hf].
    split; [exact Hv | split; [exact Hf | split]].
    + cbn [length]. lia.
    + intros _. reflexivity.
  - rewrite decimal_digits_S. destruct (n <? 10) eqn:E.
    + apply Z.ltb_lt in E. destruct (Hone n ltac:(lia)) as [Hv Hf].
      split; [exact Hv | split; [exact Hf | split]].
      * cbn [length]. lia.
      * intros Hlo. exfalso. rewrite pow10_S in Hlo. pose proof (pow10_pos k). lia.
    + apply Z.ltb_ge in E.
      destruct (@div10_bounds n (S k)) as (Hq & Hm & Hdm); [lia |].
      destruct (IH (n / 10)) as (Hv & Hf & Hl & Hle); [lia |].
      split; [| split; [| split]].
      * rewrite digits_value_app, Hv. lia.
      * apply Forall_app. split; [exact Hf | constructor; [lia | constructor]].
      * rewrite length_app. cbn [length]. lia.
      * intros Hlo. rewrite length_app. cbn [length].
        rewrite Hle; [lia |]. rewrite pow10_S in Hlo. lia.
Qed.

Lemma digit_char_inj (a b : Z) :
  0 <= a <= 9 -> 0 <= b <= 9 -> digit_char a = digit_char b -> a = b.
Proof.
  intros Ha Hb H. unfold digit_char in H.
  apply (f_equal nat_of_ascii) in H.
  rewrite !nat_ascii_embedding in H by lia. lia.
Qed.

Lemma map_digit_char_inj (l1 : list Z) :
  forall l2 : list Z,
    Forall (fun d => 0 <= d <= 9) l1 -> Forall (fun d => 0 <= d <= 9) l2 ->
    map digit_char l1 = map digit_char l2 -> l1 = l2.
Proof.
  induction l1 as [| a l1 IH]; intros [| b l2] H1 H2 H; cbn [map] in H;
    try discriminate H; [reflexivity |].
  inversion H1; subst. inversion H2; subst. injection H as Hc Ht.
  f_equal; [apply digit_char_inj; assumption | apply IH; assumption].
Qed.

Lemma zero_pad_digits (w : nat) (l : list Z) :
  zero_pad w (map digit_char l) = map digit_char (repeat 0 (w - length l) ++ l).
Proof.
  unfold zero_pad. rewrite map_app, length_map, map_repeat. reflexivity.
Qed.

(** The number field of a file number below 100000: its five digits. *)
Lemma file_number_field_small (n : Z) :
  0 <= n < 100000 ->
  exists l : list Z,
    file_number_field n = map digit_char l /\ length l = 5%nat /\
    Forall (fun d => 0 <= d <= 9) l /\ digits_value l = n.
Proof.
  intros Hn.
  assert (Hn5 : 0 <= n < 10 ^ Z.of_nat 5) by (change (10 ^ Z.of_nat 5) with 100000; lia).
  destruct (@decimal_digits_spec 4 n Hn5) as (Hv & Hf & Hl & _).
  exists (repeat 0 (5 - length (digits_of n)) ++ digits_of n).
  rewrite (@digits_of_fuel n 4 Hn5).
  unfold file_number_field, snprintf, format_0d.
  replace (n <? 0) with false by (symmetry; apply Z.ltb_ge; lia).
  rewrite (@digits_of_fuel n 4 Hn5), zero_pad_digits.
  set (l := repeat 0 (5 - length (decimal_digits 5 n)) ++ decimal_digits 5 n).
  assert (Hlen : length l = 5%nat).
  { subst l. rewrite length_app, repeat_length. lia. }
  repeat split.
  - change (6 - 1)%nat with 5%nat. rewrite <- Hlen at 1.
    rewrite <- (length_map digit_char l). apply firstn_all.
  - exact Hlen.
  - subst l. apply Forall_app. split; [| exact Hf].
    apply Forall_forall. intros x Hx. apply repeat_spec in Hx. lia.
  - subst l. rewrite digits_value_zeros. exact Hv.
Qed.

Lemma file_number_field_length (n : Z) : length (file_number_field n) = 5%nat.
Proof.
  unfold file_number_field, snprintf. change (6 - 1)%nat with 5%nat.
  apply firstn_length_le.
  unfold format_0d, zero_pad.
  destruct (n <? 0); cbn [length]; rewrite length_app, repeat_length; lia.
Qed.

(** X22: the name of an output file.  Whatever the file number, the name is
    the base name, a dot, the file id, a dot, five characters and ".tab",
    so its length is the two lengths plus 11; and for file numbers from 0 to
    99999 the five characters are the zero-padded decimal digits of the
    number, so that different file numbers of the same output give
    different file names. *)
Theorem output_file_name_unique (file_basename file_id : chars) :
  (forall n : Z,
     length (output_file_name file_basename file_id n)
     = (length file_basename + length file_id + 11)%nat) /\
  (forall n : Z, 0 <= n < 100000 ->
     exists l : list Z,
       file_number_field n = map digit_char l /\ length l = 5%nat /\
       Forall (fun d => 0 <= d <= 9) l /\ digits_value l = n) /\
  (forall n m : Z, 0 <= n < 100000 -> 0 <= m < 100000 ->
     output_file_name file_basename file_id n = output_file_name file_basename file_id m ->
     n = m).
Proof.
  split; [| split].
  - intros n. unfold output_file_name.
    rewrite !length_app, file_number_field_length. cbn [length]. lia.
  - exact file_number_field_small.
  - intros n m Hn Hm H. unfold output_file_name in H.
    apply app_inv_tail in H. apply app_inv_head in H.
    destruct (file_number_field_small Hn) as (ln & En & _ & Fn & Vn).
    destruct (file_number_field_small Hm) as (lm & Em & _ & Fm & Vm).
    rewrite En, Em in H. apply map_digit_char_inj in H; [| exact Fn | exact Fm].
    congruence.
Qed.

(** X23: the number field is cut after five characters, so file names
    repeat from file number 100000 on: for every file number [n] from 10000
    to 99999 and every digit [d], the file number [10 n + d] gets the file
    name of [n]. *)
Theorem output_file_name_wraps (file_basename file_id : chars) (n d : Z) :
  10000 <= n < 100000 -> 0 <= d <= 9 ->
  output_file_name file_basename file_id (10 * n + d)
  = output_file_name file_basename file_id n.
Proof.
  intros Hn Hd. unfold output_file_name. do 2 f_equal.
  assert (Hn5 : 0 <= n < 10 ^ Z.of_nat 5) by (change (10 ^ Z.of_nat 5) with 100000; lia).
  assert (Hn6 : 0 <= 10 * n + d < 10 ^ Z.of_nat 6)
    by (change (10 ^ Z.of_nat 6) with 1000000; lia).
  destruct (@decimal_digits_spec 4 n Hn5) as (_ & _ & _ & Hlen).
  specialize (Hlen ltac:(change (10 ^ Z.of_nat 4) with 10000; lia)).
  unfold file_number_field, snprintf, format_0d.
  replace (10 * n + d <? 0) with false by (symmetry; apply Z.ltb_ge; lia).
  replace (n <? 0) with false by (symmetry; apply Z.ltb_ge; lia).
  rewrite (@digits_of_fuel n 4 Hn5), (@digits_of_fuel (10 * n + d) 5 Hn6).
  change (decimal_digits 6 (10 * n + d))
    with (if 10 * n + d <? 10 then [10 * n + d]
          else decimal_digits 5 ((10 * n + d) / 10) ++ [(10 * n + d) mod 10]).
  replace (10 * n + d <? 10) with false by (symmetry; apply Z.ltb_ge; lia).
  replace ((10 * n + d) / 10) with n
    by (apply Z.div_unique with d; lia).
  unfold zero_pad. rewrite !length_map, length_app, Hlen. cbn [length].
  change (6 - 1)%nat with 5%nat.
  replace (5 - (5 + 1))%nat with 0%nat by lia. replace (5 - 5)%nat with 0%nat by lia.
  cbn [repeat app]. rewrite map_app.
  rewrite firstn_app, length_map, Hlen. replace (5 - 5)%nat with 0%nat by lia.
  cbn [firstn]. rewrite app_nil_r. reflexivity.
Qed.

End FileNameProperties.

Section OutputCounterProperties.

Local Open Scope R_scope.

Lemma increment_counters_R (op : OutputCounters (Real := R)) (time : R) :
  increment_counters op time =
    mkOutputCounters (int_add (file_number op) 1)
      (if Rltb (last_time op) 0 then time else last_time op + out_dt op)
      (out_dt op).
Proof.
  unfold increment_counters. cbv zeta.
  cbn [lit add sub neg mul div sqrt fabs fmax ltb leb R_arith].
  rewrite lit_0. reflexivity.
Qed.

Lemma int_add_small (a b : Z) :
  (INT_MIN <= a + b <= INT_MAX)%Z -> int_add a b = (a + b)%Z.
Proof.
  intros H. unfold int_add, wrap_int. unfold INT_MIN, INT_MAX in H.
  rewrite Z.mod_small by lia. lia.
Qed.

Lemma write_files_started (times : list R) :
  forall op : OutputCounters (Real := R),
    0 <= last_time op -> 0 <= out_dt op ->
    last_time (write_files op times) = last_time op + INR (length times) * out_dt op /\
    out_dt (write_files op times) = out_dt op.
Proof.
  induction times as [| t times IH]; intros op Hl Hd.
  - unfold write_files. cbn [List.fold_left length INR].
    split; [lra | reflexivity].
  - unfold write_files. cbn [List.fold_left]. fold (write_files (increment_counters op t) times).
    rewrite increment_counters_R.
    replace (Rltb (last_time op) 0) with false by (symmetry; apply Rltb_false_iff; exact Hl).
    destruct (IH (mkOutputCounters (int_add (file_number op) 1)
                    (last_time op + out_dt op) (out_dt op))) as (H1 & H3);
      cbn [last_time out_dt file_number]; [lra | exact Hd |].
    cbn [last_time out_dt file_number] in H1, H3.
    rewrite H1, H3. cbn [length]. rewrite S_INR.
    split; [lra | reflexivity].
Qed.

(** While the counter stays within [int] it counts the files. *)
Lemma write_files_file_number (times : list R) :
  forall op : OutputCounters (Real := R),
    (INT_MIN <= file_number op)%Z ->
    (file_number op + Z.of_nat (length times) <= INT_MAX)%Z ->
    file_number (write_files op times) = (file_number op + Z.of_nat (length times))%Z.
Proof.
  induction times as [| t times IH]; intros op Hlo Hhi.
  - unfold write_files. cbn [List.fold_left length]. lia.
  - unfold write_files. cbn [List.fold_left].
    fold (write_files (increment_counters op t) times).
    cbn [length] in Hhi.
    assert (E : file_number (increment_counters op t) = (file_number op + 1)%Z).
    { rewrite increment_counters_R. cbn [file_number]. apply int_add_small. lia. }
    rewrite IH; rewrite E; cbn [length]; lia.
Qed.

(** X24: the output time and the file number recorded for restarts.
    Starting from a negative [last_time] (no file written yet), with a
    non-negative output interval, in exact real arithmetic: the first file
    written records its own time; if that time is non-negative, every later
    file advances the record by exactly the output interval, whatever the
    time it is written at; if that time is negative, the next file records
    its own time again.  The file number, an [int], counts the files as long
    as it stays at or below [INT_MAX]; incremented at [INT_MAX] it wraps to
    [INT_MIN]. *)
Theorem output_times_advance_by_dt (op : OutputCounters (Real := R))
    (t1 : R) (times : list R) :
  last_time op < 0 -> 0 <= out_dt op ->
  last_time (increment_counters op t1) = t1 /\
  (0 <= t1 ->
   last_time (write_files op (t1 :: times)) = t1 + INR (length times) * out_dt op) /\
  (t1 < 0 ->
   forall t2 : R, last_time (write_files op (t1 :: t2 :: nil)) = t2) /\
  ((INT_MIN <= file_number op)%Z ->
   (file_number op + Z.of_nat (S (length times)) <= INT_MAX)%Z ->
   file_number (write_files op (t1 :: times))
   = (file_number op + Z.of_nat (S (length times)))%Z) /\
  (file_number op = INT_MAX ->
   file_number (increment_counters op t1) = INT_MIN).
Proof.
  intros Hneg Hd.
  assert (H1 : increment_counters op t1
               = mkOutputCounters (int_add (file_number op) 1) t1 (out_dt op)).
  { rewrite increment_counters_R.
    replace (Rltb (last_time op) 0) with true by (symmetry; apply Rltb_true_iff; exact Hneg).
    reflexivity. }
  split; [rewrite H1; reflexivity |].
  split; [| split; [| split]].
  - intros Ht. unfold write_files. cbn [List.fold_left].
    fold (write_files (increment_counters op t1) times). rewrite H1.
    destruct (@write_files_started times
                (mkOutputCounters (int_add (file_number op) 1) t1 (out_dt op)))
      as (Hl & _); cbn [last_time out_dt]; [exact Ht | exact Hd |].
    exact Hl.
  - intros Ht t2. unfold write_files. cbn [List.fold_left]. rewrite H1.
    rewrite increment_counters_R. cbn [last_time].
    replace (Rltb t1 0) with true by (symmetry; apply Rltb_true_iff; exact Ht).
    reflexivity.
  - intros Hlo Hhi.
    exact (@write_files_file_number (t1 :: times) op Hlo Hhi).
  - intros E. rewrite H1. cbn [file_number]. rewrite E. reflexivity.
Qed.

End OutputCounterProperties.

(** * The properties above at concrete inputs *)

Section MoreWitnesses.

Local Open Scope R_scope.

(** X10, witness: [nonrel_prim_round_trip] at the warm primitive state. *)
Lemma nonrel_prim_round_trip_warm :
  let u := cons_with_field (SingleP2C_IdealMHD warm_w) warm_w in
  let res := SingleC2P_IdealMHD u eos_small_floors false false in
  c2p_w res = prim_drop_field warm_w /\ c2p_u res = u /\
  c2p_dfloor_used res = false /\ c2p_efloor_used res = false.
Proof.
  apply (@nonrel_prim_round_trip warm_w eos_small_floors false false).
  - cbn. lra.
  - cbn. lra.
  - cbn. lra.
Defined.

(** X9, witness: [sr_p2c_at_rest_is_nonrel] at a magnetized fluid at
    rest. *)
Lemma sr_p2c_at_rest_is_nonrel_resting :
  SingleP2C_IdealSRMHD resting_w (5 / 3) = SingleP2C_IdealMHD resting_w.
Proof.
  apply (@sr_p2c_at_rest_is_nonrel resting_w (5 / 3)); reflexivity.
Defined.

(** X13, witness: [sr_exact_root_inverts] at the moving primitive state. *)
Lemma sr_exact_root_inverts_moving :
  let gam := EOS_Data.gamma eos_small_floors in
  let u := sr_cons_of_prim moving_w gam in
  let rc := sr_recast u eos_small_floors (momentum_sq u) 0 0 in
  let mu := prim_mu moving_w gam in
  sr_floored u eos_small_floors 0 = u /\
  0 < mu <= z (bracket_phase rc) /\
  Equation44 mu (rc_b2 rc) (rc_rpar rc) (rc_r rc) (rc_q rc) (MHDCons1D.d u)
    eos_small_floors = 0 /\
  fst (primitives_from_mu u eos_small_floors rc mu false) = moving_w /\
  (EOS_Data.pfloor eos_small_floors < (gam - 1) * HydPrim1D.e moving_w ->
   snd (primitives_from_mu u eos_small_floors rc mu false) = false).
Proof.
  apply (@sr_exact_root_inverts moving_w eos_small_floors false).
  - exact eos_small_floors_valid.
  - cbn. lra.
  - cbn. lra.
Defined.

(** X14, witness: [sr_fluid_at_rest] at the static fluid of unit pressure. *)
Lemma sr_fluid_at_rest_unit :
  let res := SingleC2P_IdealSRMHD (static_u 1) eos_small_floors 0 0 0 false false 0 in
  sr_w res = HydPrim1D.mk (MHDCons1D.d (static_u 1)) 0 0 0 (MHDCons1D.e (static_u 1)) /\
  sr_u res = static_u 1 /\
  sr_dfloor_used res = false /\
  (EOS_Data.pfloor eos_small_floors / (EOS_Data.gamma eos_small_floors - 1)
     < MHDCons1D.e (static_u 1) -> sr_efloor_used res = false) /\
  (EOS_Data.pfloor eos_small_floors / (EOS_Data.gamma eos_small_floors - 1)
     = MHDCons1D.e (static_u 1) -> sr_efloor_used res = true) /\
  sr_mu (static_u 1) eos_small_floors 0 0 0
    = 1 / (1 + EOS_Data.gamma eos_small_floors
               * (MHDCons1D.e (static_u 1) / MHDCons1D.d (static_u 1))) /\
  sr_max_iter res = Z.max 0 0.
Proof.
  apply (@sr_fluid_at_rest (static_u 1) eos_small_floors false false 0%Z).
  - exact eos_small_floors_valid.
  - cbn. lra.
  - reflexivity.
  - reflexivity.
  - reflexivity.
  - cbn. rewrite !static_energy. lra.
Defined.

Lemma cells_16x8_fit : pack_fits_int 4 cells_16x8.
Proof.
  unfold pack_fits_int, cells_16x8, INT_MAX.
  cbn [RegionCells.nx1 RegionCells.nx2 RegionCells.nx3 RegionCells.is_
       RegionCells.js RegionCells.ks].
  lia.
Qed.

(** X15, witness: [cell_of_idx_bijection] for four MeshBlocks of 16 x 8 x 1
    cells. *)
Lemma cell_of_idx_bijection_16x8 :
  pack_fits_int 4 cells_16x8 /\
  (int_mul (int_mul (int_mul 4 1) 8) 16 = 4 * 1 * 8 * 16 /\
   int_mul (int_mul 1 8) 16 = 1 * 8 * 16 /\ int_mul 8 16 = 8 * 16)%Z /\
  (forall idx, (0 <= idx < int_mul (int_mul (int_mul 4 1) 8) 16)%Z ->
     active_cell 4 cells_16x8
       (cell_of_idx (int_mul (int_mul 1 8) 16) (int_mul 8 16) 16 2 2 0 idx) /\
     idx_of_cell 16 8 1 2 2 0
       (cell_of_idx (int_mul (int_mul 1 8) 16) (int_mul 8 16) 16 2 2 0 idx) = idx) /\
  (forall c, active_cell 4 cells_16x8 c ->
     (0 <= idx_of_cell 16 8 1 2 2 0 c < int_mul (int_mul (int_mul 4 1) 8) 16)%Z /\
     cell_of_idx (int_mul (int_mul 1 8) 16) (int_mul 8 16) 16 2 2 0
       (idx_of_cell 16 8 1 2 2 0 c) = c).
Proof.
  split; [exact cells_16x8_fit |].
  exact (@cell_of_idx_bijection cells_16x8 4 cells_16x8_fit).
Defined.

(** X16, witness: [time_step_is_minimum] for the pack in uniform flow, a
    two-dimensional dynamic problem at the last of two stages. *)
Lemma time_step_is_minimum_uniform :
  let dt := NewTimeStep 0 1 2 3 4 unit_sound_speed 1000 2 dynamic cells_16x8 4
              true false uniform_w0 unit_size 2 5 in
  dt <= 1000 /\
  (forall c, active_cell 4 cells_16x8 c ->
     dt <= cell_dt 0 4 unit_sound_speed dynamic uniform_w0 unit_size 1 6 c /\
     (true = true -> dt <= cell_dt 0 4 unit_sound_speed dynamic uniform_w0 unit_size 2 7 c) /\
     (false = true -> dt <= cell_dt 0 4 unit_sound_speed dynamic uniform_w0 unit_size 3 8 c)) /\
  (dt = 1000 \/
   exists c, active_cell 4 cells_16x8 c /\
     (dt = cell_dt 0 4 unit_sound_speed dynamic uniform_w0 unit_size 1 6 c \/
      (true = true /\ dt = cell_dt 0 4 unit_sound_speed dynamic uniform_w0 unit_size 2 7 c) \/
      (false = true /\ dt = cell_dt 0 4 unit_sound_speed dynamic uniform_w0 unit_size 3 8 c))) /\
  (forall dtnew' : R,
     NewTimeStep 0 1 2 3 4 unit_sound_speed 1000 2 dynamic cells_16x8 4
       true false uniform_w0 unit_size 2 dtnew' = dt) /\
  (forall stage : Z, stage <> 2%Z ->
     NewTimeStep 0 1 2 3 4 unit_sound_speed 1000 2 dynamic cells_16x8 4
       true false uniform_w0 unit_size stage 5 = 5).
Proof.
  apply (@time_step_is_minimum 0 1 2 3 4 unit_sound_speed 1000 2 dynamic cells_16x8 4
           true false uniform_w0 unit_size 5).
  - exact cells_16x8_fit.
  - intros [[[m k] j] i] _.
    unfold cell_speed, uniform_w0, unit_sound_speed.
    cbn [fabs add R_arith]. rewrite Rabs_R1.
    repeat split; intros; lra.
Defined.

End MoreWitnesses.

Section HydroWitnesses.

Import String.
Local Open Scope string_scope.
Local Open Scope Z_scope.

(** X17, witness: [hydro_solver_matches_physics] for relativistic adiabatic
    hydrodynamics with the HLLC solver. *)
Lemma hydro_solver_matches_physics_sr_hllc :
  (Hydro_RSolver.hllc_sr = Hydro_RSolver.advect <->
   in_evolution sr_hllc_input <> "dynamic") /\
  is_special_relativistic sr_hllc_hydro = true /\
  is_general_relativistic sr_hllc_hydro = false /\
  is_adiabatic_by_name (peos sr_hllc_hydro) = true.
Proof.
  apply (@hydro_solver_matches_physics is_adiabatic_by_name 4 cells_16x8
           sr_hllc_input sr_hllc_hydro Hydro_RSolver.hllc_sr); reflexivity.
Defined.

(** X18, witness: [hydro_constructed_state] for the same input. *)
Lemma hydro_constructed_state_sr_hllc :
  (is_special_relativistic sr_hllc_hydro && is_general_relativistic sr_hllc_hydro
   = false)%bool /\
  ((in_eos sr_hllc_input = "adiabatic" /\ nhydro sr_hllc_hydro = 5 /\
    peos sr_hllc_hydro =
      (if is_special_relativistic sr_hllc_hydro then AdiabaticHydroSR
       else AdiabaticHydro)) \/
   (in_eos sr_hllc_input = "isothermal" /\ nhydro sr_hllc_hydro = 4 /\
    peos sr_hllc_hydro = IsothermalHydro /\
    is_special_relativistic sr_hllc_hydro = false /\
    is_general_relativistic sr_hllc_hydro = false)) /\
  pcoord sr_hllc_hydro = is_general_relativistic sr_hllc_hydro /\
  nscalars sr_hllc_hydro = GetOrAdd (in_nscalars sr_hllc_input) 0 /\
  u0_extent sr_hllc_hydro
    = pack_extent 4 (nhydro sr_hllc_hydro + nscalars sr_hllc_hydro) cells_16x8 /\
  w0_extent sr_hllc_hydro = u0_extent sr_hllc_hydro /\
  bval_nvar sr_hllc_hydro = nhydro sr_hllc_hydro + nscalars sr_hllc_hydro.
Proof.
  apply (@hydro_constructed_state is_adiabatic_by_name 4 cells_16x8
           sr_hllc_input sr_hllc_hydro); reflexivity.
Defined.

(** X20, witness: [hydro_reconstruction_selection] for the same input,
    which does not name a reconstruction method. *)
Lemma hydro_reconstruction_selection_default :
  (in_reconstruct sr_hllc_input = None ->
   ReconstructionMethod.plm = ReconstructionMethod.plm) /\
  (ReconstructionMethod.plm = ReconstructionMethod.ppm \/
   ReconstructionMethod.plm = ReconstructionMethod.wenoz ->
   3 <= RegionCells.ng cells_16x8) /\
  GetOrAdd (in_reconstruct sr_hllc_input) "plm" = "plm".
Proof.
  apply (@hydro_reconstruction_selection is_adiabatic_by_name 4 cells_16x8
           sr_hllc_input sr_hllc_hydro ReconstructionMethod.plm); reflexivity.
Defined.

End HydroWitnesses.

Section TableWitnesses.

Import Ascii List ListNotations.
Local Open Scope Z_scope.

(** X23, witness: [output_file_name_wraps] at file number 100000, which gets
    the name of file number 10000. *)
Lemma output_file_name_wraps_100000 :
  output_file_name ["o"; "u"; "t"]%char ["w"]%char (10 * 10000 + 0)
  = output_file_name ["o"; "u"; "t"]%char ["w"]%char 10000.
Proof.
  apply (@output_file_name_wraps ["o"; "u"; "t"]%char ["w"]%char 10000 0); lia.
Defined.

(** X24, witness: [output_times_advance_by_dt] for three files written at
    times 0, 0.15 and 0.2 with an output interval of 0.1. *)
Lemma output_times_advance_by_dt_three :
  last_time (increment_counters fresh_counters 0%R) = 0%R /\
  ((0 <= 0)%R ->
   last_time (write_files fresh_counters [0; 3 / 20; 1 / 5]%R)
   = (0 + INR (length [3 / 20; 1 / 5]%R) * out_dt fresh_counters)%R) /\
  ((0 < 0)%R ->
   forall t2 : R, last_time (write_files fresh_counters [0%R; t2]) = t2) /\
  (INT_MIN <= file_number fresh_counters ->
   file_number fresh_counters + Z.of_nat (S (length [3 / 20; 1 / 5]%R)) <= INT_MAX ->
   file_number (write_files fresh_counters [0; 3 / 20; 1 / 5]%R)
   = file_number fresh_counters + Z.of_nat (S (length [3 / 20; 1 / 5]%R))) /\
  (file_number fresh_counters = INT_MAX ->
   file_number (increment_counters fresh_counters 0%R) = INT_MIN).
Proof.
  apply (@output_times_advance_by_dt fresh_counters 0%R [3 / 20; 1 / 5]%R);
    cbn; lra.
Defined.

End TableWitnesses.
